(** * my-cool-forum: the forum store of [server.js]

    [server.js] holds two variants of one REST API: the first keeps its
    data in SQLite tables (better-sqlite3, synchronous handlers), the second
    one in the Replit key-value database (asynchronous handlers, string
    keys).  Both are embedded here, handler by handler, and the properties
    of the read/write data model are stated over the two embeddings.

    Conventions of the embedding.
    - Text is [string] (bytes); timestamps ([datetime('now')], [nowIso()],
      [Date.now()]) are integers [Z], read from a clock that is an input of
      every request.
    - A JSON body field is [option string]: [None] stands for an absent,
      [null] or empty field.  Fields holding other JSON types are outside
      the model.
    - [Number(x)] is [option Z]: [None] stands for [NaN] (not finite);
      fractional numbers are outside the model.
    - A handler is a function from the state of storage (the tables, the
      key-value store) to its response and the next state, and requests are
      served one after the other; the handler that writes in several steps
      also gives the states in between.
    - [new URL(u)] is a parameter, [url_protocol], of the handlers that
      validate a URL.
    - [a.localeCompare(b)] is a parameter, [localeCompare], of the persona
      listing of the key-value variant. *)

From stdpp Require Import gmap strings list fin_maps sorting pretty.
From Stdlib Require Import ZArith Lia Ascii.

Local Open Scope Z_scope.

(** ** JavaScript and SQL primitives *)

Module Js.

(** [String.prototype.trim], over the ASCII white-space bytes
    (TAB, LF, VT, FF, CR, SPACE). *)
Fixpoint trimStart (s : string) : string :=
  match s with
  | String a s' => if Ascii.is_space a then trimStart s' else s
  | EmptyString => EmptyString
  end.

Definition trim (s : string) : string :=
  String.rev (trimStart (String.rev (trimStart s))).

(** [String.prototype.toLowerCase] and SQLite's [NOCASE] folding, over the
    ASCII letters. *)
Definition lower_char (a : ascii) : ascii :=
  let n := N_of_ascii a in
  if ((65 <=? n) && (n <=? 90))%N then ascii_of_N (n + 32) else a.

Fixpoint toLowerCase (s : string) : string :=
  match s with
  | String a s' => String (lower_char a) (toLowerCase s')
  | EmptyString => EmptyString
  end.

(** [(req.body?.f || "").trim()] *)
Definition field (f : option string) : string := trim (default "" f).

(** [s || null] *)
Definition or_null (s : string) : option string :=
  if decide (s = "") then None else Some s.

(** A property that is [undefined], [null] or a string. *)
Inductive opt_string := undefined | null | str (s : string).

Definition of_nullable (o : option string) : opt_string :=
  match o with Some s => str s | None => null end.

(** Truthiness of a number: [0] and [NaN] are falsy. *)
Definition truthy_num (n : option Z) : bool :=
  match n with Some z => negb (z =? 0) | None => false end.

(** [Array.prototype.sort(cmp)] is stable; [le a b] stands for
    [cmp(a, b) <= 0].  The same function orders the rows of an SQL
    [ORDER BY], whose order among equal keys SQLite leaves open. *)
Section sort.
Context {A : Type} (le : relation A) `{!RelDecision le}.

Fixpoint insert_sorted (x : A) (l : list A) : list A :=
  match l with
  | [] => [x]
  | y :: l' => if decide (le x y) then x :: l else y :: insert_sorted x l'
  end.

Definition sort (l : list A) : list A := foldr insert_sorted [] l.
End sort.

(** A text without the separator [:] of the keys. *)
Fixpoint no_colon (s : string) : bool :=
  match s with
  | String a s' => negb (Ascii.eqb a ":") && no_colon s'
  | EmptyString => true
  end.


End Js.

(** The name no persona may take, and the name shown for a missing one. *)
Definition RESERVED_NAME : string := "未命名".
Definition DELETED_PERSONA : string := "已删除人设".

(** [isProbablyHttpUrl]: [url_protocol u] stands for [new URL(u).protocol],
    [None] when the constructor throws. *)
Definition isProbablyHttpUrl (url_protocol : string → option string)
    (u : string) : bool :=
  if decide (u = "") then false
  else match url_protocol u with
       | Some p => bool_decide (p = "http:") || bool_decide (p = "https:")
       | None => false
       end.

(** A stand-in for the URL parser, to run the handlers on examples: the
    scheme is read off the front of the text. *)
Definition scheme_of (u : string) : option string :=
  if String.prefix "http://" u then Some "http:"
  else if String.prefix "https://" u then Some "https:"
  else if String.prefix "ftp://" u then Some "ftp:"
  else None.

(** ** Data model *)

Module persona.
Record t := mk {
  id : Z;
  name : string;
  avatar_url : option string;
  bio : option string;
  creator : option string;
  deleted_at : option Z
}.
Definition with_deleted_at (ts : option Z) (p : t) : t :=
  mk (id p) (name p) (avatar_url p) (bio p) (creator p) ts.
End persona.

Module post.
Record t := mk {
  id : Z;
  persona_id : option Z;
  content : string;
  image_url : option string;
  created_at : Z;
  deleted_at : option Z
}.
Definition with_deleted_at (ts : option Z) (p : t) : t :=
  mk (id p) (persona_id p) (content p) (image_url p) (created_at p) ts.
End post.

Module comment.
Record t := mk {
  id : Z;
  post_id : Z;
  persona_id : option Z;
  content : string;
  reply_to_comment_id : option Z;
  created_at : Z;
  deleted_at : option Z
}.
Definition with_deleted_at (ts : option Z) (c : t) : t :=
  mk (id c) (post_id c) (persona_id c) (content c) (reply_to_comment_id c)
     (created_at c) ts.
End comment.

(** Request bodies. *)
Module persona_req.
Record t := mk {
  name : option string;
  avatar_url : option string;
  bio : option string;
  creator : option string
}.
End persona_req.

Module post_req.
Record t := mk {
  persona_name : option string;
  content : option string;
  image_url : option string
}.
End post_req.

Module comment_req.
Record t := mk {
  post_id : option Z;                        (* Number(req.body?.post_id) *)
  persona_name : option string;
  content : option string;
  reply_to_comment_id : option (option Z)    (* null, or Number(...) *)
}.
End comment_req.

(** A post or comment as a read returns it: the stored entity with the
    persona display fields joined onto it. *)
Record annotated (A : Type) := Annotated {
  entity : A;
  persona_name : string;
  persona_avatar_url : Js.opt_string;
  persona_deleted : bool
}.
Arguments Annotated {A} _ _ _ _.
Arguments entity {A} _.
Arguments persona_name {A} _.
Arguments persona_avatar_url {A} _.
Arguments persona_deleted {A} _.

Record post_row := PostRow {
  row : annotated post.t;
  reply_count : nat
}.

Definition row_id (r : post_row) : Z := post.id (entity (row r)).
Definition row_created_at (r : post_row) : Z := post.created_at (entity (row r)).

(** A response: the payload, or the HTTP status and the [error] code. *)
Inductive result (A : Type) :=
  | Ok (a : A)
  | Err (status : Z) (code : string).
Arguments Ok {A} a.
Arguments Err {A} status code.

Definition detail : Type := annotated post.t * list (annotated comment.t).

(** The clock readings a request takes. *)
Record clock := Clock {
  Date_now : Z;      (* Date.now() *)
  nowIso : Z         (* new Date().toISOString(), datetime('now') *)
}.

(** Orders of the reads. *)
Definition by_new : relation post_row :=
  λ a b, row_created_at b ≤ row_created_at a.

Definition by_hot : relation post_row :=
  λ a b, (reply_count b < reply_count a)%nat ∨
         (reply_count a = reply_count b ∧ row_created_at b ≤ row_created_at a).

Definition by_created_at : relation (annotated comment.t) :=
  λ a b, comment.created_at (entity a) ≤ comment.created_at (entity b).

Definition by_created_at_id : relation (annotated comment.t) :=
  λ a b, comment.created_at (entity a) < comment.created_at (entity b) ∨
         (comment.created_at (entity a) = comment.created_at (entity b) ∧
          comment.id (entity a) ≤ comment.id (entity b)).

Global Instance by_new_dec : RelDecision by_new :=
  λ a b, decide (row_created_at b ≤ row_created_at a).
Global Instance by_hot_dec : RelDecision by_hot :=
  λ a b, decide ((reply_count b < reply_count a)%nat ∨
         (reply_count a = reply_count b ∧ row_created_at b ≤ row_created_at a)).
Global Instance by_created_at_dec : RelDecision by_created_at :=
  λ a b, decide (comment.created_at (entity a) ≤ comment.created_at (entity b)).
Global Instance by_created_at_id_dec : RelDecision by_created_at_id :=
  λ a b, decide
    (comment.created_at (entity a) < comment.created_at (entity b) ∨
     (comment.created_at (entity a) = comment.created_at (entity b) ∧
      comment.id (entity a) ≤ comment.id (entity b))).

(** The requests of the API and their responses. *)
Inductive request :=
  | CreatePersona (r : persona_req.t)      (* POST /api/personas *)
  | DeletePersona (id : option Z)          (* DELETE /api/personas/:id *)
  | ListPosts (sort : option string)       (* GET /api/posts?sort= *)
  | GetPost (id : option Z)                (* GET /api/posts/:id *)
  | CreatePost (r : post_req.t)            (* POST /api/posts *)
  | DeletePost (id : option Z)             (* DELETE /api/posts/:id *)
  | CreateComment (r : comment_req.t).     (* POST /api/comments *)

Inductive response :=
  | Created (r : result Z)
  | Done (r : result unit)
  | Posts (l : list post_row)
  | Detail (r : result detail).

(** ** The SQLite variant *)

Module Sql.

(** The three tables, rows in rowid order, each with the counter that
    [AUTOINCREMENT] keeps in [sqlite_sequence]. *)
Record db := mk_db {
  personas : list persona.t;
  personas_seq : Z;
  posts : list post.t;
  posts_seq : Z;
  comments : list comment.t;
  comments_seq : Z
}.

Definition empty : db := mk_db [] 0 [] 0 [] 0.

(** [INTEGER PRIMARY KEY AUTOINCREMENT]: one more than the largest rowid
    the table has or ever had. *)
Definition autoincrement (seq : Z) (rowids : list Z) : Z :=
  1 + foldr Z.max seq rowids.

(** [WHERE id = ?] on a primary key. *)
Definition persona_by_id (d : db) (i : Z) : option persona.t :=
  find (λ p, bool_decide (persona.id p = i)) (personas d).

Definition post_by_id (d : db) (i : Z) : option post.t :=
  find (λ p, bool_decide (post.id p = i)) (posts d).

Definition comment_by_id (d : db) (i : Z) : option comment.t :=
  find (λ c, bool_decide (comment.id c = i)) (comments d).

(** [SELECT id, deleted_at FROM personas WHERE name = ? COLLATE NOCASE],
    [.get()]: the first matching row. *)
Definition persona_by_name (d : db) (n : string) : option persona.t :=
  find (λ p, bool_decide (Js.toLowerCase (persona.name p) = Js.toLowerCase n))
       (personas d).

(** [LEFT JOIN personas per ON per.id = x.persona_id] and the three
    display columns computed from it. *)
Definition annotate {A : Type} (d : db) (pid : option Z) (x : A) : annotated A :=
  let per := pid ≫= persona_by_id d in
  {| entity := x;
     (* COALESCE(per.name, '已删除人设') *)
     persona_name := from_option persona.name DELETED_PERSONA per;
     (* CASE WHEN per.deleted_at IS NOT NULL OR per.id IS NULL
        THEN NULL ELSE per.avatar_url END *)
     persona_avatar_url :=
       match per with
       | Some p => match persona.deleted_at p with
                   | Some _ => Js.null
                   | None => Js.of_nullable (persona.avatar_url p)
                   end
       | None => Js.null
       end;
     (* CASE WHEN per.deleted_at IS NOT NULL OR per.id IS NULL
        THEN 1 ELSE 0 END *)
     persona_deleted :=
       match per with
       | Some p => bool_decide (is_Some (persona.deleted_at p))
       | None => true
       end |}.

(** [SELECT COUNT(1) FROM comments c
     WHERE c.post_id = p.id AND c.deleted_at IS NULL] *)
Definition count_replies (d : db) (pid : Z) : nat :=
  length (filter (λ c, comment.post_id c = pid ∧ comment.deleted_at c = None)
                 (comments d)).

Section handlers.
Context (url_protocol : string → option string).

(** [POST /api/personas] *)
Definition create_persona (r : persona_req.t) (d : db) : result Z * db :=
  let name := Js.field (persona_req.name r) in
  let avatar_url := Js.field (persona_req.avatar_url r) in
  let bio := Js.field (persona_req.bio r) in
  let creator := Js.field (persona_req.creator r) in
  if decide (name = "") then (Err 400 "NAME_REQUIRED", d)
  else if decide (name = RESERVED_NAME) then (Err 400 "NAME_RESERVED", d)
  else if bool_decide (avatar_url ≠ "") && negb (isProbablyHttpUrl url_protocol avatar_url)
  then (Err 400 "AVATAR_URL_INVALID", d)
  (* name TEXT NOT NULL UNIQUE: the column has the default BINARY collation *)
  else if decide (name ∈ persona.name <$> personas d)
  then (Err 409 "NAME_EXISTS", d)
  else
    let id := autoincrement (personas_seq d) (persona.id <$> personas d) in
    let p := persona.mk id name (Js.or_null avatar_url) (Js.or_null bio)
                        (Js.or_null creator) None in
    (Ok id,
     mk_db (personas d ++ [p]) id (posts d) (posts_seq d)
           (comments d) (comments_seq d)).

(** [UPDATE personas SET deleted_at=? WHERE id=?] *)
Definition update_persona_deleted_at (ts i : Z) (d : db) : db :=
  mk_db ((λ p, if decide (persona.id p = i)
               then persona.with_deleted_at (Some ts) p else p) <$> personas d)
        (personas_seq d) (posts d) (posts_seq d) (comments d) (comments_seq d).

(** [DELETE /api/personas/:id] *)
Definition delete_persona (id : option Z) (now : clock) (d : db)
  : result unit * db :=
  match id with
  | None => (Err 400 "BAD_ID", d)
  | Some i =>
    match persona_by_id d i with
    | None => (Err 404 "NOT_FOUND", d)
    | Some p =>
      if decide (is_Some (persona.deleted_at p)) then (Ok (), d)
      else (Ok (), update_persona_deleted_at (nowIso now) i d)
    end
  end.

(** [GET /api/posts] *)
Definition list_posts (sort : option string) (d : db) : list post_row :=
  let rows :=
    (λ p, PostRow (annotate d (post.persona_id p) p) (count_replies d (post.id p)))
      <$> filter (λ p, post.deleted_at p = None) (posts d) in
  if decide (default "new" sort = "hot")
  then Js.sort by_hot rows
  else Js.sort by_new rows.

(** [GET /api/posts/:id] *)
Definition get_post (id : option Z) (d : db) : result detail :=
  match id with
  | None => Err 400 "BAD_ID"
  | Some i =>
    match post_by_id d i with
    | None => Err 404 "NOT_FOUND"
    | Some p =>
      if decide (is_Some (post.deleted_at p)) then Err 404 "NOT_FOUND"
      else
        let comments :=
          Js.sort by_created_at_id
            ((λ c, annotate d (comment.persona_id c) c)
               <$> filter (λ c, comment.post_id c = i ∧ comment.deleted_at c = None)
                          (comments d)) in
        Ok (annotate d (post.persona_id p) p, comments)
    end
  end.

(** [POST /api/posts] *)
Definition create_post (r : post_req.t) (now : clock) (d : db)
  : result Z * db :=
  let personaName := Js.field (post_req.persona_name r) in
  let content := Js.field (post_req.content r) in
  let imageUrl := Js.field (post_req.image_url r) in
  if decide (personaName = "") then (Err 400 "PERSONA_REQUIRED", d)
  else if decide (content = "") then (Err 400 "CONTENT_REQUIRED", d)
  else if bool_decide (imageUrl ≠ "") && negb (isProbablyHttpUrl url_protocol imageUrl)
  then (Err 400 "IMAGE_URL_INVALID", d)
  else
    match persona_by_name d personaName with
    | None => (Err 400 "PERSONA_NOT_FOUND", d)
    | Some per =>
      if decide (is_Some (persona.deleted_at per))
      then (Err 400 "PERSONA_NOT_FOUND", d)
      else
        let id := autoincrement (posts_seq d) (post.id <$> posts d) in
        let p := post.mk id (Some (persona.id per)) content
                         (Js.or_null imageUrl) (nowIso now) None in
        (Ok id,
         mk_db (personas d) (personas_seq d) (posts d ++ [p]) id
               (comments d) (comments_seq d))
    end.

(** [UPDATE posts SET deleted_at=? WHERE id=?] *)
Definition update_post_deleted_at (ts i : Z) (d : db) : db :=
  mk_db (personas d) (personas_seq d)
        ((λ p, if decide (post.id p = i)
               then post.with_deleted_at (Some ts) p else p) <$> posts d)
        (posts_seq d) (comments d) (comments_seq d).

(** [UPDATE comments SET deleted_at=? WHERE post_id=?] *)
Definition update_comments_deleted_at (ts i : Z) (d : db) : db :=
  mk_db (personas d) (personas_seq d) (posts d) (posts_seq d)
        ((λ c, if decide (comment.post_id c = i)
               then comment.with_deleted_at (Some ts) c else c) <$> comments d)
        (comments_seq d).

(** [db.transaction(f)()]: the statements of [f] run one after the other and
    commit together; the states another reader can see are the ones listed,
    which is the committed one alone. *)
Definition transaction (f : list (db → db)) (d : db) : list db :=
  [foldl (λ d' stmt, stmt d') d f].

(** [DELETE /api/posts/:id]: the response and the states the handler makes
    visible, in order. *)
Definition delete_post_states (id : option Z) (now : clock) (d : db)
  : result unit * list db :=
  match id with
  | None => (Err 400 "BAD_ID", [])
  | Some i =>
    match post_by_id d i with
    | None => (Err 404 "NOT_FOUND", [])
    | Some p =>
      if decide (is_Some (post.deleted_at p)) then (Ok (), [])
      else
        let ts := nowIso now in
        (Ok (), transaction [update_post_deleted_at ts i;
                             update_comments_deleted_at ts i] d)
    end
  end.

Definition delete_post (id : option Z) (now : clock) (d : db)
  : result unit * db :=
  let '(r, states) := delete_post_states id now d in
  (r, List.last states d).

(** [POST /api/comments] *)
Definition create_comment (r : comment_req.t) (now : clock) (d : db)
  : result Z * db :=
  let personaName := Js.field (comment_req.persona_name r) in
  let content := Js.field (comment_req.content r) in
  match comment_req.post_id r with
  | None => (Err 400 "POST_ID_REQUIRED", d)
  | Some postId =>
    if decide (personaName = "") then (Err 400 "PERSONA_REQUIRED", d)
    else if decide (content = "") then (Err 400 "CONTENT_REQUIRED", d)
    else if decide (comment_req.reply_to_comment_id r = Some None)
    then (Err 400 "BAD_REPLY_TO", d)
    else
      let replyToCommentId := mjoin (comment_req.reply_to_comment_id r) in
      match post_by_id d postId with
      | None => (Err 404 "POST_NOT_FOUND", d)
      | Some p =>
        if decide (is_Some (post.deleted_at p)) then (Err 404 "POST_NOT_FOUND", d)
        else
          match persona_by_name d personaName with
          | None => (Err 400 "PERSONA_NOT_FOUND", d)
          | Some per =>
            if decide (is_Some (persona.deleted_at per))
            then (Err 400 "PERSONA_NOT_FOUND", d)
            else
              let reply_ok :=
                match replyToCommentId with
                | None => true
                | Some rid =>
                  match comment_by_id d rid with
                  | None => false
                  | Some parent =>
                    bool_decide (comment.deleted_at parent = None) &&
                    bool_decide (comment.post_id parent = postId)
                  end
                end in
              if negb reply_ok then (Err 400 "REPLY_TARGET_INVALID", d)
              else
                let id := autoincrement (comments_seq d)
                                        (comment.id <$> comments d) in
                let c := comment.mk id postId (Some (persona.id per)) content
                                    replyToCommentId (nowIso now) None in
                (Ok id,
                 mk_db (personas d) (personas_seq d) (posts d) (posts_seq d)
                       (comments d ++ [c]) id)
          end
      end
  end.

(** One request, served to the end. *)
Definition handle (rq : request) (now : clock) (d : db) : response * db :=
  match rq with
  | CreatePersona r => let '(a, d') := create_persona r d in (Created a, d')
  | DeletePersona id => let '(a, d') := delete_persona id now d in (Done a, d')
  | ListPosts sort => (Posts (list_posts sort d), d)
  | GetPost id => (Detail (get_post id d), d)
  | CreatePost r => let '(a, d') := create_post r now d in (Created a, d')
  | DeletePost id => let '(a, d') := delete_post id now d in (Done a, d')
  | CreateComment r => let '(a, d') := create_comment r now d in (Created a, d')
  end.

(** A run: the requests with their clock readings, from a given state. *)
Fixpoint run (rqs : list (request * clock)) (d : db) : list response * db :=
  match rqs with
  | [] => ([], d)
  | (rq, now) :: rqs' =>
    let '(a, d') := handle rq now d in
    let '(l, d'') := run rqs' d' in
    (a :: l, d'')
  end.

End handlers.

(** The states the server can be in. *)
Inductive reachable (url_protocol : string → option string) : db → Prop :=
  | reachable_empty : reachable url_protocol empty
  | reachable_step rq now d :
      reachable url_protocol d →
      reachable url_protocol (handle url_protocol rq now d).2.

(** [PRIMARY KEY]: no two rows of a table share an id. *)
Definition inv (d : db) : Prop :=
  NoDup (persona.id <$> personas d) ∧
  NoDup (post.id <$> posts d) ∧
  NoDup (comment.id <$> comments d).

(** [GET /api/personas]:
    [ORDER BY (deleted_at IS NOT NULL), name COLLATE NOCASE ASC].  [NOCASE]
    compares the texts byte by byte after folding the ASCII letters. *)
Definition personas_order : relation persona.t :=
  λ a b,
    (persona.deleted_at a = None ∧ persona.deleted_at b ≠ None) ∨
    ((persona.deleted_at a = None ↔ persona.deleted_at b = None) ∧
     String.le (Js.toLowerCase (persona.name a))
               (Js.toLowerCase (persona.name b))).

Global Instance personas_order_dec : RelDecision personas_order :=
  λ a b, decide
    ((persona.deleted_at a = None ∧ persona.deleted_at b ≠ None) ∨
     ((persona.deleted_at a = None ↔ persona.deleted_at b = None) ∧
      String.le (Js.toLowerCase (persona.name a))
                (Js.toLowerCase (persona.name b)))).

Definition list_personas (d : db) : list persona.t :=
  Js.sort personas_order (personas d).

End Sql.

(** ** The key-value variant *)

Module Kv.

(** What the handlers store: persona, post and comment objects, and the
    persona id kept under a [persona_name:] key. *)
Inductive value :=
  | VPersona (p : persona.t)
  | VId (n : Z)
  | VPost (p : post.t)
  | VComment (c : comment.t).

Abbreviation store := (gmap string value).

(** Modelled from the spec: the persistence collaborator of this variant
    (the [@replit/database] client, which is not part of the sources), as
    the handlers use it: [db.get] by key (null for a key that is not there),
    [db.set] (upsert by key), [db.delete] by key, and [db.list], the scan of
    the keys under a prefix, taken to return them in ascending byte
    order. *)
Definition db_get (k : string) (s : store) : option value := s !! k.
Definition db_set (k : string) (v : value) (s : store) : store := <[k := v]> s.
Definition db_delete (k : string) (s : store) : store := delete k s.
Definition db_list (prefix : string) (s : store) : list string :=
  filter (λ k, String.prefix prefix k = true)
         (merge_sort String.le (map_to_list s).*1).

(** A number inside a key: ["persona:" + id], [`comment_post:${postId}:`]. *)
Definition num (n : option Z) : string :=
  match n with Some z => pretty z | None => "NaN" end.

Definition persona_key (id : Z) : string := "persona:" +:+ pretty id.
Definition name_key (name : string) : string :=
  "persona_name:" +:+ Js.toLowerCase name.
Definition post_key (id : Z) : string := "post:" +:+ pretty id.
Definition comment_prefix (postId : Z) : string :=
  "comment_post:" +:+ pretty postId +:+ ":".
Definition comment_key (postId id : Z) : string :=
  comment_prefix postId +:+ pretty id.

(** Reading a stored object at the type the handler uses it at. *)
Definition as_persona (v : value) : option persona.t :=
  match v with VPersona p => Some p | _ => None end.
Definition as_id (v : value) : option Z :=
  match v with VId n => Some n | _ => None end.
Definition as_post (v : value) : option post.t :=
  match v with VPost p => Some p | _ => None end.
Definition as_comment (v : value) : option comment.t :=
  match v with VComment c => Some c | _ => None end.

Definition get_persona (k : string) (s : store) : option persona.t :=
  db_get k s ≫= as_persona.
Definition get_id (k : string) (s : store) : option Z :=
  db_get k s ≫= as_id.
Definition get_post_at (k : string) (s : store) : option post.t :=
  db_get k s ≫= as_post.
Definition get_comment (k : string) (s : store) : option comment.t :=
  db_get k s ≫= as_comment.

(** [getPersona]: the closure of the two reads, with its guard on the id. *)
Definition getPersona (id : option Z) (s : store) : option persona.t :=
  if negb (Js.truthy_num id) then None
  else get_persona ("persona:" +:+ num id) s.

(** The three display fields written onto a post or comment. *)
Definition annotate {A : Type} (persona : option persona.t) (x : A)
  : annotated A :=
  {| entity := x;
     (* persona?.name || "已删除人设" *)
     persona_name :=
       match persona with
       | Some p => if decide (persona.name p = "") then DELETED_PERSONA
                   else persona.name p
       | None => DELETED_PERSONA
       end;
     (* persona?.deleted_at ? null : persona?.avatar_url *)
     persona_avatar_url :=
       match persona with
       | Some p => match persona.deleted_at p with
                   | Some _ => Js.null
                   | None => Js.of_nullable (persona.avatar_url p)
                   end
       | None => Js.undefined
       end;
     (* !persona || !!persona.deleted_at *)
     persona_deleted :=
       match persona with
       | Some p => bool_decide (is_Some (persona.deleted_at p))
       | None => true
       end |}.

Section handlers.
Context (url_protocol : string → option string).

(** [POST /api/personas] *)
Definition create_persona (r : persona_req.t) (now : clock) (s : store)
  : result Z * store :=
  let name := Js.field (persona_req.name r) in
  if decide (name = "") then (Err 400 "NAME_REQUIRED", s)
  else if decide (name = RESERVED_NAME) then (Err 400 "NAME_RESERVED", s)
  else
    let existing := get_id (name_key name) s in
    if Js.truthy_num existing then (Err 409 "NAME_EXISTS", s)
    else
      let id := Date_now now in
      let persona :=
        persona.mk id name
          (Js.or_null (Js.field (persona_req.avatar_url r)))
          (Js.or_null (Js.field (persona_req.bio r)))
          (Js.or_null (Js.field (persona_req.creator r)))
          None in
      if match persona.avatar_url persona with
         | Some u => negb (isProbablyHttpUrl url_protocol u)
         | None => false
         end
      then (Err 400 "AVATAR_URL_INVALID", s)
      else
        (Ok id,
         db_set (name_key name) (VId id) (db_set (persona_key id) (VPersona persona) s)).

(** [DELETE /api/personas/:id] *)
Definition delete_persona (id : option Z) (now : clock) (s : store)
  : result unit * store :=
  let key := "persona:" +:+ num id in
  match get_persona key s with
  | None => (Err 404 "NOT_FOUND", s)
  | Some persona =>
    let persona := persona.with_deleted_at (Some (nowIso now)) persona in
    (Ok (),
     db_delete (name_key (persona.name persona)) (db_set key (VPersona persona) s))
  end.

(** [GET /api/posts] *)
Definition list_posts (sort : option string) (s : store) : list post_row :=
  let postKeys := db_list "post:" s in
  let posts :=
    filter (λ p, post.deleted_at p = None)
           (omap (λ k, get_post_at k s) postKeys) in
  let rows :=
    (λ p, PostRow (annotate (getPersona (post.persona_id p) s) p)
                  (length (db_list (comment_prefix (post.id p)) s))) <$> posts in
  if decide (default "new" sort = "hot")
  then Js.sort by_hot rows
  else Js.sort by_new rows.

(** [GET /api/posts/:id] *)
Definition get_post (id : option Z) (s : store) : result detail :=
  match get_post_at ("post:" +:+ num id) s with
  | None => Err 404 "NOT_FOUND"
  | Some post =>
    if decide (is_Some (post.deleted_at post)) then Err 404 "NOT_FOUND"
    else
      let persona :=
        get_persona
          ("persona:" +:+ from_option pretty "null" (post.persona_id post)) s in
      let commentKeys := db_list ("comment_post:" +:+ num id +:+ ":") s in
      let comments :=
        filter (λ c, comment.deleted_at c = None)
               (omap (λ k, get_comment k s) commentKeys) in
      let comments :=
        (λ c, annotate (getPersona (comment.persona_id c) s) c) <$> comments in
      Ok (annotate persona post, Js.sort by_created_at comments)
  end.

(** [POST /api/posts] *)
Definition create_post (r : post_req.t) (now : clock) (s : store)
  : result Z * store :=
  let personaName := Js.field (post_req.persona_name r) in
  let content := Js.field (post_req.content r) in
  let imageUrl := Js.field (post_req.image_url r) in
  if bool_decide (personaName = "") || bool_decide (content = "")
  then (Err 400 "MISSING_FIELDS", s)
  else if bool_decide (imageUrl ≠ "") && negb (isProbablyHttpUrl url_protocol imageUrl)
  then (Err 400 "IMAGE_URL_INVALID", s)
  else
    let personaId := get_id (name_key personaName) s in
    if negb (Js.truthy_num personaId) then (Err 400 "PERSONA_NOT_FOUND", s)
    else
      let id := Date_now now in
      let post := post.mk id personaId content (Js.or_null imageUrl)
                          (nowIso now) None in
      (Ok id, db_set (post_key id) (VPost post) s).

(** [for (const k of commentKeys) await db.delete(k)]: the store after
    each deletion. *)
Fixpoint delete_each (ks : list string) (s : store) : list store :=
  match ks with
  | [] => []
  | k :: ks' => let s' := db_delete k s in s' :: delete_each ks' s'
  end.

(** [DELETE /api/posts/:id]: the response and the stores the handler
    leaves behind, one for every awaited write. *)
Definition delete_post_states (id : option Z) (now : clock) (s : store)
  : result unit * list store :=
  let key := "post:" +:+ num id in
  match get_post_at key s with
  | None => (Err 404 "NOT_FOUND", [])
  | Some post =>
    let post := post.with_deleted_at (Some (nowIso now)) post in
    let s1 := db_set key (VPost post) s in
    let commentKeys := db_list ("comment_post:" +:+ num id +:+ ":") s1 in
    (Ok (), s1 :: delete_each commentKeys s1)
  end.

Definition delete_post (id : option Z) (now : clock) (s : store)
  : result unit * store :=
  let '(r, states) := delete_post_states id now s in
  (r, List.last states s).

(** [POST /api/comments] *)
Definition create_comment (r : comment_req.t) (now : clock) (s : store)
  : result Z * store :=
  let personaName := Js.field (comment_req.persona_name r) in
  let content := Js.field (comment_req.content r) in
  (* a NaN is stored as null *)
  let replyToCommentId := mjoin (comment_req.reply_to_comment_id r) in
  match comment_req.post_id r with
  | None => (Err 400 "MISSING_FIELDS", s)               (* !NaN *)
  | Some postId =>
    if bool_decide (postId = 0) || bool_decide (personaName = "")
       || bool_decide (content = "")
    then (Err 400 "MISSING_FIELDS", s)
    else
      match get_post_at (post_key postId) s with
      | None => (Err 404 "POST_NOT_FOUND", s)
      | Some post =>
        if decide (is_Some (post.deleted_at post))
        then (Err 404 "POST_NOT_FOUND", s)
        else
          let personaId := get_id (name_key personaName) s in
          if negb (Js.truthy_num personaId) then (Err 400 "PERSONA_NOT_FOUND", s)
          else
            let id := Date_now now in
            let comment :=
              comment.mk id postId personaId content replyToCommentId
                         (nowIso now) None in
            (Ok id, db_set (comment_key postId id) (VComment comment) s)
      end
  end.

(** One request, served to the end. *)
Definition handle (rq : request) (now : clock) (s : store) : response * store :=
  match rq with
  | CreatePersona r => let '(a, s') := create_persona r now s in (Created a, s')
  | DeletePersona id => let '(a, s') := delete_persona id now s in (Done a, s')
  | ListPosts sort => (Posts (list_posts sort s), s)
  | GetPost id => (Detail (get_post id s), s)
  | CreatePost r => let '(a, s') := create_post r now s in (Created a, s')
  | DeletePost id => let '(a, s') := delete_post id now s in (Done a, s')
  | CreateComment r => let '(a, s') := create_comment r now s in (Created a, s')
  end.

(** A run: the requests with their clock readings, from a given store. *)
Fixpoint run (rqs : list (request * clock)) (s : store) : list response * store :=
  match rqs with
  | [] => ([], s)
  | (rq, now) :: rqs' =>
    let '(a, s') := handle rq now s in
    let '(l, s'') := run rqs' s' in
    (a :: l, s'')
  end.

End handlers.

(** The stores the server can be in. *)
Inductive reachable (url_protocol : string → option string) : store → Prop :=
  | reachable_empty : reachable url_protocol ∅
  | reachable_step rq now s :
      reachable url_protocol s →
      reachable url_protocol (handle url_protocol rq now s).2.

(** The posts and comments a store holds. *)
Definition posts (s : store) : list post.t :=
  omap (λ kv, as_post kv.2) (map_to_list s).

Definition comments (s : store) : list comment.t :=
  omap (λ kv, as_comment kv.2) (map_to_list s).

(** The shape of the entries the handlers write: every object sits under the
    key made of its own ids, personas have a name, posts and comments carry
    the (truthy) id of a persona, comments are never marked deleted. *)
Definition wf_entry (k : string) (v : value) : Prop :=
  match v with
  | VPersona p => k = persona_key (persona.id p) ∧ persona.name p ≠ ""
  | VId n => String.prefix "persona_name:" k = true
  | VPost p =>
      k = post_key (post.id p) ∧ Js.truthy_num (post.persona_id p) = true
  | VComment c =>
      k = comment_key (comment.post_id c) (comment.id c) ∧
      comment.deleted_at c = None ∧
      Js.truthy_num (comment.persona_id c) = true
  end.

(** The personas a store holds. *)
Definition personas (s : store) : list persona.t :=
  omap (λ kv, as_persona kv.2) (map_to_list s).

Definition wf (s : store) : Prop := map_Forall wf_entry s.

(** [GET /api/personas].  [localeCompare a b] stands for
    [a.localeCompare(b)], a negative number, zero or a positive number by
    the collation of the host. *)
Section list_personas.
Context (localeCompare : string → string → Z).

(** The comparator handed to [sort]. *)
Definition personas_cmp (a b : persona.t) : Z :=
  let da := bool_decide (is_Some (persona.deleted_at a)) in
  let db := bool_decide (is_Some (persona.deleted_at b)) in
  if da && negb db then 1
  else if negb da && db then -1
  else localeCompare (persona.name a) (persona.name b).

Definition personas_le : relation persona.t :=
  λ a b, personas_cmp a b ≤ 0.

Global Instance personas_le_dec : RelDecision personas_le :=
  λ a b, decide (personas_cmp a b ≤ 0).

Definition list_personas (s : store) : list persona.t :=
  let keys := db_list "persona:" s in
  Js.sort personas_le (omap (λ k, get_persona k s) keys).

End list_personas.

(** What the entries of a store refer to: a [persona_name:] entry to a
    stored persona, a post to a stored persona, a comment to a stored
    persona and to a stored post that is not marked deleted. *)
Definition refs_entry (s : store) (k : string) (v : value) : Prop :=
  match v with
  | VPersona _ => True
  | VId n => is_Some (get_persona (persona_key n) s)
  | VPost p =>
      ∃ i, post.persona_id p = Some i ∧
           is_Some (get_persona (persona_key i) s)
  | VComment c =>
      (∃ i, comment.persona_id c = Some i ∧
            is_Some (get_persona (persona_key i) s)) ∧
      (∃ p, get_post_at (post_key (comment.post_id c)) s = Some p ∧
            post.deleted_at p = None)
  end.

Definition refs (s : store) : Prop := map_Forall (refs_entry s) s.

End Kv.

(** ** What the reads and writes are to satisfy *)

(** The persona a post or comment belongs to, if storage has it. *)
Definition owner_in (personas : list persona.t) (pid : option Z)
    (o : option persona.t) : Prop :=
  match o with
  | Some p => p ∈ personas ∧ pid = Some (persona.id p)
  | None => ∀ p, p ∈ personas → pid ≠ Some (persona.id p)
  end.

(** The display fields as the reads compute them: the placeholder name for a
    persona that is absent, the stored name otherwise; no avatar and the
    deleted flag for a persona that is absent or soft-deleted. *)
Definition display_ok {A : Type} (absent_avatar : Js.opt_string)
    (o : option persona.t) (a : annotated A) : Prop :=
  match o with
  | None =>
      persona_name a = DELETED_PERSONA ∧
      persona_avatar_url a = absent_avatar ∧
      persona_deleted a = true
  | Some p =>
      persona_name a = persona.name p ∧
      match persona.deleted_at p with
      | Some _ => persona_avatar_url a = Js.null ∧ persona_deleted a = true
      | None =>
          persona_avatar_url a = Js.of_nullable (persona.avatar_url p) ∧
          persona_deleted a = false
      end
  end.

Definition displays_ok {A : Type} (absent_avatar : Js.opt_string)
    (personas : list persona.t) (persona_id : A → option Z)
    (a : annotated A) : Prop :=
  ∀ o, owner_in personas (persona_id (entity a)) o →
       display_ok absent_avatar o a.





(** What a client sees of the success or failure of a request: nothing for
    a success, the status and the error code for a failure. *)
Definition outcome (a : response) : option (Z * string) :=
  match a with
  | Created (Err status code) | Done (Err status code)
  | Detail (Err status code) => Some (status, code)
  | _ => None
  end.



(** The post listing: live reply counts, the order asked for, the live
    posts and no others. *)
Definition listing_ok (sort : option string) (posts : list post.t)
    (comments : list comment.t) (rows : list post_row) : Prop :=
  (∀ r, r ∈ rows →
     reply_count r
     = length (filter (λ c, comment.post_id c = row_id r ∧
                            comment.deleted_at c = None) comments)) ∧
  (sort = Some "hot" → StronglySorted by_hot rows) ∧
  (sort ≠ Some "hot" → StronglySorted by_new rows) ∧
  (λ r, entity (row r)) <$> rows
    ≡ₚ filter (λ p, post.deleted_at p = None) posts.

(** The post detail: [NOT_FOUND] for a post that is absent or soft-deleted,
    else the live comments of the post in the given order. *)
Definition detail_ok (order : relation (annotated comment.t))
    (posts : list post.t) (comments : list comment.t) (i : Z)
    (res : result detail) : Prop :=
  ((∀ p, p ∈ posts → post.id p = i → post.deleted_at p ≠ None) →
   res = Err 404 "NOT_FOUND") ∧
  (∀ p, p ∈ posts → post.id p = i → post.deleted_at p = None →
   ∃ a cs, res = Ok (a, cs) ∧ entity a = p ∧
     StronglySorted order cs ∧
     entity <$> cs
       ≡ₚ filter (λ c, comment.post_id c = i ∧ comment.deleted_at c = None)
                 comments).

(** A stored URL field: null, or a text that passes [isProbablyHttpUrl]. *)
Definition url_ok (url_protocol : string → option string)
    (u : option string) : Prop :=
  match u with
  | Some x => isProbablyHttpUrl url_protocol x = true
  | None => True
  end.

Definition kv_url_entry (url_protocol : string → option string)
    (k : string) (v : Kv.value) : Prop :=
  match v with
  | Kv.VPersona p => url_ok url_protocol (persona.avatar_url p)
  | Kv.VPost p => url_ok url_protocol (post.image_url p)
  | _ => True
  end.

(** The ids of a table: increasing in row order, positive, and not above
    the counter of the table. *)
Definition ids_ok (seq : Z) (ids : list Z) : Prop :=
  0 ≤ seq ∧ StronglySorted Z.lt ids ∧ Forall (λ i, 0 < i ≤ seq) ids.

(** The references between the rows of the SQLite tables: the persona of a
    post or comment, the post of a comment (live when the comment is), and
    the comment a reply answers: an earlier comment of the same post, live
    when the reply is. *)
Definition sql_refs (d : Sql.db) : Prop :=
  (∀ p, p ∈ Sql.posts d →
     ∃ per, per ∈ Sql.personas d ∧ post.persona_id p = Some (persona.id per)) ∧
  (∀ c, c ∈ Sql.comments d →
     (∃ per, per ∈ Sql.personas d ∧
             comment.persona_id c = Some (persona.id per)) ∧
     (∃ p, p ∈ Sql.posts d ∧ post.id p = comment.post_id c ∧
           (comment.deleted_at c = None → post.deleted_at p = None)) ∧
     (∀ rid, comment.reply_to_comment_id c = Some rid →
        ∃ parent, parent ∈ Sql.comments d ∧ comment.id parent = rid ∧
          comment.post_id parent = comment.post_id c ∧
          rid < comment.id c ∧
          (comment.deleted_at c = None → comment.deleted_at parent = None))).

(** The references between the objects of the key-value store: the persona
    of a post or comment, and the post of a comment, which is live. *)
Definition kv_refs (s : gmap string Kv.value) : Prop :=
  (∀ p, p ∈ Kv.posts s →
     ∃ per, per ∈ Kv.personas s ∧ post.persona_id p = Some (persona.id per)) ∧
  (∀ c, c ∈ Kv.comments s →
     (∃ per, per ∈ Kv.personas s ∧
             comment.persona_id c = Some (persona.id per)) ∧
     (∃ p, p ∈ Kv.posts s ∧ post.id p = comment.post_id c ∧
           post.deleted_at p = None)).

(** A post or comment shown with the name and the deleted flag of a persona
    that storage holds. *)
Definition shows_owner {A : Type} (personas : list persona.t)
    (persona_id : A → option Z) (a : annotated A) : Prop :=
  ∃ p, p ∈ personas ∧ persona_id (entity a) = Some (persona.id p) ∧
       persona_name a = persona.name p ∧
       persona_deleted a = bool_decide (is_Some (persona.deleted_at p)).

(** A stand-in for [localeCompare], to run the persona listing on examples:
    the order of the bytes. *)
Definition byte_compare (a b : string) : Z :=
  if decide (a = b) then 0
  else if decide (String.le a b) then -1
  else 1.

(** The display of a post or comment once the persona [i] is deleted: a
    row of that persona keeps the name it showed, loses its avatar and is
    flagged; the other rows are as they were. *)
Definition flag_deleted {A : Type} (i : Z) (persona_id : A → option Z)
    (a : annotated A) : annotated A :=
  if decide (persona_id (entity a) = Some i)
  then Annotated (entity a) (persona_name a) Js.null true
  else a.

Definition flag_row (i : Z) (r : post_row) : post_row :=
  PostRow (flag_deleted i post.persona_id (row r)) (reply_count r).

Definition flag_detail (i : Z) (res : result detail) : result detail :=
  match res with
  | Ok (a, cs) =>
      Ok (flag_deleted i post.persona_id a,
          flag_deleted i comment.persona_id <$> cs)
  | Err status code => Err status code
  end.

(** What a request may do to the rows a table holds: a row stays as it is,
    or, when it is not deleted, it is marked deleted. *)
Definition persists {A : Type} (mark : A → A) (deleted_at : A → option Z)
    (l l' : list A) : Prop :=
  ∀ x, x ∈ l → x ∈ l' ∨ (deleted_at x = None ∧ mark x ∈ l').

(** A text of decimal digits, as the digits of an id inside a key are. *)
Fixpoint all_digits (s : string) : bool :=
  match s with
  | String a s' =>
      ((48 <=? N_of_ascii a) && (N_of_ascii a <=? 57))%N && all_digits s'
  | EmptyString => true
  end.

(** ** Sorting *)

Section sort_facts.
Context {A : Type} (le : relation A) `{!RelDecision le}.

Lemma insert_sorted_Permutation x l : Js.insert_sorted le x l ≡ₚ x :: l.
Proof.
  induction l as [|y l IH]; simpl; [done|].
  case_decide; [done|]. rewrite IH. apply Permutation_swap.
Qed.

Lemma sort_Permutation l : Js.sort le l ≡ₚ l.
Proof.
  induction l as [|x l IH]; simpl; [done|].
  rewrite insert_sorted_Permutation. by f_equiv.
Qed.

Lemma elem_of_sort x l : x ∈ Js.sort le l ↔ x ∈ l.
Proof. by rewrite sort_Permutation. Qed.

Lemma insert_sorted_Sorted `{!Total le} x l :
  Sorted le l → Sorted le (Js.insert_sorted le x l).
Proof.
  induction 1 as [|y l Hl IH Hy]; simpl.
  - repeat constructor.
  - case_decide as Hxy.
    + by repeat constructor.
    + constructor; [done|].
      destruct (total le x y) as [?|Hyx]; [done|].
      destruct Hy as [|z l' Hyz]; simpl.
      * by constructor.
      * case_decide; by constructor.
Qed.

Lemma sort_Sorted `{!Total le} l : Sorted le (Js.sort le l).
Proof.
  induction l; simpl; [constructor|]. by apply insert_sorted_Sorted.
Qed.

Lemma sort_StronglySorted `{!Total le, !Transitive le} l :
  StronglySorted le (Js.sort le l).
Proof. apply Sorted_StronglySorted; [done|]. apply sort_Sorted. Qed.

End sort_facts.

Global Instance by_new_total : Total by_new.
Proof. intros a b. unfold by_new. lia. Qed.
Global Instance by_new_trans : Transitive by_new.
Proof. intros a b c. unfold by_new. lia. Qed.
Global Instance by_hot_total : Total by_hot.
Proof. intros a b. unfold by_hot. lia. Qed.
Global Instance by_hot_trans : Transitive by_hot.
Proof. intros a b c. unfold by_hot. lia. Qed.
Global Instance by_created_at_total : Total by_created_at.
Proof. intros a b. unfold by_created_at. lia. Qed.
Global Instance by_created_at_trans : Transitive by_created_at.
Proof. intros a b c. unfold by_created_at. lia. Qed.
Global Instance by_created_at_id_total : Total by_created_at_id.
Proof. intros a b. unfold by_created_at_id. lia. Qed.
Global Instance by_created_at_id_trans : Transitive by_created_at_id.
Proof. intros a b c. unfold by_created_at_id. lia. Qed.
(** ** Keys of the key-value store *)

Lemma no_colon_pretty_N_go x s :
  Js.no_colon s = true → Js.no_colon (pretty_N_go x s) = true.
Proof.
  revert s. induction (N.lt_wf_0 x) as [x _ IH]; intros s Hs.
  assert (x = 0 ∨ 0 < x)%N as [->|?] by lia.
  - by rewrite pretty_N_go_0.
  - rewrite pretty_N_go_step by done. apply IH.
    { by apply N.div_lt. }
    simpl. rewrite Hs. unfold pretty_N_char. repeat case_match; reflexivity.
Qed.

Lemma no_colon_pretty_N (x : N) : Js.no_colon (pretty x) = true.
Proof.
  unfold pretty, pretty_N. case_decide; [done|].
  by apply no_colon_pretty_N_go.
Qed.

Lemma no_colon_pretty (z : Z) : Js.no_colon (pretty z) = true.
Proof.
  destruct z as [|p|p]; [done|apply (no_colon_pretty_N (Npos p))|].
  change (pretty (Z.neg p)) with (String "-" (pretty (Npos p))).
  simpl. apply no_colon_pretty_N.
Qed.

Lemma app_cons c a x : String c a +:+ x = String c (a +:+ x).
Proof. done. Qed.

Lemma prefix_cons a x b y :
  String.prefix (String a x) (String b y)
  = if decide (a = b) then String.prefix x y else false.
Proof.
  cbn [String.prefix]. by destruct (ascii_dec a b), (decide (a = b)).
Qed.

Lemma prefix_nil x : String.prefix "" x = true.
Proof. by destruct x. Qed.

Lemma prefix_app a x y : String.prefix (a +:+ x) (a +:+ y) = String.prefix x y.
Proof.
  induction a as [|c a IH]; [done|].
  rewrite !app_cons, prefix_cons. by case_decide.
Qed.

Lemma prefix_colon x y z :
  Js.no_colon x = true → Js.no_colon y = true →
  String.prefix (x +:+ ":") (y +:+ ":" +:+ z) = true → x = y.
Proof.
  revert y. induction x as [|a x IH]; intros [|b y] Hx Hy H; [done|..].
  - exfalso. rewrite app_cons in H. change ("" +:+ ":") with ":" in H.
    rewrite prefix_cons in H. case_decide; by simplify_eq/=.
  - exfalso. rewrite app_cons in H. change ("" +:+ ":" +:+ z) with (String ":" z) in H.
    rewrite prefix_cons in H. case_decide; by simplify_eq/=.
  - rewrite !app_cons, prefix_cons in H. case_decide; [|done]. subst b.
    simpl in Hx, Hy. apply andb_prop in Hx as [_ Hx]. apply andb_prop in Hy as [_ Hy].
    f_equal. by apply IH.
Qed.

Lemma app_assoc_string a b c : (a +:+ b) +:+ c = a +:+ b +:+ c.
Proof.
  induction a as [|x a IH]; [done|].
  change ((String x a +:+ b) +:+ c) with (String x ((a +:+ b) +:+ c)).
  by rewrite IH.
Qed.

Lemma comment_prefix_key p q i :
  String.prefix (Kv.comment_prefix p) (Kv.comment_key q i) = true ↔ p = q.
Proof.
  unfold Kv.comment_key, Kv.comment_prefix. rewrite app_assoc_string, prefix_app.
  split.
  - intros H. apply (inj pretty).
    rewrite app_assoc_string in H.
    eapply prefix_colon; eauto using no_colon_pretty.
  - intros ->. rewrite app_assoc_string, prefix_app.
    change (":" +:+ pretty i) with (String ":" (pretty i)).
    rewrite prefix_cons. case_decide; [apply prefix_nil|done].
Qed.

Lemma comment_key_inj p q i j :
  Kv.comment_key p i = Kv.comment_key q j → p = q ∧ i = j.
Proof.
  intros H.
  assert (p = q) as ->.
  { apply (comment_prefix_key p q j). rewrite <-H. by apply comment_prefix_key. }
  split; [done|]. unfold Kv.comment_key in H.
  by apply (inj (String.app _)), (inj pretty) in H.
Qed.

Lemma persona_key_inj i j : Kv.persona_key i = Kv.persona_key j → i = j.
Proof. unfold Kv.persona_key. by intros ?%(inj (String.app _))%(inj pretty). Qed.

Lemma post_key_inj i j : Kv.post_key i = Kv.post_key j → i = j.
Proof. unfold Kv.post_key. by intros ?%(inj (String.app _))%(inj pretty). Qed.

(** ** The store client *)

Lemma app_nil_string x : "" +:+ x = x.
Proof. done. Qed.

Lemma prefix_app_l a x : String.prefix a (a +:+ x) = true.
Proof.
  induction a as [|c a IH]; [apply prefix_nil|].
  rewrite app_cons, prefix_cons. by case_decide.
Qed.

Lemma prefix_inv a k : String.prefix a k = true → ∃ x, k = a +:+ x.
Proof.
  revert k. induction a as [|c a IH]; intros k H; [by exists k|].
  destruct k as [|b k]; [done|]. rewrite prefix_cons in H.
  case_decide; [subst b|done]. destruct (IH k H) as [x ->]. by exists x.
Qed.

(** Deciding a prefix test between keys whose first bytes are known. *)
Ltac prefix_compute :=
  repeat first
    [ rewrite app_cons | rewrite app_nil_string
    | rewrite prefix_cons; case_decide; try done
    | rewrite prefix_nil ];
  try done.

Lemma list_filter_fmap_fst {B} (P : string → Prop) `{∀ k, Decision (P k)}
    (l : list (string * B)) :
  filter P l.*1 = (filter (λ kv, P kv.1) l).*1.
Proof.
  induction l as [|[k v] l IH]; [done|]. csimpl.
  rewrite !filter_cons. simpl. case_decide; csimpl; [f_equal|]; apply IH.
Qed.

Lemma db_list_Permutation pre (s : Kv.store) :
  Kv.db_list pre s
  ≡ₚ (filter (λ kv, String.prefix pre kv.1 = true) (map_to_list s)).*1.
Proof.
  unfold Kv.db_list. rewrite merge_sort_Permutation.
  by rewrite (list_filter_fmap_fst (λ k, String.prefix pre k = true)).
Qed.

Lemma elem_of_db_list pre k (s : Kv.store) :
  k ∈ Kv.db_list pre s ↔ is_Some (s !! k) ∧ String.prefix pre k = true.
Proof.
  rewrite db_list_Permutation, list_elem_of_fmap. split.
  - intros [[k' v] [-> [? ?%elem_of_map_to_list]%list_elem_of_filter]]. eauto.
  - intros [[v ?] ?]. exists (k, v). split; [done|].
    apply list_elem_of_filter. split; [done|]. by apply elem_of_map_to_list.
Qed.

Lemma NoDup_db_list pre (s : Kv.store) : NoDup (Kv.db_list pre s).
Proof.
  unfold Kv.db_list. apply NoDup_filter. rewrite merge_sort_Permutation.
  apply NoDup_fst_map_to_list.
Qed.

Lemma omap_get_entries {B} (f : Kv.value → option B) (s : Kv.store)
    (l : list (string * Kv.value)) :
  Forall (λ kv, s !! kv.1 = Some kv.2) l →
  omap (λ k, Kv.db_get k s ≫= f) l.*1 = omap (λ kv, f kv.2) l.
Proof.
  induction 1 as [|[k v] l Hkv _ IH]; [done|]. csimpl in *.
  unfold Kv.db_get at 1. rewrite Hkv. csimpl. destruct (f v); csimpl; [f_equal|]; apply IH.
Qed.

(** The keys a well-formed store holds, by the kind of their value. *)
Lemma wf_entry_post_prefix k v :
  Kv.wf_entry k v →
  String.prefix "post:" k = bool_decide (is_Some (Kv.as_post v)).
Proof.
  destruct v as [p|n|p|c]; intros H; cbn [Kv.wf_entry] in H.
  - destruct H as [-> _]. rewrite bool_decide_eq_false_2 by (by intros [? ?]).
    unfold Kv.persona_key. by prefix_compute.
  - apply prefix_inv in H as [x ->].
    rewrite bool_decide_eq_false_2 by (by intros [? ?]). by prefix_compute.
  - destruct H as [-> _]. rewrite bool_decide_eq_true_2 by (by eexists).
    apply (prefix_app_l "post:").
  - destruct H as [-> _]. rewrite bool_decide_eq_false_2 by (by intros [? ?]).
    unfold Kv.comment_key, Kv.comment_prefix. by prefix_compute.
Qed.

Lemma wf_entry_comment_prefix i k v :
  Kv.wf_entry k v →
  String.prefix (Kv.comment_prefix i) k
  = match Kv.as_comment v with
    | Some c => bool_decide (comment.post_id c = i)
    | None => false
    end.
Proof.
  destruct v as [p|n|p|c]; intros H; cbn [Kv.wf_entry Kv.as_comment] in *.
  - destruct H as [-> _]. unfold Kv.persona_key, Kv.comment_prefix.
    by prefix_compute.
  - apply prefix_inv in H as [x ->]. unfold Kv.comment_prefix.
    by prefix_compute.
  - destruct H as [-> _]. unfold Kv.post_key, Kv.comment_prefix.
    by prefix_compute.
  - destruct H as [-> _]. case_bool_decide as Hi.
    + by apply comment_prefix_key.
    + apply not_true_is_false. by intros ?%comment_prefix_key.
Qed.

Lemma filter_all {A} (P : A → Prop) `{∀ x, Decision (P x)} (l : list A) :
  Forall P l → filter P l = l.
Proof.
  induction 1 as [|x l ? _ IH]; [done|]. by rewrite filter_cons_True, IH.
Qed.

Lemma omap_filter_both {A B} (f : A → option B) (P : A → Prop)
    `{∀ x, Decision (P x)} (Q : B → Prop) `{∀ y, Decision (Q y)} (l : list A) :
  Forall (λ x, match f x with Some y => P x ↔ Q y | None => ¬ P x end) l →
  omap f (filter P l) = filter Q (omap f l) ∧
  length (filter P l) = length (filter Q (omap f l)).
Proof.
  induction 1 as [|x l Hx _ [IH1 IH2]]; [done|].
  rewrite filter_cons. csimpl. destruct (f x) as [y|] eqn:Hfx.
  - rewrite filter_cons. destruct (decide (P x)), (decide (Q y)); try tauto.
    all: csimpl; rewrite ?Hfx; csimpl; by rewrite ?IH1, ?IH2.
  - by destruct (decide (P x)).
Qed.

Lemma omap_filter_entries {A B} (f : A → option B) (P : A → Prop)
    `{∀ x, Decision (P x)} (Q : B → Prop) `{∀ y, Decision (Q y)} (l : list A) :
  Forall (λ x, match f x with Some y => P x ↔ Q y | None => ¬ P x end) l →
  omap f (filter P l) = filter Q (omap f l).
Proof. intros. by apply omap_filter_both. Qed.

Lemma length_filter_entries {A B} (f : A → option B) (P : A → Prop)
    `{∀ x, Decision (P x)} (Q : B → Prop) `{∀ y, Decision (Q y)} (l : list A) :
  Forall (λ x, match f x with Some y => P x ↔ Q y | None => ¬ P x end) l →
  length (filter P l) = length (filter Q (omap f l)).
Proof. intros. by apply omap_filter_both. Qed.

Section wf_store.
Context (s : Kv.store) (Hwf : Kv.wf s).

Lemma wf_entries : Forall (λ kv, Kv.wf_entry kv.1 kv.2) (map_to_list s).
Proof.
  apply map_Forall_to_list in Hwf. eapply Forall_impl; [done|]. by intros [??].
Qed.

Lemma lookup_filter_entries (P : string * Kv.value → Prop) `{∀ x, Decision (P x)} :
  Forall (λ kv, s !! kv.1 = Some kv.2) (filter P (map_to_list s)).
Proof.
  apply Forall_forall. intros [k v] [_ ?]%list_elem_of_filter.
  by apply elem_of_map_to_list.
Qed.

Lemma kv_posts_listed :
  omap (λ k, Kv.get_post_at k s) (Kv.db_list "post:" s) ≡ₚ Kv.posts s.
Proof.
  rewrite db_list_Permutation. unfold Kv.get_post_at, Kv.posts.
  rewrite omap_get_entries by apply lookup_filter_entries.
  rewrite (omap_filter_entries _ _ (λ _, True)).
  { rewrite filter_all; [done|]. by apply Forall_forall. }
  eapply Forall_impl; [apply wf_entries|]. intros [k v] Hkv; simpl in *.
  rewrite (wf_entry_post_prefix _ _ Hkv).
  destruct (Kv.as_post v); rewrite ?bool_decide_eq_true_2 by eauto; [done|].
  rewrite bool_decide_eq_false_2; [done|]. by intros [??].
Qed.

Lemma kv_comments_listed i :
  omap (λ k, Kv.get_comment k s) (Kv.db_list (Kv.comment_prefix i) s)
  ≡ₚ filter (λ c, comment.post_id c = i) (Kv.comments s).
Proof.
  rewrite db_list_Permutation. unfold Kv.get_comment, Kv.comments.
  rewrite omap_get_entries by apply lookup_filter_entries.
  rewrite (omap_filter_entries _ _ (λ c, comment.post_id c = i)); [done|].
  eapply Forall_impl; [apply wf_entries|]. intros [k v] Hkv; simpl in *.
  rewrite (wf_entry_comment_prefix i _ _ Hkv).
  destruct (Kv.as_comment v); [|done]. by rewrite bool_decide_eq_true.
Qed.

Lemma kv_comments_live c : c ∈ Kv.comments s → comment.deleted_at c = None.
Proof.
  intros ([k v] & Hkv & Hc)%list_elem_of_omap. simpl in *.
  apply elem_of_map_to_list in Hkv. specialize (Hwf k v Hkv).
  destruct v; simplify_eq/=. by destruct Hwf as (_ & ? & _).
Qed.

Lemma kv_count_listed i :
  length (Kv.db_list (Kv.comment_prefix i) s)
  = length (filter (λ c, comment.post_id c = i ∧ comment.deleted_at c = None)
                   (Kv.comments s)).
Proof.
  rewrite db_list_Permutation, length_fmap. unfold Kv.comments.
  apply length_filter_entries.
  eapply Forall_impl; [apply wf_entries|]. intros [k v] Hkv; simpl in *.
  rewrite (wf_entry_comment_prefix i _ _ Hkv).
  destruct v as [| | |c]; cbn [Kv.as_comment Kv.wf_entry snd] in *; try done.
  rewrite bool_decide_eq_true. destruct Hkv as (_ & Hlive & _). tauto.
Qed.

End wf_store.

(** ** Well-formedness of the reachable stores *)

Lemma wf_empty : Kv.wf ∅.
Proof. apply map_Forall_empty. Qed.

Lemma wf_set k v (s : Kv.store) :
  Kv.wf_entry k v → Kv.wf s → Kv.wf (Kv.db_set k v s).
Proof. intros. by apply map_Forall_insert_2. Qed.

Lemma wf_delete k (s : Kv.store) : Kv.wf s → Kv.wf (Kv.db_delete k s).
Proof. apply map_Forall_delete. Qed.

Lemma wf_get_persona k p (s : Kv.store) :
  Kv.wf s → Kv.get_persona k s = Some p →
  s !! k = Some (Kv.VPersona p) ∧ k = Kv.persona_key (persona.id p) ∧
  persona.name p ≠ "".
Proof.
  unfold Kv.get_persona, Kv.db_get. intros Hwf Hget.
  destruct (s !! k) as [[]|] eqn:Hk; simplify_eq/=. split; [done|].
  apply (Hwf _ _ Hk).
Qed.

Lemma wf_get_post k p (s : Kv.store) :
  Kv.wf s → Kv.get_post_at k s = Some p →
  s !! k = Some (Kv.VPost p) ∧ k = Kv.post_key (post.id p) ∧
  Js.truthy_num (post.persona_id p) = true.
Proof.
  unfold Kv.get_post_at, Kv.db_get. intros Hwf Hget.
  destruct (s !! k) as [[]|] eqn:Hk; simplify_eq/=. split; [done|].
  apply (Hwf _ _ Hk).
Qed.

Lemma wf_get_comment k c (s : Kv.store) :
  Kv.wf s → Kv.get_comment k s = Some c →
  s !! k = Some (Kv.VComment c) ∧
  k = Kv.comment_key (comment.post_id c) (comment.id c) ∧
  comment.deleted_at c = None ∧
  Js.truthy_num (comment.persona_id c) = true.
Proof.
  unfold Kv.get_comment, Kv.db_get. intros Hwf Hget.
  destruct (s !! k) as [[]|] eqn:Hk; simplify_eq/=. split; [done|].
  apply (Hwf _ _ Hk).
Qed.

Lemma last_delete_each ks (s1 d : Kv.store) :
  List.last (s1 :: Kv.delete_each ks s1) d
  = foldl (λ s' k, Kv.db_delete k s') s1 ks.
Proof.
  revert s1. induction ks as [|k ks IH]; intros s1; [done|].
  simpl in *. apply IH.
Qed.

Lemma wf_delete_all ks (s : Kv.store) :
  Kv.wf s → Kv.wf (foldl (λ s' k, Kv.db_delete k s') s ks).
Proof.
  revert s. induction ks as [|k ks IH]; intros s Hs; [done|].
  simpl. by apply IH, wf_delete.
Qed.

Section wf_handlers.
Context (url_protocol : string → option string).

Lemma wf_create_persona r now s :
  Kv.wf s → Kv.wf (Kv.create_persona url_protocol r now s).2.
Proof.
  intros Hwf. unfold Kv.create_persona.
  repeat (case_decide || case_match); simpl; try done.
  all: apply wf_set; [apply prefix_app_l|]; by apply wf_set.
Qed.

Lemma wf_delete_persona id now s :
  Kv.wf s → Kv.wf (Kv.delete_persona id now s).2.
Proof.
  intros Hwf. unfold Kv.delete_persona.
  destruct (Kv.get_persona _ s) as [p|] eqn:Hp; simpl; [|done].
  apply wf_get_persona in Hp as (_ & Hk & ?); [|done].
  apply wf_delete, wf_set; [|done]. by rewrite Hk.
Qed.

Lemma wf_create_post r now s :
  Kv.wf s → Kv.wf (Kv.create_post url_protocol r now s).2.
Proof.
  intros Hwf. unfold Kv.create_post.
  repeat (case_decide || case_match); simpl; try done.
  all: apply wf_set; [|done]; repeat split; try done; by apply negb_false_iff.
Qed.

Lemma delete_post_final id now s :
  Kv.delete_post id now s =
  match Kv.get_post_at ("post:" +:+ Kv.num id) s with
  | None => (Err 404 "NOT_FOUND", s)
  | Some p =>
    let s1 := Kv.db_set ("post:" +:+ Kv.num id)
                (Kv.VPost (post.with_deleted_at (Some (nowIso now)) p)) s in
    (Ok (),
     foldl (λ s' k, Kv.db_delete k s') s1
           (Kv.db_list ("comment_post:" +:+ Kv.num id +:+ ":") s1))
  end.
Proof.
  unfold Kv.delete_post, Kv.delete_post_states.
  destruct (Kv.get_post_at _ s); [|done]. cbv zeta.
  by rewrite last_delete_each.
Qed.

Lemma wf_delete_post id now s :
  Kv.wf s → Kv.wf (Kv.delete_post id now s).2.
Proof.
  intros Hwf. rewrite delete_post_final.
  destruct (Kv.get_post_at _ s) as [p|] eqn:Hp; simpl; [|done].
  apply wf_get_post in Hp as (_ & Hk & ?); [|done].
  apply wf_delete_all, wf_set; [|done]. by rewrite Hk.
Qed.

Lemma wf_create_comment r now s :
  Kv.wf s → Kv.wf (Kv.create_comment r now s).2.
Proof.
  intros Hwf. unfold Kv.create_comment.
  repeat (case_decide || case_match); simpl; try done.
  all: apply wf_set; [|done]; repeat split; try done; by apply negb_false_iff.
Qed.

Lemma wf_handle rq now s :
  Kv.wf s → Kv.wf (Kv.handle url_protocol rq now s).2.
Proof.
  intros Hwf. destruct rq; simpl; try done.
  - pose proof (wf_create_persona r now s Hwf). by destruct Kv.create_persona.
  - pose proof (wf_delete_persona id now s Hwf). by destruct Kv.delete_persona.
  - pose proof (wf_create_post r now s Hwf). by destruct Kv.create_post.
  - pose proof (wf_delete_post id now s Hwf). by destruct Kv.delete_post.
  - pose proof (wf_create_comment r now s Hwf). by destruct Kv.create_comment.
Qed.

Lemma reachable_wf s : Kv.reachable url_protocol s → Kv.wf s.
Proof. induction 1; [apply wf_empty|by apply wf_handle]. Qed.

Lemma reachable_run rqs s :
  Kv.reachable url_protocol s →
  Kv.reachable url_protocol (Kv.run url_protocol rqs s).2.
Proof.
  revert s. induction rqs as [|[rq now] rqs IH]; intros s Hs; [done|].
  simpl. pose proof (Kv.reachable_step _ rq now s Hs).
  destruct Kv.handle as [a s']. specialize (IH s').
  destruct Kv.run. by apply IH.
Qed.

End wf_handlers.

(** ** Primary keys of the SQLite tables *)

Section find_key.
Context {A : Type} (f : A → Z).

Lemma find_key_Some i l x :
  find (λ y, bool_decide (f y = i)) l = Some x → x ∈ l ∧ f x = i.
Proof.
  induction l as [|y l IH]; [done|]. simpl. case_bool_decide.
  - intros [= ->]. split; [left|done].
  - intros [??]%IH. split; [by right|done].
Qed.

Lemma find_key_None i l :
  find (λ y, bool_decide (f y = i)) l = None → ∀ x, x ∈ l → f x ≠ i.
Proof.
  induction l as [|y l IH]; simpl; [by intros _ x ?%elem_of_nil|].
  case_bool_decide; [done|]. intros Hl x [->|?]%elem_of_cons; auto.
Qed.

Lemma find_key_unique i l x :
  NoDup (f <$> l) → x ∈ l → f x = i →
  find (λ y, bool_decide (f y = i)) l = Some x.
Proof.
  induction l as [|y l IH]; csimpl; [by intros _ ?%elem_of_nil|].
  intros [Hy Hl]%NoDup_cons [->|Hx]%elem_of_cons Hi.
  - by rewrite bool_decide_eq_true_2.
  - rewrite bool_decide_eq_false_2; [by apply IH|].
    intros Hyi. apply Hy, list_elem_of_fmap. exists x. by rewrite Hi.
Qed.

End find_key.

Lemma autoincrement_fresh seq ids : Sql.autoincrement seq ids ∉ ids.
Proof.
  assert (∀ x, x ∈ ids → x ≤ foldr Z.max seq ids) as Hmax.
  { induction ids as [|y ids IH]; [by intros x ?%elem_of_nil|].
    intros x [->|Hx]%elem_of_cons; simpl; [lia|]. specialize (IH x Hx). lia. }
  intros Hin%Hmax. unfold Sql.autoincrement in Hin. lia.
Qed.

Lemma NoDup_snoc_fresh (ids : list Z) i : NoDup ids → i ∉ ids → NoDup (ids ++ [i]).
Proof.
  intros. apply NoDup_app. split_and!; [done| |apply NoDup_singleton].
  intros x ? ->%list_elem_of_singleton. done.
Qed.

Lemma fmap_update {A B} (f : A → B) (g : A → A) (l : list A) :
  (∀ x, f (g x) = f x) → f <$> (g <$> l) = f <$> l.
Proof.
  intros Hfg. rewrite <-list_fmap_compose. apply list_fmap_ext.
  intros ? x _. apply Hfg.
Qed.

Section sql_inv.
Context (url_protocol : string → option string).

Lemma inv_empty : Sql.inv Sql.empty.
Proof. repeat split; apply NoDup_nil_2. Qed.

Lemma inv_create_persona r d :
  Sql.inv d → Sql.inv (Sql.create_persona url_protocol r d).2.
Proof.
  intros (Hp & Hq & Hc). unfold Sql.create_persona.
  repeat (case_decide || case_match); simpl; try done.
  all: split_and!; simpl; [|done..]; rewrite fmap_app; simpl;
    (apply NoDup_snoc_fresh; [done|apply autoincrement_fresh]).
Qed.

Lemma inv_delete_persona id now d :
  Sql.inv d → Sql.inv (Sql.delete_persona id now d).2.
Proof.
  intros Hinv. pose proof Hinv as (Hp & Hq & Hc). unfold Sql.delete_persona.
  repeat (case_decide || case_match); cbn [snd]; try done.
  all: split_and!; simpl; [|done..];
    rewrite fmap_update; try done; intros; by case_decide.
Qed.

Lemma inv_create_post r now d :
  Sql.inv d → Sql.inv (Sql.create_post url_protocol r now d).2.
Proof.
  intros (Hp & Hq & Hc). unfold Sql.create_post.
  repeat (case_decide || case_match); simpl; try done.
  all: split_and!; simpl; [done| |done]; rewrite fmap_app; simpl;
    (apply NoDup_snoc_fresh; [done|apply autoincrement_fresh]).
Qed.

Lemma delete_post_final_sql id now d :
  Sql.delete_post id now d =
  match id with
  | None => (Err 400 "BAD_ID", d)
  | Some i =>
    match Sql.post_by_id d i with
    | None => (Err 404 "NOT_FOUND", d)
    | Some p =>
      if decide (is_Some (post.deleted_at p)) then (Ok (), d)
      else (Ok (), Sql.update_comments_deleted_at (nowIso now) i
                     (Sql.update_post_deleted_at (nowIso now) i d))
    end
  end.
Proof.
  unfold Sql.delete_post, Sql.delete_post_states.
  repeat (case_decide || case_match); by simplify_eq/=.
Qed.

Lemma inv_delete_post id now d :
  Sql.inv d → Sql.inv (Sql.delete_post id now d).2.
Proof.
  intros Hinv. pose proof Hinv as (Hp & Hq & Hc). rewrite delete_post_final_sql.
  repeat (case_decide || case_match); cbn [snd]; try done.
  all: split_and!; simpl; [done|..];
    rewrite fmap_update; try done; intros; by case_decide.
Qed.

Lemma inv_create_comment r now d :
  Sql.inv d → Sql.inv (Sql.create_comment r now d).2.
Proof.
  intros (Hp & Hq & Hc). unfold Sql.create_comment.
  repeat (case_decide || case_match); simpl; try done.
  all: split_and!; simpl; [done|done|]; rewrite fmap_app; simpl;
    (apply NoDup_snoc_fresh; [done|apply autoincrement_fresh]).
Qed.

Lemma inv_handle rq now d :
  Sql.inv d → Sql.inv (Sql.handle url_protocol rq now d).2.
Proof.
  intros Hinv. destruct rq; simpl; try done.
  - pose proof (inv_create_persona r d Hinv). by destruct Sql.create_persona.
  - pose proof (inv_delete_persona id now d Hinv). by destruct Sql.delete_persona.
  - pose proof (inv_create_post r now d Hinv). by destruct Sql.create_post.
  - pose proof (inv_delete_post id now d Hinv). by destruct Sql.delete_post.
  - pose proof (inv_create_comment r now d Hinv). by destruct Sql.create_comment.
Qed.

Lemma sql_reachable_inv d : Sql.reachable url_protocol d → Sql.inv d.
Proof. induction 1; [apply inv_empty|by apply inv_handle]. Qed.

Lemma sql_reachable_run rqs d :
  Sql.reachable url_protocol d →
  Sql.reachable url_protocol (Sql.run url_protocol rqs d).2.
Proof.
  revert d. induction rqs as [|[rq now] rqs IH]; intros d Hd; [done|].
  simpl. pose proof (Sql.reachable_step _ rq now d Hd).
  destruct Sql.handle as [a d']. specialize (IH d').
  destruct Sql.run. by apply IH.
Qed.

End sql_inv.

(** ** The post listing *)

Lemma eq_reflexive_perm {A} (l k : list A) : l = k → l ≡ₚ k.
Proof. by intros ->. Qed.

Lemma listing_ok_sorted sort posts comments (f : post.t → post_row)
    (l : list post.t) :
  (∀ p, entity (row (f p)) = p) →
  (∀ p, p ∈ l →
     reply_count (f p)
     = length (filter (λ c, comment.post_id c = post.id p ∧
                            comment.deleted_at c = None) comments)) →
  l ≡ₚ filter (λ p, post.deleted_at p = None) posts →
  listing_ok sort posts comments
    (if decide (default "new" sort = "hot")
     then Js.sort by_hot (f <$> l) else Js.sort by_new (f <$> l)).
Proof.
  intros Hent Hcount Hl. split_and!.
  - intros r Hr.
    assert (r ∈ f <$> l) as (p & -> & Hp)%list_elem_of_fmap.
    { by case_decide; apply elem_of_sort in Hr. }
    unfold row_id. rewrite Hent. by apply Hcount.
  - intros ->. rewrite decide_True by done. apply sort_StronglySorted; apply _.
  - intros Hsort. rewrite decide_False.
    + apply sort_StronglySorted; apply _.
    + destruct sort as [x|]; simpl; [congruence|done].
  - rewrite <-Hl.
    transitivity ((λ r, entity (row r)) <$> (f <$> l)).
    + by case_decide; rewrite sort_Permutation.
    + rewrite <-list_fmap_compose. rewrite <-(list_fmap_id l) at 2.
      apply eq_reflexive_perm, list_fmap_ext. intros ? p _. apply Hent.
Qed.

(** C5.  In both variants, every row of the post listing carries as
    [reply_count] the number of the post's comments whose [deleted_at] is
    null; with [sort=hot] the rows are ordered by [reply_count] descending,
    ties by [created_at] descending, otherwise by [created_at] descending;
    and the rows are the non-deleted posts, each once. *)
Theorem list_posts_counts_and_order (url_protocol : string → option string) :
  (∀ d sort,
     listing_ok sort (Sql.posts d) (Sql.comments d) (Sql.list_posts sort d)) ∧
  (∀ s sort, Kv.reachable url_protocol s →
     listing_ok sort (Kv.posts s) (Kv.comments s) (Kv.list_posts sort s)).
Proof.
  split.
  - intros d sort. unfold Sql.list_posts. by apply listing_ok_sorted.
  - intros s sort Hs%reachable_wf. unfold Kv.list_posts.
    apply listing_ok_sorted; [done|..].
    + intros p _. simpl. by apply kv_count_listed.
    + by rewrite kv_posts_listed.
Qed.

Lemma list_posts_counts_and_order_witness :
  let s := (Kv.run scheme_of
     [(CreatePersona (persona_req.mk (Some "Ann") None None None), Clock 1 1);
      (CreatePost (post_req.mk (Some "ann") (Some "first") None), Clock 2 2);
      (CreatePost (post_req.mk (Some "ann") (Some "second") None), Clock 3 3);
      (CreateComment (comment_req.mk (Some 2) (Some "ann") (Some "re") None),
       Clock 4 4)] ∅).2 in
  listing_ok (Some "hot") (Kv.posts s) (Kv.comments s)
             (Kv.list_posts (Some "hot") s) ∧
  row_id <$> Kv.list_posts (Some "hot") s = [2; 3] ∧
  reply_count <$> Kv.list_posts (Some "hot") s = [1; 0]%nat.
Proof.
  intros s. split.
  - apply (proj2 (list_posts_counts_and_order scheme_of)).
    apply reachable_run, Kv.reachable_empty.
  - vm_compute. done.
Defined.

(** ** The post detail *)

Lemma elem_of_kv_posts (s : Kv.store) p :
  Kv.wf s →
  p ∈ Kv.posts s ↔ s !! Kv.post_key (post.id p) = Some (Kv.VPost p).
Proof.
  intros Hwf. unfold Kv.posts. rewrite list_elem_of_omap. split.
  - intros ([k v] & Hkv%elem_of_map_to_list & Hv). simpl in *.
    destruct v; simplify_eq/=. by destruct (Hwf _ _ Hkv) as [<- _].
  - intros Hp. exists (Kv.post_key (post.id p), Kv.VPost p).
    split; [by apply elem_of_map_to_list|done].
Qed.

Lemma elem_of_kv_personas (s : Kv.store) p :
  Kv.wf s →
  p ∈ Kv.personas s ↔ s !! Kv.persona_key (persona.id p) = Some (Kv.VPersona p).
Proof.
  intros Hwf. unfold Kv.personas. rewrite list_elem_of_omap. split.
  - intros ([k v] & Hkv%elem_of_map_to_list & Hv). simpl in *.
    destruct v; simplify_eq/=. by destruct (Hwf _ _ Hkv) as [<- _].
  - intros Hp. exists (Kv.persona_key (persona.id p), Kv.VPersona p).
    split; [by apply elem_of_map_to_list|done].
Qed.

Lemma fmap_cancel {A B} (g : B → A) (f : A → B) (l : list A) :
  (∀ x, g (f x) = x) → g <$> (f <$> l) = l.
Proof.
  intros Hgf. induction l as [|x l IH]; [done|]. csimpl. by rewrite Hgf, IH.
Qed.

Lemma sql_detail_ok d i :
  Sql.inv d →
  detail_ok by_created_at_id (Sql.posts d) (Sql.comments d) i
            (Sql.get_post (Some i) d).
Proof.
  intros (_ & Hposts & _). unfold Sql.get_post, Sql.post_by_id. split.
  - intros Hgone. destruct (find _ _) as [p|] eqn:Hfind; [|done].
    apply find_key_Some in Hfind as [Hp Hi].
    rewrite decide_True; [done|]. specialize (Hgone p Hp Hi).
    by destruct (post.deleted_at p).
  - intros p Hp Hi Hlive.
    rewrite (find_key_unique post.id i _ p) by done.
    rewrite decide_False by (rewrite Hlive; by intros [??]).
    eexists _, _. split_and!; [done|done|apply sort_StronglySorted; apply _|].
    by rewrite sort_Permutation, fmap_cancel.
Qed.

Lemma kv_detail_ok s i :
  Kv.wf s →
  detail_ok by_created_at (Kv.posts s) (Kv.comments s) i
            (Kv.get_post (Some i) s).
Proof.
  intros Hwf. unfold Kv.get_post. cbn [Kv.num].
  change ("post:" +:+ pretty i) with (Kv.post_key i).
  change ("comment_post:" +:+ pretty i +:+ ":") with (Kv.comment_prefix i).
  split.
  - intros Hgone. destruct (Kv.get_post_at _ s) as [p|] eqn:Hget; [|done].
    apply wf_get_post in Hget as (Hk & Hi%post_key_inj & _); [|done].
    rewrite decide_True; [done|].
    assert (p ∈ Kv.posts s) as Hp by (apply elem_of_kv_posts; by rewrite <-?Hi).
    specialize (Hgone p Hp (eq_sym Hi)). by destruct (post.deleted_at p).
  - intros p Hp%elem_of_kv_posts Hi Hlive; [|done]. subst i.
    unfold Kv.get_post_at at 1, Kv.db_get. rewrite Hp. simpl.
    rewrite decide_False by (rewrite Hlive; by intros [??]).
    eexists _, _. split_and!; [done|done|apply sort_StronglySorted; apply _|].
    rewrite sort_Permutation, fmap_cancel by done.
    rewrite kv_comments_listed by done.
    rewrite list_filter_filter. apply eq_reflexive_perm, list_filter_iff.
    tauto.
Qed.




(** ** The persona display fields *)

Lemma sql_annotate_display {A} d pid (x : A) o :
  Sql.inv d → owner_in (Sql.personas d) pid o →
  display_ok Js.null o (Sql.annotate d pid x).
Proof.
  intros (Hids & _ & _) Ho. unfold Sql.annotate, display_ok.
  destruct o as [p|]; simpl in *.
  - destruct Ho as [Hp ->]. simpl. unfold Sql.persona_by_id.
    rewrite (find_key_unique persona.id _ _ p) by done. simpl.
    split; [done|]. by destruct (persona.deleted_at p).
  - assert (pid ≫= Sql.persona_by_id d = None) as ->; [|done].
    destruct pid as [i|]; [|done]. simpl. unfold Sql.persona_by_id.
    destruct (find _ _) as [p|] eqn:Hfind; [|done].
    apply find_key_Some in Hfind as [Hp <-]. by destruct (Ho p Hp).
Qed.

Lemma kv_getPersona_owner (s : Kv.store) pid o :
  Kv.wf s → Js.truthy_num pid = true → owner_in (Kv.personas s) pid o →
  Kv.getPersona pid s = o ∧
  Kv.get_persona ("persona:" +:+ from_option pretty "null" pid) s = o.
Proof.
  intros Hwf Hpid Ho. unfold Kv.getPersona. rewrite Hpid. simpl.
  destruct pid as [i|]; [|done]. cbn [Kv.num from_option].
  change ("persona:" +:+ pretty i) with (Kv.persona_key i).
  enough (Kv.get_persona (Kv.persona_key i) s = o) by done.
  destruct o as [p|]; simpl in Ho.
  - destruct Ho as [Hp%elem_of_kv_personas [= ->]]; [|done].
    unfold Kv.get_persona, Kv.db_get. by rewrite Hp.
  - destruct (Kv.get_persona _ s) as [p|] eqn:Hget; [|done].
    apply wf_get_persona in Hget as (Hk & Hi%persona_key_inj & _); [|done].
    subst i. destruct (Ho p); [|done]. by apply (elem_of_kv_personas s).
Qed.

Lemma kv_annotate_display {A} (s : Kv.store) (x : A) o :
  Kv.wf s → (∀ p, o = Some p → p ∈ Kv.personas s) →
  display_ok Js.undefined o (Kv.annotate o x).
Proof.
  intros Hwf Ho. unfold Kv.annotate, display_ok. destruct o as [p|]; [|done].
  simpl. specialize (Ho p eq_refl). apply elem_of_kv_personas in Ho; [|done].
  destruct (Hwf _ _ Ho) as [_ Hname]. rewrite decide_False by done.
  split; [done|]. by destruct (persona.deleted_at p).
Qed.

Lemma kv_displays_ok {A} (s : Kv.store) (pid_of : A → option Z) (x : A) per :
  Kv.wf s → Js.truthy_num (pid_of x) = true →
  (per = Kv.getPersona (pid_of x) s ∨
   per = Kv.get_persona
           ("persona:" +:+ from_option pretty "null" (pid_of x)) s) →
  displays_ok Js.undefined (Kv.personas s) pid_of (Kv.annotate per x).
Proof.
  intros Hwf Hpid Hper o Ho. simpl in Ho.
  destruct (kv_getPersona_owner s _ o Hwf Hpid Ho) as [H1 H2].
  assert (per = o) as -> by (destruct Hper; congruence).
  apply (kv_annotate_display s); [done|]. intros p ->. apply Ho.
Qed.

(** C1, as amended.  In both variants, in every state in which ids are
    unique ([Sql.inv]) resp. entries have the shape the handlers write
    ([Kv.wf]), as in every reachable state, for every post and comment
    returned by the listing or the detail read: when the owning persona is
    absent from storage, [persona_name] is the placeholder,
    [persona_deleted] is true and [persona_avatar_url] is null (SQLite) or
    undefined (key-value); when the owning persona is soft-deleted,
    [persona_name] is still the persona's stored name, [persona_avatar_url]
    is null and [persona_deleted] is true. *)
Theorem persona_display :
  (∀ d, Sql.inv d →
     (∀ sort r, r ∈ Sql.list_posts sort d →
        displays_ok Js.null (Sql.personas d) post.persona_id (row r)) ∧
     (∀ i a cs, Sql.get_post i d = Ok (a, cs) →
        displays_ok Js.null (Sql.personas d) post.persona_id a ∧
        ∀ c, c ∈ cs →
          displays_ok Js.null (Sql.personas d) comment.persona_id c)) ∧
  (∀ s, Kv.wf s →
     (∀ sort r, r ∈ Kv.list_posts sort s →
        displays_ok Js.undefined (Kv.personas s) post.persona_id (row r)) ∧
     (∀ i a cs, Kv.get_post i s = Ok (a, cs) →
        displays_ok Js.undefined (Kv.personas s) post.persona_id a ∧
        ∀ c, c ∈ cs →
          displays_ok Js.undefined (Kv.personas s) comment.persona_id c)).
Proof.
  split.
  - intros d Hinv. split.
    + intros sort r Hr o Ho. unfold Sql.list_posts in Hr.
      assert (∃ p, r = PostRow (Sql.annotate d (post.persona_id p) p)
                             (Sql.count_replies d (post.id p)))
        as [p ->].
      { case_decide; apply elem_of_sort, list_elem_of_fmap in Hr
          as (p & -> & _); eauto. }
      by apply sql_annotate_display.
    + intros i a cs Hget. unfold Sql.get_post in Hget.
      repeat (case_decide || case_match); simplify_eq/=. split.
      * intros o Ho. by apply sql_annotate_display.
      * intros c (c' & -> & _)%elem_of_sort%list_elem_of_fmap o Ho.
        by apply sql_annotate_display.
  - intros s Hwf. split.
    + intros sort r Hr. unfold Kv.list_posts in Hr.
      assert (∃ p k, Kv.get_post_at k s = Some p ∧
                r = PostRow (Kv.annotate (Kv.getPersona (post.persona_id p) s) p)
                      (length (Kv.db_list (Kv.comment_prefix (post.id p)) s)))
        as (p & k & Hp & ->).
      { case_decide; apply elem_of_sort, list_elem_of_fmap in Hr
          as (p & -> & [_ (k & _ & Hk)%list_elem_of_omap]%list_elem_of_filter);
          eauto. }
      apply wf_get_post in Hp as (_ & _ & Htruthy); [|done].
      apply (kv_displays_ok s post.persona_id); auto.
    + intros i a cs Hget. unfold Kv.get_post in Hget.
      destruct (Kv.get_post_at _ s) as [p|] eqn:Hp; [|done].
      case_decide; [done|]. simplify_eq/=.
      apply wf_get_post in Hp as (_ & _ & Htruthy); [|done]. split.
      * apply (kv_displays_ok s post.persona_id); auto.
      * intros c (c' & -> & [_ (k & _ & Hk)%list_elem_of_omap]%list_elem_of_filter)
          %elem_of_sort%list_elem_of_fmap.
        apply wf_get_comment in Hk as (_ & _ & _ & Htruthy'); [|done].
        apply (kv_displays_ok s comment.persona_id); auto.
Qed.

(** A soft-deleted owner, reached by requests, and an owner that storage
    does not have. *)
Lemma persona_display_witness :
  let rqs :=
    [(CreatePersona (persona_req.mk (Some "Alice") None None None), Clock 1 1);
     (CreatePost (post_req.mk (Some "Alice") (Some "hi") None), Clock 2 2);
     (DeletePersona (Some 1), Clock 4 4)] in
  let d := (Sql.run scheme_of rqs Sql.empty).2 in
  let s := (Kv.run scheme_of rqs ∅).2 in
  let orphan := post.mk 1 (Some 7) "hi" None 2 None in
  let d0 := Sql.mk_db [] 0 [orphan] 1 [] 0 in
  let s0 : gmap string Kv.value := {[ Kv.post_key 1 := Kv.VPost orphan ]} in
  (∀ r, r ∈ Sql.list_posts None d →
     displays_ok Js.null (Sql.personas d) post.persona_id (row r)) ∧
  (∀ r, r ∈ Kv.list_posts None s →
     displays_ok Js.undefined (Kv.personas s) post.persona_id (row r)) ∧
  (∀ r, r ∈ Sql.list_posts None d0 →
     displays_ok Js.null (Sql.personas d0) post.persona_id (row r)) ∧
  (∀ r, r ∈ Kv.list_posts None s0 →
     displays_ok Js.undefined (Kv.personas s0) post.persona_id (row r)).
Proof.
  intros rqs d s orphan d0 s0.
  assert (Sql.inv d) as Hd
    by apply (sql_reachable_inv scheme_of), sql_reachable_run, Sql.reachable_empty.
  assert (Kv.wf s) as Hs
    by apply (reachable_wf scheme_of), reachable_run, Kv.reachable_empty.
  assert (Sql.inv d0) as Hd0.
  { repeat split; [apply NoDup_nil_2|apply NoDup_singleton|apply NoDup_nil_2]. }
  assert (Kv.wf s0) as Hs0.
  { apply map_Forall_singleton. by split. }
  split; [|split; [|split]]; intros r Hr.
  - apply (proj1 (proj1 persona_display d Hd) None r Hr).
  - apply (proj1 (proj2 persona_display s Hs) None r Hr).
  - apply (proj1 (proj1 persona_display d0 Hd0) None r Hr).
  - apply (proj1 (proj2 persona_display s0 Hs0) None r Hr).
Defined.

(** C1 as stated fails in both variants: after the persona of a post is
    soft-deleted, the listing still shows the persona's own name. *)
Lemma deleted_persona_name_counterexample :
  let rqs :=
    [(CreatePersona (persona_req.mk (Some "Alice") None None None), Clock 1 1);
     (CreatePost (post_req.mk (Some "Alice") (Some "hi") None), Clock 2 2);
     (DeletePersona (Some 1), Clock 4 4)] in
  let d := (Sql.run scheme_of rqs Sql.empty).2 in
  let s := (Kv.run scheme_of rqs ∅).2 in
  (∃ r p, Sql.list_posts None d = [r] ∧ p ∈ Sql.personas d ∧
     post.persona_id (entity (row r)) = Some (persona.id p) ∧
     persona.deleted_at p = Some 4 ∧
     persona_name (row r) = "Alice" ∧ persona_name (row r) ≠ DELETED_PERSONA) ∧
  (∃ r p, Kv.list_posts None s = [r] ∧ p ∈ Kv.personas s ∧
     post.persona_id (entity (row r)) = Some (persona.id p) ∧
     persona.deleted_at p = Some 4 ∧
     persona_name (row r) = "Alice" ∧ persona_name (row r) ≠ DELETED_PERSONA).
Proof.
  intros rqs d s. split.
  - eexists _, (persona.mk 1 "Alice" None None None (Some 4)).
    split_and!; [vm_compute; reflexivity|vm_compute; left|done..].
  - eexists _, (persona.mk 1 "Alice" None None None (Some 4)).
    split_and!; [vm_compute; reflexivity|vm_compute; left|done..].
Qed.

(** ** Deleting a post *)


Lemma elem_of_kv_comments (s : Kv.store) c :
  Kv.wf s →
  c ∈ Kv.comments s ↔
  s !! Kv.comment_key (comment.post_id c) (comment.id c) = Some (Kv.VComment c).
Proof.
  intros Hwf. unfold Kv.comments. rewrite list_elem_of_omap. split.
  - intros ([k v] & Hkv%elem_of_map_to_list & Hv). simpl in *.
    destruct v; simplify_eq/=. by destruct (Hwf _ _ Hkv) as [<- _].
  - intros Hp. eexists (_, Kv.VComment c).
    split; [by apply elem_of_map_to_list|done].
Qed.

Lemma lookup_delete_all ks (s : Kv.store) k :
  foldl (λ s' k', Kv.db_delete k' s') s ks !! k
  = if decide (k ∈ ks) then None else s !! k.
Proof.
  revert s. induction ks as [|k' ks IH]; intros s; cbn [foldl].
  - rewrite decide_False; [done|apply not_elem_of_nil].
  - rewrite IH. unfold Kv.db_delete.
    destruct (decide (k = k')) as [->|Hne].
    + rewrite lookup_delete_eq, (decide_True (P:=k' ∈ k' :: ks)) by left.
      by case_decide.
    + rewrite lookup_delete_ne by done.
      destruct (decide (k ∈ ks)), (decide (k ∈ k' :: ks)) as [[?|?]%elem_of_cons|Hn];
        try done. destruct Hn. by right.
Qed.

Lemma post_key_not_comment i a b : Kv.post_key i ≠ Kv.comment_key a b.
Proof. unfold Kv.post_key, Kv.comment_key, Kv.comment_prefix. intros [=]. Qed.

Lemma post_key_not_persona i a : Kv.post_key i ≠ Kv.persona_key a.
Proof. unfold Kv.post_key, Kv.persona_key. intros [=]. Qed.

Lemma post_key_no_comment_prefix i j :
  String.prefix (Kv.comment_prefix i) (Kv.post_key j) = false.
Proof. unfold Kv.post_key, Kv.comment_prefix. by prefix_compute. Qed.

Lemma persona_key_no_comment_prefix i j :
  String.prefix (Kv.comment_prefix i) (Kv.persona_key j) = false.
Proof. unfold Kv.persona_key, Kv.comment_prefix. by prefix_compute. Qed.

(** The store a deletion of post [i] ends in, key by key. *)
Lemma kv_delete_post_lookup (s : Kv.store) i now p k :
  Kv.get_post_at (Kv.post_key i) s = Some p →
  (Kv.delete_post (Some i) now s).2 !! k
  = if decide (k = Kv.post_key i)
    then Some (Kv.VPost (post.with_deleted_at (Some (nowIso now)) p))
    else if String.prefix (Kv.comment_prefix i) k then None
    else s !! k.
Proof.
  intros Hp. rewrite delete_post_final. cbn [Kv.num].
  change ("post:" +:+ pretty i) with (Kv.post_key i).
  change ("comment_post:" +:+ pretty i +:+ ":") with (Kv.comment_prefix i).
  rewrite Hp. cbn [snd]. rewrite lookup_delete_all. unfold Kv.db_set.
  destruct (decide (k = Kv.post_key i)) as [->|Hne].
  - rewrite decide_False, lookup_insert_eq; [done|].
    intros [_ H]%elem_of_db_list. by rewrite post_key_no_comment_prefix in H.
  - destruct (String.prefix (Kv.comment_prefix i) k) eqn:Hpre.
    + case_decide as Hk; [done|]. rewrite lookup_insert_ne in * by done.
      destruct (s !! k) eqn:Hsk; [|done]. destruct Hk.
      apply elem_of_db_list. rewrite lookup_insert_ne by done. split; [by eexists|done].
    + rewrite decide_False, lookup_insert_ne; [done..|].
      intros [_ H]%elem_of_db_list. congruence.
Qed.






(** ** Replies to comments *)

(** In the SQLite variant a comment that names a reply target is stored only
    when the target is a live comment of the same post; a failed request
    leaves the tables as they were. *)
Lemma sql_create_comment_reply_checked r now d rid :
  comment_req.reply_to_comment_id r = Some (Some rid) →
  match Sql.create_comment r now d with
  | (Ok _, _) =>
      ∃ parent postId,
        comment_req.post_id r = Some postId ∧
        Sql.comment_by_id d rid = Some parent ∧
        comment.deleted_at parent = None ∧
        comment.post_id parent = postId
  | (Err _ _, d') => d' = d
  end.
Proof.
  intros Hr. unfold Sql.create_comment. rewrite Hr.
  destruct (comment_req.post_id r) as [postId|]; [|done].
  do 3 (case_decide; [done|]).
  destruct (Sql.post_by_id d postId); [|done]. case_decide; [done|].
  destruct (Sql.persona_by_name d _); [|done]. case_decide; [done|].
  cbn [mjoin option_join]. simpl.
  destruct (Sql.comment_by_id d rid) as [parent|]; [|done].
  destruct (bool_decide (comment.deleted_at parent = None)) eqn:Hlive,
           (bool_decide (comment.post_id parent = postId)) eqn:Hsame; try done.
  apply bool_decide_eq_true in Hlive, Hsame. simpl. eauto 10.
Qed.

Lemma sql_create_comment_reply_invalid r now d rid postId p per :
  comment_req.post_id r = Some postId →
  comment_req.reply_to_comment_id r = Some (Some rid) →
  Js.field (comment_req.persona_name r) ≠ "" →
  Js.field (comment_req.content r) ≠ "" →
  Sql.post_by_id d postId = Some p → post.deleted_at p = None →
  Sql.persona_by_name d (Js.field (comment_req.persona_name r)) = Some per →
  persona.deleted_at per = None →
  (∀ parent, Sql.comment_by_id d rid = Some parent →
     comment.deleted_at parent ≠ None ∨ comment.post_id parent ≠ postId) →
  Sql.create_comment r now d = (Err 400 "REPLY_TARGET_INVALID", d).
Proof.
  intros Hpost Hr Hname Hcontent Hp Hplive Hper Hperlive Hbad.
  unfold Sql.create_comment. rewrite Hpost, Hr, Hp, Hper, Hplive, Hperlive.
  rewrite !decide_False by (done || by intros [??]). simpl.
  destruct (Sql.comment_by_id d rid) as [parent|]; [|done].
  destruct (Hbad parent eq_refl) as [?|?].
  - by rewrite bool_decide_eq_false_2.
  - rewrite (bool_decide_eq_false_2 (comment.post_id parent = postId)) by done.
    by rewrite andb_false_r.
Qed.

(** C3 at its failing input.  The key-value variant stores a reply whose
    target is a comment of another post, and one whose target does not
    exist; the SQLite variant answers [REPLY_TARGET_INVALID] to the same
    sequence of requests and stores nothing. *)
Theorem kv_reply_target_unchecked :
  let setup :=
    [(CreatePersona (persona_req.mk (Some "Ann") None None None), Clock 1 1);
     (CreatePost (post_req.mk (Some "ann") (Some "first") None), Clock 2 2);
     (CreatePost (post_req.mk (Some "ann") (Some "second") None), Clock 3 3)] in
  let s := (Kv.run scheme_of
     (setup ++ [(CreateComment
                   (comment_req.mk (Some 2) (Some "ann") (Some "on first") None),
                 Clock 4 4)]) ∅).2 in
  let d := (Sql.run scheme_of
     (setup ++ [(CreateComment
                   (comment_req.mk (Some 1) (Some "ann") (Some "on first") None),
                 Clock 4 4)]) Sql.empty).2 in
  (* the comment 4 belongs to post 2; the reply is posted on post 3 *)
  comment.post_id <$> Kv.get_comment (Kv.comment_key 2 4) s = Some 2 ∧
  (let '(a, s') :=
     Kv.create_comment
       (comment_req.mk (Some 3) (Some "ann") (Some "cross") (Some (Some 4)))
       (Clock 5 5) s in
   a = Ok 5 ∧
   Kv.get_comment (Kv.comment_key 3 5) s'
   = Some (comment.mk 5 3 (Some 1) "cross" (Some 4) 5 None)) ∧
  (* a target that does not exist *)
  (Kv.create_comment
     (comment_req.mk (Some 3) (Some "ann") (Some "void") (Some (Some 77)))
     (Clock 5 5) s).1 = Ok 5 ∧
  (* SQLite: comment 1 belongs to post 1; the reply is posted on post 2 *)
  Sql.create_comment
    (comment_req.mk (Some 2) (Some "ann") (Some "cross") (Some (Some 1)))
    (Clock 5 5) d
  = (Err 400 "REPLY_TARGET_INVALID", d).
Proof. intros setup s d. split_and!; vm_compute; done. Qed.

(** ** Persona names *)

(** The reserved name is refused by both variants, which store nothing. *)
Lemma create_persona_reserved (url_protocol : string → option string) r :
  Js.field (persona_req.name r) = RESERVED_NAME →
  (∀ d, Sql.create_persona url_protocol r d = (Err 400 "NAME_RESERVED", d)) ∧
  (∀ now s,
     Kv.create_persona url_protocol r now s = (Err 400 "NAME_RESERVED", s)).
Proof.
  intros Hname. split; intros; unfold Sql.create_persona, Kv.create_persona;
    rewrite Hname; by rewrite decide_False, decide_True.
Qed.

(** The key-value variant refuses a name whose lower-case form is in its
    index of names. *)
Lemma kv_create_persona_exists (url_protocol : string → option string)
    r now (s : Kv.store) id :
  Js.field (persona_req.name r) ≠ "" →
  Js.field (persona_req.name r) ≠ RESERVED_NAME →
  Kv.get_id (Kv.name_key (Js.field (persona_req.name r))) s = Some id →
  id ≠ 0 →
  Kv.create_persona url_protocol r now s = (Err 409 "NAME_EXISTS", s).
Proof.
  intros ?? Hid ?. unfold Kv.create_persona. rewrite !decide_False, Hid by done.
  simpl. by destruct (Z.eqb_spec id 0).
Qed.

(** C4 at its failing input.  With a live persona ["Alice"], the SQLite
    variant accepts ["alice"]: the [UNIQUE] constraint on [name] compares
    byte by byte.  Both personas are then stored, live.  The key-value
    variant answers 409 [NAME_EXISTS] to the same requests. *)
Theorem sql_name_case_variant_accepted :
  let rqs :=
    [(CreatePersona (persona_req.mk (Some "Alice") None None None), Clock 1 1);
     (CreatePersona (persona_req.mk (Some "alice") None None None), Clock 2 2)] in
  (Sql.run scheme_of rqs Sql.empty).1 = [Created (Ok 1); Created (Ok 2)] ∧
  (λ p, (persona.name p, persona.deleted_at p))
    <$> Sql.personas (Sql.run scheme_of rqs Sql.empty).2
  = [("Alice", None); ("alice", None)] ∧
  Js.toLowerCase "alice" = Js.toLowerCase "Alice" ∧
  (Kv.run scheme_of rqs ∅).1 = [Created (Ok 1); Created (Err 409 "NAME_EXISTS")].
Proof. intros rqs. split_and!; vm_compute; done. Qed.

(** ** Deleting a persona *)

Lemma find_update {A} (f : A → Z) (g : A → A) i (l : list A) :
  (∀ x, f (g x) = f x) →
  find (λ y, bool_decide (f y = i)) (g <$> l)
  = g <$> find (λ y, bool_decide (f y = i)) l.
Proof.
  intros Hfg. induction l as [|x l IH]; [done|]. csimpl.
  rewrite Hfg. by case_bool_decide.
Qed.

(** In the SQLite variant a second deletion of a persona succeeds and
    changes nothing, whatever the times of the two requests. *)
Lemma sql_delete_persona_twice d i now1 now2 :
  (Sql.delete_persona (Some i) now1 d).1 = Ok () →
  Sql.delete_persona (Some i) now2 (Sql.delete_persona (Some i) now1 d).2
  = (Ok (), (Sql.delete_persona (Some i) now1 d).2).
Proof.
  unfold Sql.delete_persona at 1 3 4.
  destruct (Sql.persona_by_id d i) as [p|] eqn:Hp; [|done]. intros _.
  case_decide as Hdel; cbn [snd]; unfold Sql.delete_persona.
  - rewrite Hp. by rewrite decide_True.
  - unfold Sql.persona_by_id in *. cbn [Sql.personas Sql.update_persona_deleted_at].
    rewrite find_update by (intros x; by destruct (decide (persona.id x = i))).
    rewrite Hp. simpl.
    apply find_key_Some in Hp as [_ Hi].
    destruct (decide (persona.id p = i)); [|done].
    rewrite decide_True; [done|by eexists].
Qed.

Lemma sql_delete_persona_not_found d i now :
  (Sql.delete_persona (Some i) now d).1 = Err 404 "NOT_FOUND"
  ↔ ∀ p, p ∈ Sql.personas d → persona.id p ≠ i.
Proof.
  unfold Sql.delete_persona, Sql.persona_by_id.
  destruct (find _ _) as [p|] eqn:Hp.
  - apply find_key_Some in Hp as [Hp Hi]. split.
    + by case_decide.
    + intros H. by destruct (H p Hp).
  - split; [|done]. intros _. by apply find_key_None.
Qed.

(** C6 at its failing input.  In the key-value variant a second deletion of
    a persona is not without effect: it overwrites [deleted_at], and when
    the name has been taken again in the meantime it removes the name of
    the new, live persona from the index, after which that persona can no
    longer post and its name can be taken once more. *)
Theorem kv_delete_persona_twice :
  let alice := CreatePersona (persona_req.mk (Some "Alice") None None None) in
  let s0 := (Kv.run scheme_of [(alice, Clock 1 1)] ∅).2 in
  let once := Kv.delete_persona (Some 1) (Clock 2 2) s0 in
  let twice := Kv.delete_persona (Some 1) (Clock 3 3) once.2 in
  once.1 = Ok () ∧ twice.1 = Ok () ∧
  persona.deleted_at <$> Kv.get_persona (Kv.persona_key 1) once.2
    = Some (Some 2) ∧
  persona.deleted_at <$> Kv.get_persona (Kv.persona_key 1) twice.2
    = Some (Some 3) ∧
  once.2 !! Kv.persona_key 1 ≠ twice.2 !! Kv.persona_key 1 ∧
  let s1 := (Kv.run scheme_of
     [(alice, Clock 1 1); (DeletePersona (Some 1), Clock 2 2);
      (CreatePersona (persona_req.mk (Some "alice") None None None), Clock 5 5)]
     ∅).2 in
  let again := Kv.delete_persona (Some 1) (Clock 6 6) s1 in
  Kv.get_id (Kv.name_key "alice") s1 = Some 5 ∧
  again.1 = Ok () ∧
  Kv.get_id (Kv.name_key "alice") again.2 = None ∧
  persona.deleted_at <$> Kv.get_persona (Kv.persona_key 5) again.2
    = Some None ∧
  (Kv.create_post scheme_of (post_req.mk (Some "alice") (Some "hi") None)
                  (Clock 7 7) again.2).1
  = Err 400 "PERSONA_NOT_FOUND" ∧
  (Kv.create_persona scheme_of (persona_req.mk (Some "ALICE") None None None)
                     (Clock 7 7) again.2).1
  = Ok 7.
Proof.
  intros alice s0 once twice. split_and!; vm_compute; done.
Qed.

(** ** Identifiers *)

(** In the SQLite variant a created row gets an id no row of its table has. *)
Lemma sql_created_id_fresh (url_protocol : string → option string) now d id d' :
  (∀ r, Sql.create_persona url_protocol r d = (Ok id, d') →
        (id ∉ persona.id <$> Sql.personas d) ∧
        (id ∈ persona.id <$> Sql.personas d')) ∧
  (∀ r, Sql.create_post url_protocol r now d = (Ok id, d') →
        (id ∉ post.id <$> Sql.posts d) ∧ (id ∈ post.id <$> Sql.posts d')) ∧
  (∀ r, Sql.create_comment r now d = (Ok id, d') →
        (id ∉ comment.id <$> Sql.comments d) ∧
        (id ∈ comment.id <$> Sql.comments d')).
Proof.
  split_and!; intros r;
    unfold Sql.create_persona, Sql.create_post, Sql.create_comment;
    repeat (case_decide || case_match); intros; simplify_eq/=;
    (split; [apply autoincrement_fresh|]);
    rewrite fmap_app, elem_of_app; right; by left.
Qed.

(** C9 at its failing input.  In the key-value variant two creations that
    read the same [Date.now()] get the same id, and the second entity takes
    the place of the first in the store; the SQLite variant gives the ids
    1 and 2 to the same requests. *)
Theorem kv_ids_collide :
  let rqs :=
    [(CreatePersona (persona_req.mk (Some "ann") None None None), Clock 5 5);
     (CreatePersona (persona_req.mk (Some "bob") None None None), Clock 5 5);
     (CreatePost (post_req.mk (Some "bob") (Some "one") None), Clock 7 7);
     (CreatePost (post_req.mk (Some "bob") (Some "two") None), Clock 7 7)] in
  let s := (Kv.run scheme_of rqs ∅).2 in
  (Kv.run scheme_of rqs ∅).1
  = [Created (Ok 5); Created (Ok 5); Created (Ok 7); Created (Ok 7)] ∧
  persona.name <$> Kv.personas s = ["bob"] ∧
  Kv.get_id (Kv.name_key "ann") s = Some 5 ∧
  Kv.get_id (Kv.name_key "bob") s = Some 5 ∧
  post.content <$> Kv.posts s = ["two"] ∧
  (Sql.run scheme_of rqs Sql.empty).1
  = [Created (Ok 1); Created (Ok 2); Created (Ok 1); Created (Ok 2)].
Proof. intros rqs s. split_and!; vm_compute; done. Qed.

(** ** Optional fields *)




Lemma name_key_not_persona n i : Kv.name_key n ≠ Kv.persona_key i.
Proof. unfold Kv.name_key, Kv.persona_key. rewrite !app_cons. intros [=]. Qed.



(** ** The two variants, side by side *)


Lemma name_key_not_post n i : Kv.name_key n ≠ Kv.post_key i.
Proof. unfold Kv.name_key, Kv.post_key. rewrite !app_cons. intros [=]. Qed.

Lemma persona_by_name_Some d n p :
  Sql.persona_by_name d n = Some p →
  p ∈ Sql.personas d ∧ Js.toLowerCase (persona.name p) = Js.toLowerCase n.
Proof.
  unfold Sql.persona_by_name. induction (Sql.personas d) as [|q l IH]; [done|].
  simpl. case_bool_decide.
  - intros [= ->]. split; [left|done].
  - intros [??]%IH. split; [by right|done].
Qed.



Section simulation.
Context (url_protocol : string → option string).





End simulation.




(** ** The scenarios of a thread *)

(** A post, a comment, a reply to it, a reply across posts, and the deletion
    of the post, in the SQLite variant. *)
Example sql_thread_scenario :
  let rqs :=
    [(CreatePersona (persona_req.mk (Some "B") None None None), Clock 1 1);
     (CreatePost (post_req.mk (Some "B") (Some "P") None), Clock 2 2);
     (CreatePost (post_req.mk (Some "B") (Some "Q") None), Clock 3 3);
     (CreateComment (comment_req.mk (Some 1) (Some "B") (Some "C1") None),
      Clock 4 4);
     (CreateComment
        (comment_req.mk (Some 1) (Some "B") (Some "C2") (Some (Some 1))),
      Clock 5 5);
     (CreateComment
        (comment_req.mk (Some 2) (Some "B") (Some "C3") (Some (Some 1))),
      Clock 6 6);
     (DeletePost (Some 1), Clock 7 7);
     (GetPost (Some 1), Clock 8 8)] in
  outcome <$> (Sql.run scheme_of rqs Sql.empty).1
  = [None; None; None; None; None; Some (400, "REPLY_TARGET_INVALID"); None;
     Some (404, "NOT_FOUND")] ∧
  comment.deleted_at <$> Sql.comments (Sql.run scheme_of rqs Sql.empty).2
  = [Some 7; Some 7].
Proof. vm_compute. done. Qed.

(** The same thread in the key-value variant, with the ids the clock gives:
    the reply across posts is stored, and the deletion removes the comments
    of the post. *)
Example kv_thread_scenario :
  let rqs :=
    [(CreatePersona (persona_req.mk (Some "B") None None None), Clock 1 1);
     (CreatePost (post_req.mk (Some "B") (Some "P") None), Clock 2 2);
     (CreatePost (post_req.mk (Some "B") (Some "Q") None), Clock 3 3);
     (CreateComment (comment_req.mk (Some 2) (Some "B") (Some "C1") None),
      Clock 4 4);
     (CreateComment
        (comment_req.mk (Some 2) (Some "B") (Some "C2") (Some (Some 4))),
      Clock 5 5);
     (CreateComment
        (comment_req.mk (Some 3) (Some "B") (Some "C3") (Some (Some 4))),
      Clock 6 6);
     (DeletePost (Some 2), Clock 7 7);
     (GetPost (Some 2), Clock 8 8)] in
  outcome <$> (Kv.run scheme_of rqs ∅).1
  = [None; None; None; None; None; None; None; Some (404, "NOT_FOUND")] ∧
  comment.content <$> Kv.comments (Kv.run scheme_of rqs ∅).2 = ["C3"].
Proof. vm_compute. done. Qed.


(** ** The keys of the key-value variant *)

Lemma name_key_not_comment n p i : Kv.name_key n ≠ Kv.comment_key p i.
Proof.
  unfold Kv.name_key, Kv.comment_key, Kv.comment_prefix.
  rewrite !app_cons. intros [=].
Qed.

Lemma persona_key_not_comment a p i : Kv.persona_key a ≠ Kv.comment_key p i.
Proof.
  unfold Kv.persona_key, Kv.comment_key, Kv.comment_prefix.
  rewrite !app_cons. intros [=].
Qed.

(** X1.  The keys of the key-value variant never collide: the key of a
    persona, a post or a comment determines its ids, keys of different kinds
    are different (whatever the persona name inside a [persona_name:] key),
    and the scan [comment_post:${p}:] finds the comment keys of post [p]
    and of no other post, also when one id is a decimal prefix of the
    other; the scans [post:] and [persona:] find the keys of their kind
    only. *)
Theorem kv_keys_do_not_collide :
  (∀ i j, Kv.persona_key i = Kv.persona_key j → i = j) ∧
  (∀ i j, Kv.post_key i = Kv.post_key j → i = j) ∧
  (∀ p q i j, Kv.comment_key p i = Kv.comment_key q j → p = q ∧ i = j) ∧
  (∀ n i p j,
     Kv.persona_key i ≠ Kv.post_key j ∧
     Kv.persona_key i ≠ Kv.comment_key p j ∧
     Kv.persona_key i ≠ Kv.name_key n ∧
     Kv.post_key i ≠ Kv.comment_key p j ∧
     Kv.post_key i ≠ Kv.name_key n ∧
     Kv.comment_key p j ≠ Kv.name_key n) ∧
  (∀ p q i, String.prefix (Kv.comment_prefix p) (Kv.comment_key q i) = true
            ↔ p = q) ∧
  (∀ n i p j,
     String.prefix "post:" (Kv.post_key i) = true ∧
     String.prefix "post:" (Kv.persona_key i) = false ∧
     String.prefix "post:" (Kv.comment_key p j) = false ∧
     String.prefix "post:" (Kv.name_key n) = false ∧
     String.prefix "persona:" (Kv.persona_key i) = true ∧
     String.prefix "persona:" (Kv.post_key i) = false ∧
     String.prefix "persona:" (Kv.comment_key p j) = false ∧
     String.prefix "persona:" (Kv.name_key n) = false).
Proof.
  split_and!.
  - apply persona_key_inj.
  - apply post_key_inj.
  - apply comment_key_inj.
  - intros n i p j. split_and!.
    + intros H. by destruct (post_key_not_persona j i).
    + apply persona_key_not_comment.
    + intros H. by destruct (name_key_not_persona n i).
    + apply post_key_not_comment.
    + intros H. by destruct (name_key_not_post n i).
    + intros H. by destruct (name_key_not_comment n p j).
  - apply comment_prefix_key.
  - intros n i p j.
    unfold Kv.post_key, Kv.persona_key, Kv.comment_key, Kv.comment_prefix,
      Kv.name_key.
    split_and!; by prefix_compute.
Qed.


(** ** Requests that fail *)

(** X2.  A request that is answered with an error leaves storage as it
    was, in both variants: every handler validates before it writes. *)
Theorem failed_request_writes_nothing (url_protocol : string → option string)
    rq now :
  (∀ d, outcome (Sql.handle url_protocol rq now d).1 ≠ None →
        (Sql.handle url_protocol rq now d).2 = d) ∧
  (∀ s : Kv.store, outcome (Kv.handle url_protocol rq now s).1 ≠ None →
        (Kv.handle url_protocol rq now s).2 = s).
Proof.
  split.
  - intros d. destruct rq; simpl; try done.
    + unfold Sql.create_persona.
      repeat (case_decide || case_match); simpl; intros; simplify_eq/=; congruence.
    + unfold Sql.delete_persona.
      repeat (case_decide || case_match); simpl; intros; simplify_eq/=; congruence.
    + unfold Sql.create_post.
      repeat (case_decide || case_match); simpl; intros; simplify_eq/=; congruence.
    + rewrite delete_post_final_sql.
      repeat (case_decide || case_match); simpl; intros; simplify_eq/=; congruence.
    + unfold Sql.create_comment.
      repeat (case_decide || case_match); simpl; intros; simplify_eq/=; congruence.
  - intros s. destruct rq; simpl; try done.
    + unfold Kv.create_persona.
      repeat (case_decide || case_match); simpl; intros; simplify_eq/=; congruence.
    + unfold Kv.delete_persona.
      repeat (case_decide || case_match); simpl; intros; simplify_eq/=; congruence.
    + unfold Kv.create_post.
      repeat (case_decide || case_match); simpl; intros; simplify_eq/=; congruence.
    + rewrite delete_post_final.
      repeat (case_decide || case_match); simpl; intros; simplify_eq/=; congruence.
    + unfold Kv.create_comment.
      repeat (case_decide || case_match); simpl; intros; simplify_eq/=; congruence.
Qed.

Lemma failed_request_writes_nothing_witness :
  let now := Clock 9 9 in
  let d := (Sql.run scheme_of
     [(CreatePersona (persona_req.mk (Some "Ann") None None None), Clock 1 1)]
     Sql.empty).2 in
  let s := (Kv.run scheme_of
     [(CreatePersona (persona_req.mk (Some "Ann") None None None), Clock 1 1)]
     ∅).2 in
  let rq := CreatePost (post_req.mk (Some "Bob") (Some "hi") None) in
  (Sql.handle scheme_of rq now d).2 = d ∧
  (Kv.handle scheme_of rq now s).2 = s.
Proof.
  intros now d s rq. split.
  - apply (proj1 (failed_request_writes_nothing scheme_of rq now) d).
    vm_compute. discriminate.
  - apply (proj2 (failed_request_writes_nothing scheme_of rq now) s).
    vm_compute. discriminate.
Defined.

(** ** Deleting twice in the SQLite variant *)

Lemma sql_delete_post_twice d i now1 now2 :
  (Sql.delete_post (Some i) now1 d).1 = Ok () →
  Sql.delete_post (Some i) now2 (Sql.delete_post (Some i) now1 d).2
  = (Ok (), (Sql.delete_post (Some i) now1 d).2).
Proof.
  rewrite (delete_post_final_sql (Some i) now1 d).
  destruct (Sql.post_by_id d i) as [p|] eqn:Hp; [|done].
  destruct (decide (is_Some (post.deleted_at p))) as [Hdel|Hdel]; simpl;
    intros _; rewrite delete_post_final_sql.
  - rewrite Hp. by rewrite decide_True.
  - unfold Sql.post_by_id, Sql.update_comments_deleted_at,
      Sql.update_post_deleted_at in *; simpl.
    rewrite (find_update post.id
               (λ p, if decide (post.id p = i)
                     then post.with_deleted_at (Some (nowIso now1)) p else p))
      by (intros x; by destruct (decide (post.id x = i))).
    rewrite Hp. simpl.
    apply find_key_Some in Hp as [_ Hi].
    by destruct (decide (post.id p = i)).
Qed.

Lemma sql_delete_post_not_found d i now :
  (Sql.delete_post (Some i) now d).1 = Err 404 "NOT_FOUND"
  ↔ ∀ p, p ∈ Sql.posts d → post.id p ≠ i.
Proof.
  rewrite delete_post_final_sql. unfold Sql.post_by_id.
  destruct (find _ _) as [p|] eqn:Hp.
  - apply find_key_Some in Hp as [Hin Hi]. split.
    + by case_decide.
    + intros H. by destruct (H p Hin).
  - split; [|done]. intros _. by apply find_key_None.
Qed.

(** X3.  In the SQLite variant deleting a persona or a post a second time
    answers ok and changes nothing, whatever the time of the second
    request: the row keeps the [deleted_at] of the first deletion.  The
    answer is [NOT_FOUND] exactly when no row has the id. *)
Theorem sql_delete_twice_is_noop d i now1 now2 :
  ((Sql.delete_persona (Some i) now1 d).1 = Ok () →
   Sql.delete_persona (Some i) now2 (Sql.delete_persona (Some i) now1 d).2
   = (Ok (), (Sql.delete_persona (Some i) now1 d).2)) ∧
  ((Sql.delete_post (Some i) now1 d).1 = Ok () →
   Sql.delete_post (Some i) now2 (Sql.delete_post (Some i) now1 d).2
   = (Ok (), (Sql.delete_post (Some i) now1 d).2)) ∧
  ((Sql.delete_persona (Some i) now1 d).1 = Err 404 "NOT_FOUND"
   ↔ ∀ p, p ∈ Sql.personas d → persona.id p ≠ i) ∧
  ((Sql.delete_post (Some i) now1 d).1 = Err 404 "NOT_FOUND"
   ↔ ∀ p, p ∈ Sql.posts d → post.id p ≠ i).
Proof.
  split_and!.
  - apply sql_delete_persona_twice.
  - apply sql_delete_post_twice.
  - apply sql_delete_persona_not_found.
  - apply sql_delete_post_not_found.
Qed.

Lemma sql_delete_twice_is_noop_witness :
  let d := (Sql.run scheme_of
     [(CreatePersona (persona_req.mk (Some "Ann") None None None), Clock 1 1);
      (CreatePost (post_req.mk (Some "ann") (Some "first") None), Clock 2 2);
      (CreateComment (comment_req.mk (Some 1) (Some "ann") (Some "re") None),
       Clock 3 3)] Sql.empty).2 in
  let d1 := (Sql.delete_persona (Some 1) (Clock 5 5) d).2 in
  let d2 := (Sql.delete_post (Some 1) (Clock 6 6) d).2 in
  Sql.delete_persona (Some 1) (Clock 8 8) d1 = (Ok (), d1) ∧
  Sql.delete_post (Some 1) (Clock 9 9) d2 = (Ok (), d2) ∧
  persona.deleted_at <$> Sql.personas d1 = [Some 5] ∧
  comment.deleted_at <$> Sql.comments d2 = [Some 6].
Proof.
  intros d d1 d2. split; [|split; [|split]].
  - apply (proj1 (sql_delete_twice_is_noop d 1 (Clock 5 5) (Clock 8 8))).
    reflexivity.
  - apply (proj1 (proj2 (sql_delete_twice_is_noop d 1 (Clock 6 6) (Clock 9 9)))).
    reflexivity.
  - reflexivity.
  - reflexivity.
Defined.

(** ** What a request changes *)

Lemma or_null_url_ok (url_protocol : string → option string) u :
  bool_decide (u ≠ "") && negb (isProbablyHttpUrl url_protocol u) = false →
  url_ok url_protocol (Js.or_null u).
Proof.
  unfold Js.or_null. case_decide as Hu; [done|]. simpl.
  rewrite bool_decide_eq_true_2 by done. simpl.
  by intros ->%negb_false_iff.
Qed.

(** The tables after a request of the SQLite variant: as before, or with
    one row appended, or with one persona marked, or with one post and its
    comments marked. *)
Lemma sql_handle_cases (url_protocol : string → option string) rq now d :
  let d' := (Sql.handle url_protocol rq now d).2 in
  d' = d ∨
  (∃ p,
     d' = Sql.mk_db (Sql.personas d ++ [p]) (persona.id p)
                    (Sql.posts d) (Sql.posts_seq d)
                    (Sql.comments d) (Sql.comments_seq d) ∧
     persona.id p
     = Sql.autoincrement (Sql.personas_seq d) (persona.id <$> Sql.personas d) ∧
     persona.name p ≠ "" ∧ persona.name p ≠ RESERVED_NAME ∧
     (persona.name p ∉ persona.name <$> Sql.personas d) ∧
     url_ok url_protocol (persona.avatar_url p) ∧
     persona.deleted_at p = None) ∨
  (∃ i p,
     Sql.persona_by_id d i = Some p ∧ persona.deleted_at p = None ∧
     d' = Sql.update_persona_deleted_at (nowIso now) i d) ∨
  (∃ p per,
     d' = Sql.mk_db (Sql.personas d) (Sql.personas_seq d)
                    (Sql.posts d ++ [p]) (post.id p)
                    (Sql.comments d) (Sql.comments_seq d) ∧
     post.id p = Sql.autoincrement (Sql.posts_seq d) (post.id <$> Sql.posts d) ∧
     per ∈ Sql.personas d ∧ persona.deleted_at per = None ∧
     post.persona_id p = Some (persona.id per) ∧
     post.content p ≠ "" ∧
     url_ok url_protocol (post.image_url p) ∧
     post.deleted_at p = None) ∨
  (∃ i p,
     Sql.post_by_id d i = Some p ∧ post.deleted_at p = None ∧
     d' = Sql.update_comments_deleted_at (nowIso now) i
            (Sql.update_post_deleted_at (nowIso now) i d)) ∨
  (∃ c p per,
     d' = Sql.mk_db (Sql.personas d) (Sql.personas_seq d)
                    (Sql.posts d) (Sql.posts_seq d)
                    (Sql.comments d ++ [c]) (comment.id c) ∧
     comment.id c
     = Sql.autoincrement (Sql.comments_seq d) (comment.id <$> Sql.comments d) ∧
     p ∈ Sql.posts d ∧ post.id p = comment.post_id c ∧
     post.deleted_at p = None ∧
     per ∈ Sql.personas d ∧ persona.deleted_at per = None ∧
     comment.persona_id c = Some (persona.id per) ∧
     comment.content c ≠ "" ∧ comment.deleted_at c = None ∧
     (∀ rid, comment.reply_to_comment_id c = Some rid →
        ∃ parent, parent ∈ Sql.comments d ∧ comment.id parent = rid ∧
          comment.deleted_at parent = None ∧
          comment.post_id parent = comment.post_id c)).
Proof.
  destruct rq as [r|id|sort|id|r|id|r]; simpl.
  - unfold Sql.create_persona.
    destruct (decide (Js.field (persona_req.name r) = "")); [by left|].
    destruct (decide (Js.field (persona_req.name r) = RESERVED_NAME));
      [by left|].
    destruct (bool_decide _ && negb _) eqn:Hurl; [by left|].
    destruct (decide (_ ∈ _)); [by left|].
    right; left. eexists (persona.mk _ _ _ _ _ _). simpl.
    split; [reflexivity|]. simpl.
    split_and!; try done. by apply or_null_url_ok.
  - unfold Sql.delete_persona. destruct id as [i|]; [|by left].
    destruct (Sql.persona_by_id d i) as [p|] eqn:Hp; [|by left].
    destruct (decide (is_Some (persona.deleted_at p))) as [|Hdel]; [by left|].
    right; right; left. exists i, p. split_and!; try done.
    destruct (persona.deleted_at p); [by destruct Hdel|done].
  - by left.
  - by left.
  - unfold Sql.create_post.
    destruct (decide (Js.field (post_req.persona_name r) = "")); [by left|].
    destruct (decide (Js.field (post_req.content r) = "")); [by left|].
    destruct (bool_decide _ && negb _) eqn:Hurl; [by left|].
    destruct (Sql.persona_by_name d _) as [per|] eqn:Hper; [|by left].
    destruct (decide (is_Some (persona.deleted_at per))) as [|Hdel];
      [by left|].
    apply persona_by_name_Some in Hper as [Hin _].
    do 3 right; left. eexists (post.mk _ _ _ _ _ _), per. simpl.
    split; [reflexivity|]. simpl.
    split_and!; try done.
    + destruct (persona.deleted_at per); [by destruct Hdel|done].
    + by apply or_null_url_ok.
  - rewrite delete_post_final_sql. destruct id as [i|]; [|by left].
    destruct (Sql.post_by_id d i) as [p|] eqn:Hp; [|by left].
    destruct (decide (is_Some (post.deleted_at p))) as [|Hdel]; [by left|].
    do 4 right; left. exists i, p. split_and!; try done.
    destruct (post.deleted_at p); [by destruct Hdel|done].
  - unfold Sql.create_comment.
    destruct (comment_req.post_id r) as [postId|]; [|by left].
    destruct (decide (Js.field (comment_req.persona_name r) = ""));
      [by left|].
    destruct (decide (Js.field (comment_req.content r) = "")); [by left|].
    destruct (decide (comment_req.reply_to_comment_id r = Some None));
      [by left|].
    destruct (Sql.post_by_id d postId) as [p|] eqn:Hp; [|by left].
    destruct (decide (is_Some (post.deleted_at p))) as [|Hdel]; [by left|].
    destruct (Sql.persona_by_name d _) as [per|] eqn:Hper; [|by left].
    destruct (decide (is_Some (persona.deleted_at per))) as [|Hdel'];
      [by left|].
    destruct (negb _) eqn:Hreply; [by left|].
    apply negb_false_iff in Hreply.
    apply persona_by_name_Some in Hper as [Hin _].
    apply find_key_Some in Hp as [Hpin Hpid].
    do 5 right. eexists (comment.mk _ _ _ _ _ _ _), p, per. simpl.
    split; [reflexivity|]. simpl.
    split_and!; try done.
    + destruct (post.deleted_at p); [by destruct Hdel|done].
    + destruct (persona.deleted_at per); [by destruct Hdel'|done].
    + intros rid Hrid. rewrite Hrid in Hreply. simpl in Hreply.
      destruct (Sql.comment_by_id d rid) as [parent|] eqn:Hparent; [|done].
      apply andb_true_iff in Hreply as [H1%bool_decide_eq_true H2%bool_decide_eq_true].
      apply find_key_Some in Hparent as [? ?]. by exists parent.
Qed.

Lemma truthy_num_Some n : Js.truthy_num n = true → ∃ z, n = Some z ∧ z ≠ 0.
Proof.
  destruct n as [z|]; [|done]. simpl. intros Hz%negb_true_iff.
  exists z. split; [done|]. by apply Z.eqb_neq.
Qed.

Lemma num_pretty id i : "post:" +:+ Kv.num id = Kv.post_key i → Kv.num id = pretty i.
Proof. unfold Kv.post_key. rewrite !app_cons. by intros [=]. Qed.

(** The store after a request of the key-value variant: as before, or with
    a persona and its name entry written, or with a persona marked and its
    name entry removed, or with a post or a comment written, or with a post
    marked and the entries of its comments removed. *)
Lemma kv_handle_cases (url_protocol : string → option string) rq now
    (s : Kv.store) :
  Kv.wf s →
  let s' := (Kv.handle url_protocol rq now s).2 in
  s' = s ∨
  (∃ p,
     s' = <[Kv.name_key (persona.name p) := Kv.VId (persona.id p)]>
            (<[Kv.persona_key (persona.id p) := Kv.VPersona p]> s) ∧
     persona.id p = Date_now now ∧
     persona.name p ≠ "" ∧ persona.name p ≠ RESERVED_NAME ∧
     Js.truthy_num (Kv.get_id (Kv.name_key (persona.name p)) s) = false ∧
     url_ok url_protocol (persona.avatar_url p) ∧
     persona.deleted_at p = None) ∨
  (∃ p,
     s !! Kv.persona_key (persona.id p) = Some (Kv.VPersona p) ∧
     s' = delete (Kv.name_key (persona.name p))
            (<[Kv.persona_key (persona.id p) :=
                 Kv.VPersona (persona.with_deleted_at (Some (nowIso now)) p)]>
               s)) ∨
  (∃ p n name,
     s' = <[Kv.post_key (post.id p) := Kv.VPost p]> s ∧
     post.id p = Date_now now ∧
     post.persona_id p = Some n ∧ n ≠ 0 ∧
     Kv.get_id (Kv.name_key name) s = Some n ∧
     post.content p ≠ "" ∧
     url_ok url_protocol (post.image_url p) ∧
     post.created_at p = nowIso now ∧
     post.deleted_at p = None) ∨
  (∃ p,
     s !! Kv.post_key (post.id p) = Some (Kv.VPost p) ∧
     let s1 : Kv.store :=
       <[Kv.post_key (post.id p) :=
           Kv.VPost (post.with_deleted_at (Some (nowIso now)) p)]> s in
     s' = foldl (λ s' k, Kv.db_delete k s') s1
                (Kv.db_list (Kv.comment_prefix (post.id p)) s1)) ∨
  (∃ c p n name,
     s' = <[Kv.comment_key (comment.post_id c) (comment.id c) :=
              Kv.VComment c]> s ∧
     comment.id c = Date_now now ∧
     s !! Kv.post_key (comment.post_id c) = Some (Kv.VPost p) ∧
     post.deleted_at p = None ∧
     comment.persona_id c = Some n ∧ n ≠ 0 ∧
     Kv.get_id (Kv.name_key name) s = Some n ∧
     comment.content c ≠ "" ∧
     comment.created_at c = nowIso now ∧
     comment.deleted_at c = None).
Proof.
  intros Hwf. destruct rq as [r|id|sort|id|r|id|r]; simpl.
  - unfold Kv.create_persona.
    destruct (decide (Js.field (persona_req.name r) = "")); [by left|].
    destruct (decide (Js.field (persona_req.name r) = RESERVED_NAME));
      [by left|].
    destruct (Js.truthy_num _) eqn:Hex; [by left|].
    cbn [persona.avatar_url].
    destruct (Js.or_null (Js.field (persona_req.avatar_url r)))
      as [u|] eqn:Hu.
    + destruct (negb _) eqn:Hurl; [by left|].
      apply negb_false_iff in Hurl.
      right; left. eexists (persona.mk _ _ _ _ _ _). simpl.
      split; [reflexivity|]. simpl. by split_and!.
    + right; left. eexists (persona.mk _ _ _ _ _ _). simpl.
      split; [reflexivity|]. simpl. by split_and!.
  - unfold Kv.delete_persona.
    destruct (Kv.get_persona _ s) as [p|] eqn:Hp; [|by left].
    apply wf_get_persona in Hp as (Hp & Hk & _); [|done].
    right; right; left. exists p. simpl. by rewrite <-Hk.
  - by left.
  - by left.
  - unfold Kv.create_post.
    destruct (bool_decide _ || bool_decide _) eqn:Hmiss; [by left|].
    destruct (bool_decide _ && negb _) eqn:Hurl; [by left|].
    destruct (negb (Js.truthy_num _)) eqn:Hper; [by left|].
    apply negb_false_iff, truthy_num_Some in Hper as (n & Hn & Hn0).
    apply orb_false_iff in Hmiss as [_ Hcontent%bool_decide_eq_false].
    do 3 right; left.
    eexists (post.mk _ _ _ _ _ _), n, _. simpl.
    split; [reflexivity|]. simpl. split_and!; try done.
    by apply or_null_url_ok.
  - rewrite delete_post_final.
    destruct (Kv.get_post_at _ s) as [p|] eqn:Hp; [|by left].
    apply wf_get_post in Hp as (Hp & Hk & _); [|done].
    do 4 right; left. exists p. simpl. split; [by rewrite <-Hk|].
    unfold Kv.comment_prefix. rewrite <-(num_pretty _ _ Hk), <-Hk. done.
  - unfold Kv.create_comment.
    destruct (comment_req.post_id r) as [postId|]; [|by left].
    destruct (bool_decide _ || bool_decide _ || bool_decide _) eqn:Hmiss;
      [by left|].
    destruct (Kv.get_post_at _ s) as [p|] eqn:Hp; [|by left].
    destruct (decide (is_Some (post.deleted_at p))) as [|Hdel]; [by left|].
    destruct (negb (Js.truthy_num _)) eqn:Hper; [by left|].
    apply negb_false_iff, truthy_num_Some in Hper as (n & Hn & Hn0).
    apply orb_false_iff in Hmiss as [_ Hcontent%bool_decide_eq_false].
    apply wf_get_post in Hp as (Hp & Hk & _); [|done].
    do 5 right.
    eexists (comment.mk _ _ _ _ _ _ _), p, n, _. simpl.
    split; [reflexivity|]. simpl. split_and!; try done.
    destruct (post.deleted_at p); [by destruct Hdel|done].
Qed.

(** ** Identifiers of the SQLite variant *)

Lemma autoincrement_above seq ids :
  seq < Sql.autoincrement seq ids ∧
  Forall (λ x, x < Sql.autoincrement seq ids) ids.
Proof.
  unfold Sql.autoincrement. split.
  - induction ids as [|y ids IH]; simpl; lia.
  - apply Forall_forall. induction ids as [|y ids IH]; intros x.
    + by intros ?%elem_of_nil.
    + intros [->|Hx]%elem_of_cons; simpl; [lia|]. specialize (IH x Hx). lia.
Qed.

Lemma ids_ok_snoc seq ids :
  ids_ok seq ids →
  ids_ok (Sql.autoincrement seq ids) (ids ++ [Sql.autoincrement seq ids]).
Proof.
  intros (Hseq & Hsorted & Hall).
  destruct (autoincrement_above seq ids) as [Hlt Habove].
  split_and!; [lia| |].
  - apply StronglySorted_app_2; [|done|repeat constructor].
    intros x y Hx ->%list_elem_of_singleton.
    by apply (proj1 (Forall_forall _ _) Habove).
  - apply Forall_app. split.
    + eapply Forall_impl; [exact Hall|]. simpl. lia.
    + repeat constructor; lia.
Qed.

Lemma sql_ids_ok (url_protocol : string → option string) d :
  Sql.reachable url_protocol d →
  ids_ok (Sql.personas_seq d) (persona.id <$> Sql.personas d) ∧
  ids_ok (Sql.posts_seq d) (post.id <$> Sql.posts d) ∧
  ids_ok (Sql.comments_seq d) (comment.id <$> Sql.comments d).
Proof.
  induction 1 as [|rq now d Hd (Hp & Hq & Hc)].
  { repeat split; simpl; try done; constructor. }
  destruct (sql_handle_cases url_protocol rq now d)
    as [->|[(p & -> & Hid & _)|[(i & p & _ & _ & ->)|[(p & per & -> & Hid & _)|
        [(i & p & _ & _ & ->)|(c & p & per & -> & Hid & _)]]]]];
    simpl; [done|..].
  - rewrite fmap_app; simpl; rewrite !Hid. split_and!; [|done..]. by apply ids_ok_snoc.
  - rewrite fmap_update by (intros x; by case_decide). done.
  - rewrite fmap_app; simpl; rewrite !Hid. split_and!; [done| |done]. by apply ids_ok_snoc.
  - rewrite !fmap_update by (intros x; by case_decide). done.
  - rewrite fmap_app; simpl; rewrite !Hid. split_and!; [done..|]. by apply ids_ok_snoc.
Qed.

(** X4.  In the SQLite variant the ids of every table are positive and
    increase in row order, in every state the server can reach: a new row
    gets an id above all ids of its table, and no id is used twice. *)
Theorem sql_ids_increase (url_protocol : string → option string) d :
  Sql.reachable url_protocol d →
  (ids_ok (Sql.personas_seq d) (persona.id <$> Sql.personas d) ∧
   ids_ok (Sql.posts_seq d) (post.id <$> Sql.posts d) ∧
   ids_ok (Sql.comments_seq d) (comment.id <$> Sql.comments d)) ∧
  (∀ r id d', Sql.create_persona url_protocol r d = (Ok id, d') →
     Forall (λ j, j < id) (persona.id <$> Sql.personas d) ∧
     persona.id <$> Sql.personas d' = (persona.id <$> Sql.personas d) ++ [id]) ∧
  (∀ r now id d', Sql.create_post url_protocol r now d = (Ok id, d') →
     Forall (λ j, j < id) (post.id <$> Sql.posts d) ∧
     post.id <$> Sql.posts d' = (post.id <$> Sql.posts d) ++ [id]) ∧
  (∀ r now id d', Sql.create_comment r now d = (Ok id, d') →
     Forall (λ j, j < id) (comment.id <$> Sql.comments d) ∧
     comment.id <$> Sql.comments d' = (comment.id <$> Sql.comments d) ++ [id]).
Proof.
  intros Hd. split; [by eapply sql_ids_ok|]. split_and!.
  - intros r id d'. unfold Sql.create_persona.
    repeat (case_decide || case_match); intros; simplify_eq/=.
    all: split; [apply autoincrement_above|by rewrite fmap_app].
  - intros r now id d'. unfold Sql.create_post.
    repeat (case_decide || case_match); intros; simplify_eq/=.
    all: split; [apply autoincrement_above|by rewrite fmap_app].
  - intros r now id d'. unfold Sql.create_comment.
    repeat (case_decide || case_match); intros; simplify_eq/=.
    all: split; [apply autoincrement_above|by rewrite fmap_app].
Qed.

Lemma sql_ids_increase_witness :
  let d := (Sql.run scheme_of
     [(CreatePersona (persona_req.mk (Some "Ann") None None None), Clock 1 1);
      (CreatePost (post_req.mk (Some "ann") (Some "first") None), Clock 2 2);
      (CreatePost (post_req.mk (Some "ann") (Some "second") None), Clock 3 3);
      (DeletePost (Some 2), Clock 4 4)] Sql.empty).2 in
  ids_ok (Sql.posts_seq d) (post.id <$> Sql.posts d) ∧
  post.id <$> Sql.posts d = [1; 2] ∧
  (Sql.create_post scheme_of (post_req.mk (Some "ann") (Some "third") None)
                   (Clock 5 5) d).1 = Ok 3.
Proof.
  intros d. split; [|split].
  - apply (sql_ids_increase scheme_of d).
    apply sql_reachable_run, Sql.reachable_empty.
  - reflexivity.
  - reflexivity.
Defined.

(** ** Persona names of the SQLite variant *)

(** X5.  In the SQLite variant, in every state the server can reach, the
    personas have names that are not empty, not the reserved name, and
    pairwise different (byte by byte, deleted personas included); and a
    persona cannot be created under the exact name of a stored persona,
    also when that persona is soft-deleted: the name stays taken. *)
Theorem sql_names_stay_taken (url_protocol : string → option string) d :
  Sql.reachable url_protocol d →
  NoDup (persona.name <$> Sql.personas d) ∧
  (∀ p, p ∈ Sql.personas d →
     persona.name p ≠ "" ∧ persona.name p ≠ RESERVED_NAME) ∧
  (∀ r p, p ∈ Sql.personas d →
     Js.field (persona_req.name r) = persona.name p →
     Sql.create_persona url_protocol r d = (Err 409 "NAME_EXISTS", d) ∨
     Sql.create_persona url_protocol r d = (Err 400 "AVATAR_URL_INVALID", d)).
Proof.
  intros Hd.
  assert (NoDup (persona.name <$> Sql.personas d) ∧
          ∀ p, p ∈ Sql.personas d →
            persona.name p ≠ "" ∧ persona.name p ≠ RESERVED_NAME)
    as [Hnodup Hnames].
  { induction Hd as [|rq now d Hd [IH1 IH2]].
    { split; [constructor|]. by intros p ?%elem_of_nil. }
    destruct (sql_handle_cases url_protocol rq now d)
      as [->|[(p & -> & _ & Hn1 & Hn2 & Hfresh & _)|[(i & p & _ & _ & ->)|
          [(p & per & -> & _)|[(i & p & _ & _ & ->)|(c & p & per & -> & _)]]]]];
      simpl; try done.
    - split.
      + rewrite fmap_app. apply NoDup_app. split_and!; [done| |].
        * intros x Hx ->%list_elem_of_singleton. done.
        * apply NoDup_singleton.
      + intros q [Hq| ->%list_elem_of_singleton]%elem_of_app; auto.
    - split.
      + rewrite fmap_update by (intros x; by case_decide). done.
      + intros q (q' & -> & Hq')%list_elem_of_fmap.
        specialize (IH2 q' Hq'). by case_decide. }
  split_and!; [done|done|].
  intros r p Hp Hname. destruct (Hnames p Hp) as [Hn1 Hn2].
  unfold Sql.create_persona. rewrite Hname.
  rewrite decide_False by done. rewrite decide_False by done.
  destruct (bool_decide _ && negb _); [by right|].
  rewrite decide_True; [by left|].
  apply list_elem_of_fmap. by exists p.
Qed.

Lemma sql_names_stay_taken_witness :
  let d := (Sql.run scheme_of
     [(CreatePersona (persona_req.mk (Some "Ann") None None None), Clock 1 1);
      (DeletePersona (Some 1), Clock 2 2)] Sql.empty).2 in
  let r := persona_req.mk (Some " Ann ") None None None in
  persona.deleted_at <$> Sql.personas d = [Some 2] ∧
  Sql.create_persona scheme_of r d = (Err 409 "NAME_EXISTS", d).
Proof.
  intros d r. split; [reflexivity|].
  destruct (proj2 (proj2 (sql_names_stay_taken scheme_of d
              (sql_reachable_run scheme_of _ _ (Sql.reachable_empty _))))
              r (persona.mk 1 "Ann" None None None (Some 2)))
    as [H|H].
  - vm_compute. left.
  - reflexivity.
  - exact H.
  - vm_compute in H. discriminate H.
Defined.

(** ** Writing as a deleted persona *)



Lemma kv_deleted_persona_name (s : Kv.store) i now p n :
  Kv.get_persona (Kv.persona_key i) s = Some p →
  Js.toLowerCase n = Js.toLowerCase (persona.name p) →
  Kv.get_id (Kv.name_key n) (Kv.delete_persona (Some i) now s).2 = None.
Proof.
  intros Hp Hn. unfold Kv.delete_persona. simpl.
  change ("persona:" +:+ pretty i) with (Kv.persona_key i). rewrite Hp. simpl.
  unfold Kv.get_id, Kv.db_get, Kv.db_delete, Kv.name_key. simpl.
  rewrite Hn. by rewrite lookup_delete_eq.
Qed.



(** ** Persona names of the key-value variant *)

(** X7.  In the key-value variant the deletion of a persona frees its name:
    a persona can be created again under that name, in any letter case, and
    the name then resolves to the new persona.  (The SQLite variant keeps
    the name taken.) *)
Theorem kv_deleted_name_is_free (url_protocol : string → option string)
    (s : Kv.store) i now p r now' :
  Kv.get_persona (Kv.persona_key i) s = Some p →
  Js.toLowerCase (Js.field (persona_req.name r))
    = Js.toLowerCase (persona.name p) →
  Js.field (persona_req.name r) ≠ "" →
  Js.field (persona_req.name r) ≠ RESERVED_NAME →
  url_ok url_protocol (Js.or_null (Js.field (persona_req.avatar_url r))) →
  let s' := (Kv.delete_persona (Some i) now s).2 in
  let created := Kv.create_persona url_protocol r now' s' in
  created.1 = Ok (Date_now now') ∧
  Kv.get_id (Kv.name_key (persona.name p)) created.2 = Some (Date_now now') ∧
  persona.name <$> Kv.get_persona (Kv.persona_key (Date_now now')) created.2
    = Some (Js.field (persona_req.name r)).
Proof.
  intros Hp Hn Hn1 Hn2 Hurl s' created.
  pose proof (kv_deleted_persona_name s i now p _ Hp Hn) as Hfree.
  fold s' in Hfree.
  assert (created =
    (Ok (Date_now now'),
     Kv.db_set (Kv.name_key (Js.field (persona_req.name r)))
       (Kv.VId (Date_now now'))
       (Kv.db_set (Kv.persona_key (Date_now now'))
          (Kv.VPersona
             (persona.mk (Date_now now') (Js.field (persona_req.name r))
                (Js.or_null (Js.field (persona_req.avatar_url r)))
                (Js.or_null (Js.field (persona_req.bio r)))
                (Js.or_null (Js.field (persona_req.creator r))) None)) s')))
    as ->.
  { unfold created, Kv.create_persona.
    rewrite decide_False by done. rewrite decide_False by done.
    rewrite Hfree. simpl.
    destruct (Js.or_null (Js.field (persona_req.avatar_url r))); [|done].
    simpl in Hurl. by rewrite Hurl. }
  simpl. split_and!; [done|..].
  - unfold Kv.get_id, Kv.db_get, Kv.db_set, Kv.name_key.
    rewrite <-Hn. by rewrite lookup_insert_eq.
  - unfold Kv.get_persona, Kv.db_get, Kv.db_set.
    rewrite lookup_insert_ne by apply name_key_not_persona.
    by rewrite lookup_insert_eq.
Qed.

Lemma kv_deleted_name_is_free_witness :
  let s := (Kv.run scheme_of
     [(CreatePersona (persona_req.mk (Some "Ann") None None None), Clock 1 1)]
     ∅).2 in
  let s' := (Kv.delete_persona (Some 1) (Clock 2 2) s).2 in
  let created :=
    Kv.create_persona scheme_of
      (persona_req.mk (Some "ANN") (Some "https://a/b.png") None None)
      (Clock 3 3) s' in
  created.1 = Ok 3 ∧
  Kv.get_id (Kv.name_key "Ann") created.2 = Some 3 ∧
  persona.name <$> Kv.get_persona (Kv.persona_key 3) created.2 = Some "ANN".
Proof.
  intros s s' created.
  apply (kv_deleted_name_is_free scheme_of s 1 (Clock 2 2)
           (persona.mk 1 "Ann" None None None None)
           (persona_req.mk (Some "ANN") (Some "https://a/b.png") None None)
           (Clock 3 3)).
  - reflexivity.
  - reflexivity.
  - vm_compute. discriminate.
  - vm_compute. discriminate.
  - reflexivity.
Defined.

(** ** Stored URLs *)

Lemma map_Forall_delete_all (Q : string → Kv.value → Prop) ks (s : Kv.store) :
  map_Forall Q s → map_Forall Q (foldl (λ s' k, Kv.db_delete k s') s ks).
Proof.
  revert s. induction ks as [|k ks IH]; intros s Hs; [done|].
  simpl. apply IH. by apply map_Forall_delete.
Qed.

Lemma elem_of_personas_lookup (s : Kv.store) p :
  p ∈ Kv.personas s → ∃ k, s !! k = Some (Kv.VPersona p).
Proof.
  intros ([k v] & Hkv & Hv)%list_elem_of_omap.
  apply elem_of_map_to_list in Hkv. exists k.
  destruct v; simplify_eq/=. done.
Qed.

Lemma elem_of_posts_lookup (s : Kv.store) p :
  p ∈ Kv.posts s → ∃ k, s !! k = Some (Kv.VPost p).
Proof.
  intros ([k v] & Hkv & Hv)%list_elem_of_omap.
  apply elem_of_map_to_list in Hkv. exists k.
  destruct v; simplify_eq/=. done.
Qed.

Section urls.
Context (url_protocol : string → option string).

Lemma sql_urls_ok d :
  Sql.reachable url_protocol d →
  (∀ p, p ∈ Sql.personas d → url_ok url_protocol (persona.avatar_url p)) ∧
  (∀ p, p ∈ Sql.posts d → url_ok url_protocol (post.image_url p)).
Proof.
  induction 1 as [|rq now d Hd [IH1 IH2]].
  { split; by intros p ?%elem_of_nil. }
  destruct (sql_handle_cases url_protocol rq now d)
    as [->|[(p & -> & _ & _ & _ & _ & Hurl & _)|[(i & p & _ & _ & ->)|
        [(p & per & -> & _ & _ & _ & _ & _ & Hurl & _)|
         [(i & p & _ & _ & ->)|(c & p & per & -> & _)]]]]];
    simpl; try done.
  - split; [|done].
    intros q [Hq| ->%list_elem_of_singleton]%elem_of_app; auto.
  - split; [|done].
    intros q (q' & -> & Hq')%list_elem_of_fmap.
    specialize (IH1 q' Hq'). by case_decide.
  - split; [done|].
    intros q [Hq| ->%list_elem_of_singleton]%elem_of_app; auto.
  - split; [done|].
    intros q (q' & -> & Hq')%list_elem_of_fmap.
    specialize (IH2 q' Hq'). by case_decide.
Qed.

Lemma kv_urls_ok s :
  Kv.reachable url_protocol s → map_Forall (kv_url_entry url_protocol) s.
Proof.
  induction 1 as [|rq now s Hs IH]; [apply map_Forall_empty|].
  destruct (kv_handle_cases url_protocol rq now s (reachable_wf _ _ Hs))
    as [->|[(p & -> & _ & _ & _ & _ & Hurl & _)|[(p & Hp & ->)|
        [(p & n & name & -> & _ & _ & _ & _ & _ & Hurl & _)|
         [(p & Hp & ->)|(c & p & n & name & -> & _)]]]]];
    try done.
  - by repeat apply map_Forall_insert_2.
  - apply map_Forall_delete, map_Forall_insert_2; [|done].
    apply (IH _ _ Hp).
  - by apply map_Forall_insert_2.
  - apply map_Forall_delete_all, map_Forall_insert_2; [|done].
    apply (IH _ _ Hp).
  - by apply map_Forall_insert_2.
Qed.

End urls.

(** X8.  Every URL that storage holds has passed [isProbablyHttpUrl]: in
    every state the server can reach, in both variants, the [avatar_url] of
    a persona and the [image_url] of a post are null or a text that the URL
    parser accepts with the protocol [http:] or [https:].  A deletion keeps
    the field. *)
Theorem stored_urls_are_http (url_protocol : string → option string) :
  (∀ d, Sql.reachable url_protocol d →
     (∀ p, p ∈ Sql.personas d → url_ok url_protocol (persona.avatar_url p)) ∧
     (∀ p, p ∈ Sql.posts d → url_ok url_protocol (post.image_url p))) ∧
  (∀ s, Kv.reachable url_protocol s →
     (∀ p, p ∈ Kv.personas s → url_ok url_protocol (persona.avatar_url p)) ∧
     (∀ p, p ∈ Kv.posts s → url_ok url_protocol (post.image_url p))).
Proof.
  split; [apply sql_urls_ok|].
  intros s Hs%kv_urls_ok. split.
  - intros p [k Hk]%elem_of_personas_lookup. apply (Hs _ _ Hk).
  - intros p [k Hk]%elem_of_posts_lookup. apply (Hs _ _ Hk).
Qed.

Lemma stored_urls_are_http_witness :
  let rqs :=
    [(CreatePersona (persona_req.mk (Some "Ann") (Some " https://a/b.png ")
                                    None None), Clock 1 1);
     (CreatePersona (persona_req.mk (Some "Bob") (Some "ftp://a/b.png")
                                    None None), Clock 2 2);
     (CreatePost (post_req.mk (Some "ann") (Some "hi") (Some "javascript:x")),
      Clock 3 3);
     (CreatePost (post_req.mk (Some "ann") (Some "hi") (Some "http://c/d")),
      Clock 4 4);
     (DeletePersona (Some 1), Clock 5 5)] in
  let d := (Sql.run scheme_of rqs Sql.empty).2 in
  let s := (Kv.run scheme_of rqs ∅).2 in
  (∀ p, p ∈ Sql.personas d → url_ok scheme_of (persona.avatar_url p)) ∧
  (∀ p, p ∈ Kv.posts s → url_ok scheme_of (post.image_url p)) ∧
  persona.avatar_url <$> Sql.personas d = [Some "https://a/b.png"] ∧
  post.image_url <$> Kv.posts s = [Some "http://c/d"].
Proof.
  intros rqs d s. split; [|split; [|split]].
  - apply (proj1 (stored_urls_are_http scheme_of) d).
    apply sql_reachable_run, Sql.reachable_empty.
  - apply (proj2 (stored_urls_are_http scheme_of) s).
    apply reachable_run, Kv.reachable_empty.
  - reflexivity.
  - vm_compute. reflexivity.
Defined.

(** ** References between rows *)

Lemma sql_refs_reachable (url_protocol : string → option string) d :
  Sql.reachable url_protocol d → sql_refs d.
Proof.
  induction 1 as [|rq now d Hd [IH1 IH2]].
  { split; by intros p ?%elem_of_nil. }
  destruct (sql_handle_cases url_protocol rq now d)
    as [->|[(p & -> & _)|[(i & p & _ & _ & ->)|
        [(p & per & -> & _ & Hper & _ & Hpid & _)|
         [(i & p & _ & _ & ->)|
          (c & p & per & -> & Hid & Hp & Hpost & Hlive & Hper & _ & Hpid & _ & _
             & Hreply)]]]]];
    simpl; try done.
  - (* a persona is added *)
    split; simpl.
    + intros q Hq. destruct (IH1 q Hq) as (per & ? & ?).
      exists per. split; [|done]. apply elem_of_app; by left.
    + intros c Hc. destruct (IH2 c Hc) as ((per & ? & ?) & ? & ?).
      split_and!; try done.
      exists per. split; [|done]. apply elem_of_app; by left.
  - (* a persona is marked *)
    set (g := λ q : persona.t, if decide (persona.id q = i)
                then persona.with_deleted_at (Some (nowIso now)) q else q).
    assert (∀ q, persona.id (g q) = persona.id q) as Hg.
    { intros q. unfold g. by case_decide. }
    split; simpl.
    + intros q Hq. destruct (IH1 q Hq) as (per & ? & ?).
      exists (g per). rewrite Hg. split; [|done].
      apply list_elem_of_fmap. by exists per.
    + intros c Hc. destruct (IH2 c Hc) as ((per & ? & ?) & ? & ?).
      split_and!; try done.
      exists (g per). rewrite Hg. split; [|done].
      apply list_elem_of_fmap. by exists per.
  - (* a post is added *)
    split; simpl.
    + intros q [Hq| ->%list_elem_of_singleton]%elem_of_app; [by apply IH1|].
      by exists per.
    + intros c Hc. destruct (IH2 c Hc) as (? & (q & ? & ?) & ?).
      split_and!; try done.
      exists q. split; [|done]. apply elem_of_app; by left.
  - (* a post and its comments are marked *)
    set (g := λ q : post.t, if decide (post.id q = i)
                then post.with_deleted_at (Some (nowIso now)) q else q).
    set (h := λ c : comment.t, if decide (comment.post_id c = i)
                then comment.with_deleted_at (Some (nowIso now)) c else c).
    split; simpl.
    + intros q (q' & -> & Hq')%list_elem_of_fmap.
      destruct (IH1 q' Hq') as (per & ? & ?). exists per. split; [done|].
      unfold g. by case_decide.
    + intros c (c' & -> & Hc')%list_elem_of_fmap.
      destruct (IH2 c' Hc') as ((per & ? & ?) & (q & Hq & Hqid & Hqlive) & Hre).
      split_and!.
      * exists per. split; [done|]. unfold h. by case_decide.
      * exists (g q). split; [apply list_elem_of_fmap; by exists q|].
        unfold g, h.
        destruct (decide (comment.post_id c' = i)) as [Hi|Hi]; simpl.
        -- split; [by case_decide|done].
        -- rewrite decide_False by congruence. done.
      * intros rid Hrid.
        assert (comment.reply_to_comment_id c' = Some rid) as Hrid'.
        { revert Hrid. unfold h. by case_decide. }
        destruct (Hre rid Hrid') as (parent & ? & ? & Hsame & ? & Hplive).
        exists (h parent). split; [apply list_elem_of_fmap; by exists parent|].
        unfold h.
        destruct (decide (comment.post_id c' = i)) as [Hi|Hi]; simpl.
        -- rewrite decide_True by congruence. simpl. by split_and!.
        -- rewrite decide_False by congruence. by split_and!.
  - (* a comment is added *)
    split; simpl; [done|].
    intros c' [Hc'| ->%list_elem_of_singleton]%elem_of_app.
    + destruct (IH2 c' Hc') as (? & ? & Hre). split_and!; try done.
      intros rid Hrid. destruct (Hre rid Hrid) as (parent & ? & ?).
      exists parent. split; [|done]. apply elem_of_app; by left.
    + split_and!.
      * by exists per.
      * by exists p.
      * intros rid Hrid.
        destruct (Hreply rid Hrid) as (parent & Hparent & <- & ? & ?).
        exists parent. split_and!; try done.
        -- apply elem_of_app; by left.
        -- rewrite Hid.
           destruct (autoincrement_above (Sql.comments_seq d)
                       (comment.id <$> Sql.comments d)) as [_ Habove].
           apply (proj1 (Forall_forall _ _) Habove).
           apply list_elem_of_fmap. by exists parent.
Qed.
Lemma delete_listed_lookup pre (s : Kv.store) k :
  foldl (λ s' k', Kv.db_delete k' s') s (Kv.db_list pre s) !! k
  = if String.prefix pre k then None else s !! k.
Proof.
  rewrite lookup_delete_all. case_decide as Hk.
  - apply elem_of_db_list in Hk as [_ ->]. done.
  - destruct (String.prefix pre k) eqn:Hpre; [|done].
    destruct (s !! k) eqn:Hs; [|done].
    destruct Hk. apply elem_of_db_list. by rewrite Hs.
Qed.

Lemma get_id_lookup n (s : Kv.store) k :
  Kv.get_id k s = Some n → s !! k = Some (Kv.VId n).
Proof.
  unfold Kv.get_id, Kv.db_get. destruct (s !! k) as [[]|]; naive_solver.
Qed.

Lemma refs_entry_mono (s s' : Kv.store) k v :
  (∀ i, is_Some (Kv.get_persona (Kv.persona_key i) s) →
        is_Some (Kv.get_persona (Kv.persona_key i) s')) →
  (∀ i p, Kv.get_post_at (Kv.post_key i) s = Some p → post.deleted_at p = None →
          ∃ p', Kv.get_post_at (Kv.post_key i) s' = Some p' ∧
                post.deleted_at p' = None) →
  Kv.refs_entry s k v → Kv.refs_entry s' k v.
Proof.
  intros Hper Hpost. destruct v as [p|n|p|c]; simpl; [done|by auto|..].
  - intros (i & ? & ?). eauto.
  - intros [(i & ? & ?) (p & ? & ?)]. split; eauto.
Qed.

Lemma kv_refs_reachable (url_protocol : string → option string) s :
  Kv.reachable url_protocol s → Kv.refs s.
Proof.
  induction 1 as [|rq now s Hs IH]; [apply map_Forall_empty|].
  pose proof (reachable_wf _ _ Hs) as Hwf.
  assert (∀ name n, Kv.get_id (Kv.name_key name) s = Some n →
            is_Some (Kv.get_persona (Kv.persona_key n) s)) as Hindex.
  { intros name n Hn%get_id_lookup. apply (IH _ _ Hn). }
  destruct (kv_handle_cases url_protocol rq now s Hwf)
    as [->|[(p & -> & _)|[(p & Hp & ->)|
        [(p & n & name & -> & _ & Hpid & _ & Hname & _ & _ & _ & Hlive)|
         [(p & Hp & Hs')|
          (c & p & n & name & -> & _ & Hp & Hplive & Hpid & _ & Hname & _)]]]]];
    try done.
  - (* a persona is written *)
    assert (∀ k v, Kv.refs_entry s k v →
              Kv.refs_entry
                (<[Kv.name_key (persona.name p) := Kv.VId (persona.id p)]>
                   (<[Kv.persona_key (persona.id p) := Kv.VPersona p]> s)) k v)
      as Hmono.
    { intros k v. apply refs_entry_mono.
      - intros i. unfold Kv.get_persona, Kv.db_get.
        rewrite lookup_insert_ne by apply name_key_not_persona.
        destruct (decide (persona.id p = i)) as [->|Hi].
        + rewrite lookup_insert_eq. by eexists.
        + rewrite lookup_insert_ne; [done|]. by intros ?%persona_key_inj.
      - intros i q. unfold Kv.get_post_at, Kv.db_get.
        rewrite lookup_insert_ne by apply name_key_not_post.
        rewrite lookup_insert_ne; [by eauto|].
        intros Heq. by destruct (post_key_not_persona i (persona.id p)). }
    apply map_Forall_insert_2; [|apply map_Forall_insert_2; [done|]].
    + simpl. unfold Kv.get_persona, Kv.db_get.
      rewrite lookup_insert_ne by apply name_key_not_persona.
      rewrite lookup_insert_eq. by eexists.
    + intros k v Hk. apply Hmono, (IH _ _ Hk).
  - (* a persona is marked *)
    apply map_Forall_delete, map_Forall_insert_2; [done|].
    intros k v Hk. eapply refs_entry_mono; [..|apply (IH _ _ Hk)].
    + intros i. unfold Kv.get_persona, Kv.db_get.
      rewrite lookup_delete_ne by apply name_key_not_persona.
      destruct (decide (persona.id p = i)) as [->|Hi].
      * rewrite lookup_insert_eq. by eexists.
      * rewrite lookup_insert_ne; [done|]. by intros ?%persona_key_inj.
    + intros i q. unfold Kv.get_post_at, Kv.db_get.
      rewrite lookup_delete_ne by apply name_key_not_post.
      rewrite lookup_insert_ne; [by eauto|].
      intros Heq. by destruct (post_key_not_persona i (persona.id p)).
  - (* a post is written *)
    assert (∀ k v, Kv.refs_entry s k v →
              Kv.refs_entry (<[Kv.post_key (post.id p) := Kv.VPost p]> s) k v)
      as Hmono.
    { intros k v. apply refs_entry_mono.
      - intros i. unfold Kv.get_persona, Kv.db_get.
        rewrite lookup_insert_ne; [done|]. apply post_key_not_persona.
      - intros i q. unfold Kv.get_post_at, Kv.db_get.
        destruct (decide (post.id p = i)) as [->|Hi].
        + rewrite lookup_insert_eq. by eauto.
        + rewrite lookup_insert_ne; [by eauto|]. by intros ?%post_key_inj. }
    apply map_Forall_insert_2.
    + apply (Hmono (Kv.post_key (post.id p))). simpl. eauto.
    + intros k v Hk. apply Hmono, (IH _ _ Hk).
  - (* a post is marked and the entries of its comments are removed *)
    simpl in Hs'. rewrite Hs'. clear Hs'.
    set (s1 := <[Kv.post_key (post.id p) :=
                   Kv.VPost (post.with_deleted_at (Some (nowIso now)) p)]> s).
    assert (∀ i, is_Some (Kv.get_persona (Kv.persona_key i) s) →
              is_Some (Kv.get_persona (Kv.persona_key i)
                (foldl (λ s' k, Kv.db_delete k s') s1
                   (Kv.db_list (Kv.comment_prefix (post.id p)) s1))))
      as Hper.
    { intros i. unfold Kv.get_persona, Kv.db_get.
      rewrite delete_listed_lookup, persona_key_no_comment_prefix.
      unfold s1. rewrite lookup_insert_ne; [done|]. apply post_key_not_persona. }
    intros k v. rewrite delete_listed_lookup.
    destruct (String.prefix (Kv.comment_prefix (post.id p)) k) eqn:Hpre;
      [done|].
    unfold s1 at 1. intros Hk.
    assert (∃ v0, s !! k = Some v0 ∧
              (v0 = v ∨ ∃ q, v0 = Kv.VPost q ∧
                 v = Kv.VPost (post.with_deleted_at (Some (nowIso now)) q)))
      as (v0 & Hk0 & Hv).
    { destruct (decide (Kv.post_key (post.id p) = k)) as [<-|Hne].
      - rewrite lookup_insert_eq in Hk. simplify_eq. eauto 10.
      - rewrite lookup_insert_ne in Hk by done. eauto. }
    pose proof (IH _ _ Hk0) as Hrefs. pose proof (Hwf _ _ Hk0) as Hwfk.
    destruct Hv as [->|(q & -> & ->)].
    + destruct v as [q|n|q|c]; simpl in *; [done|by auto|..].
      * destruct Hrefs as (i & ? & ?). eauto.
      * destruct Hrefs as [(i & ? & ?) (q & Hq & ?)]. split; [by eauto|].
        destruct Hwfk as (-> & _).
        assert (post.id p ≠ comment.post_id c) as Hother.
        { intros Heq. rewrite Heq in Hpre.
          by rewrite (proj2 (comment_prefix_key _ _ _) eq_refl) in Hpre. }
        exists q. split; [|done]. revert Hq.
        unfold Kv.get_post_at, Kv.db_get.
        rewrite delete_listed_lookup, post_key_no_comment_prefix.
        unfold s1. rewrite lookup_insert_ne; [done|]. by intros ?%post_key_inj.
    + simpl in *. destruct Hrefs as (i & ? & ?). eauto.
  - (* a comment is written *)
    assert (∀ k v, Kv.refs_entry s k v →
              Kv.refs_entry
                (<[Kv.comment_key (comment.post_id c) (comment.id c) :=
                     Kv.VComment c]> s) k v)
      as Hmono.
    { intros k v. apply refs_entry_mono.
      - intros i. unfold Kv.get_persona, Kv.db_get.
        rewrite lookup_insert_ne; [done|].
        intros Heq. by destruct (persona_key_not_comment i (comment.post_id c)
                                   (comment.id c)).
      - intros i q. unfold Kv.get_post_at, Kv.db_get.
        rewrite lookup_insert_ne; [by eauto|].
        intros Heq. by destruct (post_key_not_comment i (comment.post_id c)
                                   (comment.id c)). }
    apply map_Forall_insert_2.
    + simpl. split.
      * destruct (Hmono (Kv.name_key name) (Kv.VId n)) as [per Hper];
          [by eapply Hindex|]. exists n. split; [done|by eexists].
      * exists p. split; [|done]. unfold Kv.get_post_at, Kv.db_get.
        rewrite lookup_insert_ne; [by rewrite Hp|].
        intros Heq. by destruct (post_key_not_comment (comment.post_id c)
                                   (comment.post_id c) (comment.id c)).
    + intros k v Hk. apply Hmono, (IH _ _ Hk).
Qed.
Lemma kv_refs_lists (url_protocol : string → option string) s :
  Kv.reachable url_protocol s → kv_refs s.
Proof.
  intros Hs. pose proof (reachable_wf _ _ Hs) as Hwf.
  pose proof (kv_refs_reachable _ _ Hs) as Hrefs.
  assert (∀ i, is_Some (Kv.get_persona (Kv.persona_key i) s) →
            ∃ per, per ∈ Kv.personas s ∧ Some i = Some (persona.id per))
    as Hper.
  { intros i [per Hget].
    apply wf_get_persona in Hget as (Hk & Hi%persona_key_inj & _); [|done].
    exists per. subst i. split; [|done]. by apply elem_of_kv_personas. }
  split.
  - intros p Hp%elem_of_kv_posts; [|done].
    destruct (Hrefs _ _ Hp) as (i & -> & Hi). by apply Hper.
  - intros c Hc%elem_of_kv_comments; [|done].
    destruct (Hrefs _ _ Hc) as [(i & -> & Hi) (p & Hp & Hlive)].
    split; [by apply Hper|].
    apply wf_get_post in Hp as (Hp & Hi'%post_key_inj & _); [|done].
    exists p. split_and!; [|done..].
    apply elem_of_kv_posts; [done|]. by rewrite <-Hi'.
Qed.

(** X9.  No write of a handler of the SQLite variant breaks a reference
    that the schema declares as a foreign key: in every state the server
    can reach, the persona of every post and comment is a row of
    [personas]; the post of every comment is a row of [posts], and not
    deleted unless the comment is; the comment that a reply answers is an
    earlier comment of the same post, and not deleted unless the reply
    is. *)
Theorem sql_references_resolve (url_protocol : string → option string) d :
  Sql.reachable url_protocol d → sql_refs d.
Proof. apply sql_refs_reachable. Qed.

Lemma sql_references_resolve_witness :
  let d := (Sql.run scheme_of
     [(CreatePersona (persona_req.mk (Some "Ann") None None None), Clock 1 1);
      (CreatePost (post_req.mk (Some "ann") (Some "first") None), Clock 2 2);
      (CreateComment (comment_req.mk (Some 1) (Some "ann") (Some "a") None),
       Clock 3 3);
      (CreateComment
         (comment_req.mk (Some 1) (Some "ann") (Some "b") (Some (Some 1))),
       Clock 4 4);
      (DeletePersona (Some 1), Clock 5 5);
      (DeletePost (Some 1), Clock 6 6)] Sql.empty).2 in
  sql_refs d ∧
  comment.reply_to_comment_id <$> Sql.comments d = [None; Some 1] ∧
  comment.deleted_at <$> Sql.comments d = [Some 6; Some 6].
Proof.
  intros d. split; [|split].
  - apply (sql_references_resolve scheme_of d).
    apply sql_reachable_run, Sql.reachable_empty.
  - reflexivity.
  - reflexivity.
Defined.

(** X10.  In the key-value variant, in every store the server can reach,
    the persona of every stored post and comment is a stored persona, and
    the post of every stored comment is a stored post that is not marked
    deleted. *)
Theorem kv_references_resolve (url_protocol : string → option string) s :
  Kv.reachable url_protocol s → kv_refs s.
Proof. apply kv_refs_lists. Qed.

Lemma kv_references_resolve_witness :
  let s := (Kv.run scheme_of
     [(CreatePersona (persona_req.mk (Some "Ann") None None None), Clock 1 1);
      (CreatePost (post_req.mk (Some "ann") (Some "first") None), Clock 2 2);
      (CreatePost (post_req.mk (Some "ann") (Some "second") None), Clock 3 3);
      (CreateComment (comment_req.mk (Some 2) (Some "ann") (Some "a") None),
       Clock 4 4);
      (CreateComment (comment_req.mk (Some 3) (Some "ann") (Some "b") None),
       Clock 5 5);
      (DeletePersona (Some 1), Clock 6 6);
      (DeletePost (Some 2), Clock 7 7)] ∅).2 in
  kv_refs s ∧
  comment.post_id <$> Kv.comments s = [3] ∧
  (λ p, (post.id p, post.deleted_at p)) <$> Kv.posts s
  = [(3, None); (2, Some 7)].
Proof.
  intros s. split; [|split].
  - apply (kv_references_resolve scheme_of s).
    apply reachable_run, Kv.reachable_empty.
  - vm_compute. reflexivity.
  - vm_compute. reflexivity.
Defined.

(** ** The rows of the reads *)

Lemma sql_list_posts_row sort d r :
  r ∈ Sql.list_posts sort d →
  ∃ p, p ∈ Sql.posts d ∧ post.deleted_at p = None ∧
       r = PostRow (Sql.annotate d (post.persona_id p) p)
                   (Sql.count_replies d (post.id p)).
Proof.
  unfold Sql.list_posts. intros Hr.
  case_decide; apply elem_of_sort, list_elem_of_fmap in Hr
    as (p & -> & [? ?]%list_elem_of_filter); eauto.
Qed.

Lemma sql_get_post_rows i d a cs :
  Sql.get_post i d = Ok (a, cs) →
  ∃ j p, i = Some j ∧ p ∈ Sql.posts d ∧ post.id p = j ∧
    post.deleted_at p = None ∧
    a = Sql.annotate d (post.persona_id p) p ∧
    ∀ c, c ∈ cs →
      ∃ c', c' ∈ Sql.comments d ∧ comment.post_id c' = j ∧
            comment.deleted_at c' = None ∧
            c = Sql.annotate d (comment.persona_id c') c'.
Proof.
  unfold Sql.get_post. destruct i as [j|]; [|done].
  destruct (Sql.post_by_id d j) as [p|] eqn:Hp; [|done].
  case_decide as Hdel; [done|]. intros [= <- <-].
  apply find_key_Some in Hp as [Hp Hj].
  exists j, p. split_and!; try done.
  - destruct (post.deleted_at p); [by destruct Hdel|done].
  - intros c (c' & -> & [[? ?] ?]%list_elem_of_filter)
      %elem_of_sort%list_elem_of_fmap. eauto 10.
Qed.

Lemma kv_list_posts_row sort (s : Kv.store) r :
  Kv.wf s → r ∈ Kv.list_posts sort s →
  ∃ p, s !! Kv.post_key (post.id p) = Some (Kv.VPost p) ∧
       post.deleted_at p = None ∧
       r = PostRow (Kv.annotate (Kv.getPersona (post.persona_id p) s) p)
                   (length (Kv.db_list (Kv.comment_prefix (post.id p)) s)).
Proof.
  unfold Kv.list_posts. intros Hwf Hr.
  assert (∃ p k, Kv.get_post_at k s = Some p ∧ post.deleted_at p = None ∧
            r = PostRow (Kv.annotate (Kv.getPersona (post.persona_id p) s) p)
                  (length (Kv.db_list (Kv.comment_prefix (post.id p)) s)))
    as (p & k & Hp & ? & ->).
  { case_decide; apply elem_of_sort, list_elem_of_fmap in Hr
      as (p & -> & [? (k & _ & Hk)%list_elem_of_omap]%list_elem_of_filter);
      eauto 10. }
  apply wf_get_post in Hp as (Hp & -> & _); [|done]. eauto.
Qed.

Lemma kv_get_post_rows i (s : Kv.store) a cs :
  Kv.wf s → Kv.get_post i s = Ok (a, cs) →
  ∃ p, Kv.num i = pretty (post.id p) ∧
    s !! Kv.post_key (post.id p) = Some (Kv.VPost p) ∧
    post.deleted_at p = None ∧
    a = Kv.annotate
          (Kv.get_persona
             ("persona:" +:+ from_option pretty "null" (post.persona_id p)) s)
          p ∧
    ∀ c, c ∈ cs →
      ∃ c', s !! Kv.comment_key (post.id p) (comment.id c')
              = Some (Kv.VComment c') ∧
            comment.post_id c' = post.id p ∧
            c = Kv.annotate (Kv.getPersona (comment.persona_id c') s) c'.
Proof.
  unfold Kv.get_post. intros Hwf.
  destruct (Kv.get_post_at _ s) as [p|] eqn:Hp; [|done].
  case_decide as Hdel; [done|]. intros [= <- <-].
  apply wf_get_post in Hp as (Hp & Hk & _); [|done].
  pose proof (num_pretty _ _ Hk) as Hnum.
  exists p. rewrite <-Hk. split_and!; try done.
  - destruct (post.deleted_at p); [by destruct Hdel|done].
  - intros c (c' & -> & [_ (k & Hin & Hget)%list_elem_of_omap]%list_elem_of_filter)
      %elem_of_sort%list_elem_of_fmap.
    apply elem_of_db_list in Hin as [_ Hpre].
    apply wf_get_comment in Hget as (Hc & -> & _); [|done].
    rewrite Hnum in Hpre.
    change ("comment_post:" +:+ pretty (post.id p) +:+ ":")
      with (Kv.comment_prefix (post.id p)) in Hpre.
    apply comment_prefix_key in Hpre. exists c'. rewrite Hpre. eauto.
Qed.

(** ** Whose name a read shows *)

Lemma display_shows_owner {A} absent personas (f : A → option Z)
    (a : annotated A) per :
  per ∈ personas → f (entity a) = Some (persona.id per) →
  display_ok absent (Some per) a → shows_owner personas f a.
Proof.
  intros Hper Hf [Hname Hrest]. exists per. split_and!; try done.
  destruct (persona.deleted_at per); destruct Hrest as [_ ->]; [|done].
  symmetry. apply bool_decide_eq_true. by eexists.
Qed.

Lemma sql_shows_owner {A} d (f : A → option Z) (x : A) :
  Sql.inv d →
  (∃ per, per ∈ Sql.personas d ∧ f x = Some (persona.id per)) →
  shows_owner (Sql.personas d) f (Sql.annotate d (f x) x).
Proof.
  intros Hinv (per & Hper & Hf).
  apply (display_shows_owner Js.null _ _ _ per); [done..|].
  by apply sql_annotate_display.
Qed.

Lemma kv_shows_owner {A} (s : Kv.store) (f : A → option Z) (x : A) o :
  Kv.wf s → Js.truthy_num (f x) = true →
  (o = Kv.getPersona (f x) s ∨
   o = Kv.get_persona ("persona:" +:+ from_option pretty "null" (f x)) s) →
  (∃ per, per ∈ Kv.personas s ∧ f x = Some (persona.id per)) →
  shows_owner (Kv.personas s) f (Kv.annotate o x).
Proof.
  intros Hwf Htruthy Ho (per & Hper & Hf).
  apply (display_shows_owner Js.undefined _ _ _ per); [done..|].
  by apply (kv_displays_ok s f x o Hwf Htruthy Ho (Some per)).
Qed.

(** X11.  In every state the server can reach, in both variants, every post
    and comment that the listing or the detail read returns is shown with
    the stored name and the deleted flag of a persona that storage holds:
    the owner was resolved when the row was written, and personas are never
    removed, so the placeholder for a missing persona is not used. *)
Theorem reads_show_a_stored_persona (url_protocol : string → option string) :
  (∀ d, Sql.reachable url_protocol d →
     (∀ sort r, r ∈ Sql.list_posts sort d →
        shows_owner (Sql.personas d) post.persona_id (row r)) ∧
     (∀ i a cs, Sql.get_post i d = Ok (a, cs) →
        shows_owner (Sql.personas d) post.persona_id a ∧
        ∀ c, c ∈ cs → shows_owner (Sql.personas d) comment.persona_id c)) ∧
  (∀ s, Kv.reachable url_protocol s →
     (∀ sort r, r ∈ Kv.list_posts sort s →
        shows_owner (Kv.personas s) post.persona_id (row r)) ∧
     (∀ i a cs, Kv.get_post i s = Ok (a, cs) →
        shows_owner (Kv.personas s) post.persona_id a ∧
        ∀ c, c ∈ cs → shows_owner (Kv.personas s) comment.persona_id c)).
Proof.
  split.
  - intros d Hd. pose proof (sql_reachable_inv _ _ Hd) as Hinv.
    destruct (sql_refs_reachable _ _ Hd) as [Hposts Hcomments]. split.
    + intros sort r (p & Hp & _ & ->)%sql_list_posts_row. simpl.
      apply (sql_shows_owner d post.persona_id); auto.
    + intros i a cs (j & p & _ & Hp & _ & _ & -> & Hcs)%sql_get_post_rows.
      split; [apply (sql_shows_owner d post.persona_id); auto|].
      intros c (c' & Hc' & _ & _ & ->)%Hcs.
      apply (sql_shows_owner d comment.persona_id); [done|].
      by destruct (Hcomments c' Hc') as [? _].
  - intros s Hs. pose proof (reachable_wf _ _ Hs) as Hwf.
    destruct (kv_refs_lists url_protocol s Hs)
      as [Hposts Hcomments].
    split.
    + intros sort r (p & Hp & _ & ->)%kv_list_posts_row; [|done]. simpl.
      destruct (Hwf _ _ Hp) as [_ Htruthy].
      apply (kv_shows_owner s post.persona_id); auto.
      apply Hposts. by apply elem_of_kv_posts.
    + intros i a cs (p & _ & Hp & _ & -> & Hcs)%kv_get_post_rows; [|done].
      destruct (Hwf _ _ Hp) as [_ Htruthy]. split.
      * apply (kv_shows_owner s post.persona_id); auto.
        apply Hposts. by apply elem_of_kv_posts.
      * intros c (c' & Hc' & Hpost & ->)%Hcs.
        rewrite <-Hpost in Hc'.
        destruct (Hwf _ _ Hc') as (_ & _ & Htruthy').
        apply (kv_shows_owner s comment.persona_id); auto.
        apply Hcomments. by apply elem_of_kv_comments.
Qed.

Lemma reads_show_a_stored_persona_witness :
  let rqs :=
    [(CreatePersona (persona_req.mk (Some "Ann") None None None), Clock 1 1);
     (CreatePost (post_req.mk (Some "ann") (Some "first") None), Clock 2 2);
     (DeletePersona (Some 1), Clock 3 3)] in
  let d := (Sql.run scheme_of rqs Sql.empty).2 in
  let s := (Kv.run scheme_of rqs ∅).2 in
  (∀ r, r ∈ Sql.list_posts None d →
     shows_owner (Sql.personas d) post.persona_id (row r)) ∧
  (∀ r, r ∈ Kv.list_posts None s →
     shows_owner (Kv.personas s) post.persona_id (row r)) ∧
  (λ r, (persona_name (row r), persona_deleted (row r)))
    <$> Sql.list_posts None d = [("Ann", true)] ∧
  (λ r, (persona_name (row r), persona_deleted (row r)))
    <$> Kv.list_posts None s = [("Ann", true)].
Proof.
  intros rqs d s. split; [|split; [|split]].
  - apply (proj1 (proj1 (reads_show_a_stored_persona scheme_of) d
                    (sql_reachable_run scheme_of _ _ (Sql.reachable_empty _)))
             None).
  - apply (proj1 (proj2 (reads_show_a_stored_persona scheme_of) s
                    (reachable_run scheme_of _ _ (Kv.reachable_empty _)))
             None).
  - reflexivity.
  - vm_compute. reflexivity.
Defined.

(** ** A deleted post is hidden *)

Lemma sql_listed_ids sort d j :
  j ∈ row_id <$> Sql.list_posts sort d ↔
  ∃ p, p ∈ Sql.posts d ∧ post.id p = j ∧ post.deleted_at p = None.
Proof.
  rewrite list_elem_of_fmap. split.
  - intros (r & -> & (p & ? & ? & ->)%sql_list_posts_row). by exists p.
  - intros (p & Hp & <- & Hlive).
    exists (PostRow (Sql.annotate d (post.persona_id p) p)
                    (Sql.count_replies d (post.id p))).
    split; [done|]. unfold Sql.list_posts.
    case_decide; apply elem_of_sort, list_elem_of_fmap; exists p;
      (split; [done|]); by apply list_elem_of_filter.
Qed.

Lemma kv_listed_ids sort (s : Kv.store) j :
  Kv.wf s →
  j ∈ row_id <$> Kv.list_posts sort s ↔
  ∃ p, s !! Kv.post_key j = Some (Kv.VPost p) ∧ post.deleted_at p = None.
Proof.
  intros Hwf. rewrite list_elem_of_fmap. split.
  - intros (r & -> & (p & ? & ? & ->)%kv_list_posts_row); [|done].
    by exists p.
  - intros (p & Hp & Hlive). destruct (Hwf _ _ Hp) as [Hk%post_key_inj _].
    exists (PostRow (Kv.annotate (Kv.getPersona (post.persona_id p) s) p)
                    (length (Kv.db_list (Kv.comment_prefix (post.id p)) s))).
    split; [done|]. unfold Kv.list_posts.
    assert (p ∈ filter (λ p, post.deleted_at p = None)
                  (omap (λ k, Kv.get_post_at k s) (Kv.db_list "post:" s))).
    { apply list_elem_of_filter. split; [done|].
      apply list_elem_of_omap. exists (Kv.post_key j). split.
      - apply elem_of_db_list. split; [by rewrite Hp|].
        unfold Kv.post_key. by prefix_compute.
      - unfold Kv.get_post_at, Kv.db_get. by rewrite Hp. }
    case_decide; apply elem_of_sort, list_elem_of_fmap; by exists p.
Qed.

Lemma sql_deleted_post_lookup d i now :
  Sql.inv d → (Sql.delete_post (Some i) now d).1 = Ok () →
  let d' := (Sql.delete_post (Some i) now d).2 in
  (∃ q, Sql.post_by_id d' i = Some q ∧ is_Some (post.deleted_at q)) ∧
  (∀ q, q ∈ Sql.posts d' → post.id q = i → is_Some (post.deleted_at q)) ∧
  (∀ q, post.id q ≠ i → q ∈ Sql.posts d' ↔ q ∈ Sql.posts d).
Proof.
  intros Hinv. pose proof (inv_delete_post (Some i) now d Hinv) as Hinv'.
  revert Hinv'. rewrite delete_post_final_sql.
  destruct (Sql.post_by_id d i) as [p|] eqn:Hp; [|done].
  destruct (decide (is_Some (post.deleted_at p))) as [Hdel|Hdel]; simpl;
    intros Hinv' _.
  - split_and!; [by eauto| |done].
    intros q Hq Hi. destruct Hinv as (_ & Hids & _).
    pose proof (find_key_unique post.id i _ q Hids Hq Hi) as Hfind.
    unfold Sql.post_by_id in Hp. by simplify_eq.
  - set (g := λ q : post.t, if decide (post.id q = i)
               then post.with_deleted_at (Some (nowIso now)) q else q).
    split_and!.
    + unfold Sql.post_by_id in *. simpl.
      rewrite (find_update post.id g)
        by (intros x; unfold g; by destruct (decide (post.id x = i))).
      rewrite Hp. simpl. eexists; split; [done|].
      apply find_key_Some in Hp as [_ Hi]. unfold g.
      rewrite decide_True by done. by eexists.
    + intros q (q' & -> & _)%list_elem_of_fmap. unfold g.
      destruct (decide (post.id q' = i)); simpl; [by eexists|done].
    + intros q Hi. rewrite list_elem_of_fmap. split.
      * intros (q' & -> & Hq'). revert Hi. unfold g.
        by destruct (decide (post.id q' = i)).
      * intros Hq. exists q. unfold g. by rewrite decide_False.
Qed.

Lemma kv_deleted_post_lookup (s : Kv.store) i now :
  Kv.wf s → (Kv.delete_post (Some i) now s).1 = Ok () →
  let s' := (Kv.delete_post (Some i) now s).2 in
  (∃ q, s' !! Kv.post_key i = Some (Kv.VPost q) ∧
        is_Some (post.deleted_at q)) ∧
  (∀ j, j ≠ i → s' !! Kv.post_key j = s !! Kv.post_key j).
Proof.
  intros Hwf Hok s'.
  destruct (Kv.get_post_at (Kv.post_key i) s) as [p|] eqn:Hp.
  - split.
    + exists (post.with_deleted_at (Some (nowIso now)) p).
      unfold s'. rewrite (kv_delete_post_lookup s i now p) by done.
      rewrite decide_True by done. split; [done|by eexists].
    + intros j Hj. unfold s'.
      rewrite (kv_delete_post_lookup s i now p) by done.
      rewrite decide_False by (by intros ?%post_key_inj).
      by rewrite post_key_no_comment_prefix.
  - revert Hok. rewrite delete_post_final. simpl.
    change ("post:" +:+ pretty i) with (Kv.post_key i). by rewrite Hp.
Qed.

(** X12.  A deleted post is hidden from every read, in both variants, in
    every state the server can reach: once [DELETE /api/posts/:id] has
    answered ok, the detail read of the post answers [NOT_FOUND], no row of
    the listing has its id, a comment on it is refused and stores nothing,
    and the listing shows the same other posts as before. *)
Theorem deleted_post_is_hidden (url_protocol : string → option string) :
  (∀ d i now,
     Sql.reachable url_protocol d →
     (Sql.delete_post (Some i) now d).1 = Ok () →
     let d' := (Sql.delete_post (Some i) now d).2 in
     Sql.get_post (Some i) d' = Err 404 "NOT_FOUND" ∧
     (∀ sort, i ∉ row_id <$> Sql.list_posts sort d') ∧
     (∀ r now', comment_req.post_id r = Some i →
        ∃ status code, Sql.create_comment r now' d' = (Err status code, d')) ∧
     (∀ sort j, j ≠ i →
        j ∈ row_id <$> Sql.list_posts sort d' ↔
        j ∈ row_id <$> Sql.list_posts sort d)) ∧
  (∀ s i now,
     Kv.reachable url_protocol s →
     (Kv.delete_post (Some i) now s).1 = Ok () →
     let s' := (Kv.delete_post (Some i) now s).2 in
     Kv.get_post (Some i) s' = Err 404 "NOT_FOUND" ∧
     (∀ sort, i ∉ row_id <$> Kv.list_posts sort s') ∧
     (∀ r now', comment_req.post_id r = Some i →
        ∃ status code, Kv.create_comment r now' s' = (Err status code, s')) ∧
     (∀ sort j, j ≠ i →
        j ∈ row_id <$> Kv.list_posts sort s' ↔
        j ∈ row_id <$> Kv.list_posts sort s)).
Proof.
  split.
  - intros d i now Hd%(sql_reachable_inv url_protocol) Hok d'.
    destruct (sql_deleted_post_lookup d i now Hd Hok)
      as ((q & Hq & Hdel) & Hall & Hother). fold d' in Hq, Hall, Hother.
    split_and!.
    + unfold Sql.get_post. rewrite Hq. by rewrite decide_True.
    + intros sort (p & Hp & Hi & Hlive)%sql_listed_ids.
      destruct (Hall p Hp Hi) as [ts Hts]. congruence.
    + intros r now' Hr. unfold Sql.create_comment. rewrite Hr, Hq.
      repeat (case_decide || case_match); eauto; by simplify_eq.
    + intros sort j Hj. rewrite !sql_listed_ids.
      split; intros (p & Hp & Hi & Hlive); exists p; split_and!; try done;
        apply Hother; congruence.
  - intros s i now Hs%(reachable_wf url_protocol) Hok s'.
    pose proof (wf_delete_post (Some i) now s Hs) as Hwf'. fold s' in Hwf'.
    destruct (kv_deleted_post_lookup s i now Hs Hok)
      as ((q & Hq & Hdel) & Hother). fold s' in Hq, Hother.
    split_and!.
    + unfold Kv.get_post, Kv.get_post_at, Kv.db_get. simpl.
      change ("post:" +:+ pretty i) with (Kv.post_key i). rewrite Hq. simpl.
      by rewrite decide_True.
    + intros sort (p & Hp & Hlive)%kv_listed_ids; [|done].
      destruct Hdel as [ts Hts]. congruence.
    + intros r now' Hr. unfold Kv.create_comment, Kv.get_post_at, Kv.db_get.
      rewrite Hr, Hq. simpl.
      repeat (case_decide || case_match); eauto; by simplify_eq.
    + intros sort j Hj. rewrite !kv_listed_ids by done.
      by rewrite Hother.
Qed.

Lemma deleted_post_is_hidden_witness :
  let rqs :=
    [(CreatePersona (persona_req.mk (Some "Ann") None None None), Clock 1 1);
     (CreatePost (post_req.mk (Some "ann") (Some "first") None), Clock 2 2);
     (CreatePost (post_req.mk (Some "ann") (Some "second") None), Clock 3 3)] in
  let d := (Sql.run scheme_of rqs Sql.empty).2 in
  let s := (Kv.run scheme_of rqs ∅).2 in
  let d' := (Sql.delete_post (Some 1) (Clock 4 4) d).2 in
  let s' := (Kv.delete_post (Some 2) (Clock 4 4) s).2 in
  Sql.get_post (Some 1) d' = Err 404 "NOT_FOUND" ∧
  Kv.get_post (Some 2) s' = Err 404 "NOT_FOUND" ∧
  row_id <$> Sql.list_posts None d' = [2] ∧
  row_id <$> Kv.list_posts None s' = [3].
Proof.
  intros rqs d s d' s'. split; [|split; [|split]].
  - apply (proj1 (deleted_post_is_hidden scheme_of) d 1 (Clock 4 4)).
    + apply sql_reachable_run, Sql.reachable_empty.
    + reflexivity.
  - apply (proj2 (deleted_post_is_hidden scheme_of) s 2 (Clock 4 4)).
    + apply reachable_run, Kv.reachable_empty.
    + vm_compute. reflexivity.
  - reflexivity.
  - vm_compute. reflexivity.
Defined.

(** ** The persona listing *)

Global Instance personas_order_total : Total Sql.personas_order.
Proof.
  intros a b. unfold Sql.personas_order.
  destruct (total String.le (Js.toLowerCase (persona.name a))
                            (Js.toLowerCase (persona.name b)));
    destruct (persona.deleted_at a), (persona.deleted_at b);
    try (by left; right); try (by right; right);
    try (by left; left); by right; left.
Qed.

Global Instance personas_order_trans : Transitive Sql.personas_order.
Proof.
  intros a b c. unfold Sql.personas_order.
  intros [[Ha Hb]|[Hab Hle]] [[Hb' Hc]|[Hbc Hle']].
  - done.
  - left. split; [done|]. intros Hc. by apply Hb, Hbc.
  - left. split; [by apply Hab|done].
  - right. split; [by rewrite Hab|by etrans].
Qed.

Lemma sorted_tail {A} (R : relation A) l1 a l2 :
  StronglySorted R (l1 ++ a :: l2) → Forall (R a) l2.
Proof.
  intros (_ & _ & H)%StronglySorted_app. by apply StronglySorted_cons in H as [? _].
Qed.

Lemma wf_entry_persona_prefix k v :
  Kv.wf_entry k v →
  String.prefix "persona:" k = bool_decide (is_Some (Kv.as_persona v)).
Proof.
  destruct v as [p|n|p|c]; intros H; cbn [Kv.wf_entry] in H.
  - destruct H as [-> _]. rewrite bool_decide_eq_true_2 by (by eexists).
    apply (prefix_app_l "persona:").
  - apply prefix_inv in H as [x ->].
    rewrite bool_decide_eq_false_2 by (by intros [? ?]). by prefix_compute.
  - destruct H as [-> _]. rewrite bool_decide_eq_false_2 by (by intros [? ?]).
    unfold Kv.post_key. by prefix_compute.
  - destruct H as [-> _]. rewrite bool_decide_eq_false_2 by (by intros [? ?]).
    unfold Kv.comment_key, Kv.comment_prefix. by prefix_compute.
Qed.

Lemma kv_personas_listed (s : Kv.store) :
  Kv.wf s →
  omap (λ k, Kv.get_persona k s) (Kv.db_list "persona:" s) ≡ₚ Kv.personas s.
Proof.
  intros Hwf. rewrite db_list_Permutation. unfold Kv.get_persona, Kv.personas.
  rewrite omap_get_entries by apply lookup_filter_entries.
  rewrite (omap_filter_entries _ _ (λ _, True)).
  { rewrite filter_all; [done|]. by apply Forall_forall. }
  eapply Forall_impl; [by apply wf_entries|]. intros [k v] Hkv; simpl in *.
  rewrite (wf_entry_persona_prefix _ _ Hkv).
  destruct (Kv.as_persona v); rewrite ?bool_decide_eq_true_2 by eauto; [done|].
  rewrite bool_decide_eq_false_2; [done|]. by intros [??].
Qed.

Section locale.
Context (localeCompare : string → string → Z).
Context (Htotal : ∀ a b, localeCompare a b ≤ 0 ∨ localeCompare b a ≤ 0).
Context (Htrans : ∀ a b c, localeCompare a b ≤ 0 → localeCompare b c ≤ 0 →
                           localeCompare a c ≤ 0).

Lemma personas_le_total : Total (Kv.personas_le localeCompare).
Proof.
  intros a b. unfold Kv.personas_le, Kv.personas_cmp.
  destruct (Htotal (persona.name a) (persona.name b));
    destruct (bool_decide (is_Some (persona.deleted_at a))),
      (bool_decide (is_Some (persona.deleted_at b))); simpl; auto with lia.
Qed.

Lemma personas_le_trans : Transitive (Kv.personas_le localeCompare).
Proof.
  intros a b c. unfold Kv.personas_le, Kv.personas_cmp.
  pose proof (Htrans (persona.name a) (persona.name b) (persona.name c)).
  destruct (bool_decide (is_Some (persona.deleted_at a))),
    (bool_decide (is_Some (persona.deleted_at b))),
    (bool_decide (is_Some (persona.deleted_at c))); simpl; auto with lia.
Qed.

End locale.

(** X13.  [GET /api/personas] of the SQLite variant returns every stored
    persona once, the deleted ones too, ordered by the two keys of the
    query: the personas that are not deleted come first, and within each
    group the names ascend in the order that ignores the case of the ASCII
    letters. *)
Theorem sql_list_personas_order d :
  Sql.list_personas d ≡ₚ Sql.personas d ∧
  StronglySorted Sql.personas_order (Sql.list_personas d) ∧
  (∀ l1 a l2, Sql.list_personas d = l1 ++ a :: l2 →
     (persona.deleted_at a ≠ None →
      Forall (λ b, persona.deleted_at b ≠ None) l2) ∧
     Forall (λ b, (persona.deleted_at a = None ↔ persona.deleted_at b = None) →
                  String.le (Js.toLowerCase (persona.name a))
                            (Js.toLowerCase (persona.name b))) l2).
Proof.
  unfold Sql.list_personas. split_and!.
  - apply sort_Permutation.
  - apply sort_StronglySorted; apply _.
  - intros l1 a l2 Hl.
    pose proof (sort_StronglySorted Sql.personas_order (Sql.personas d))
      as Hsorted.
    rewrite Hl in Hsorted. apply sorted_tail in Hsorted. split.
    + intros Ha. eapply Forall_impl; [exact Hsorted|].
      intros b [[? ?]|[Hab _]]; [done|]. intros Hb. by apply Ha, Hab.
    + eapply Forall_impl; [exact Hsorted|].
      intros b [[Ha Hb]|[_ ?]] Hab; [|done]. by destruct Hb; apply Hab.
Qed.

(** X14.  [GET /api/personas] of the key-value variant, in every store the
    server can reach and for a [localeCompare] that is a total preorder:
    the answer holds every stored persona once, the deleted ones too,
    ordered by the comparator of the handler; the personas that are not
    deleted come first, and within each group the names ascend by
    [localeCompare]. *)
Theorem kv_list_personas_order (url_protocol : string → option string)
    (localeCompare : string → string → Z) s :
  Kv.reachable url_protocol s →
  (∀ a b, localeCompare a b ≤ 0 ∨ localeCompare b a ≤ 0) →
  (∀ a b c, localeCompare a b ≤ 0 → localeCompare b c ≤ 0 →
            localeCompare a c ≤ 0) →
  Kv.list_personas localeCompare s ≡ₚ Kv.personas s ∧
  StronglySorted (Kv.personas_le localeCompare)
                 (Kv.list_personas localeCompare s) ∧
  (∀ l1 a l2, Kv.list_personas localeCompare s = l1 ++ a :: l2 →
     (persona.deleted_at a ≠ None →
      Forall (λ b, persona.deleted_at b ≠ None) l2) ∧
     Forall (λ b, (persona.deleted_at a = None ↔ persona.deleted_at b = None) →
                  localeCompare (persona.name a) (persona.name b) ≤ 0) l2).
Proof.
  intros Hs%reachable_wf Htotal Htrans.
  pose proof (personas_le_total localeCompare Htotal) as Htot.
  pose proof (personas_le_trans localeCompare Htrans) as Htr.
  assert (StronglySorted (Kv.personas_le localeCompare)
            (Kv.list_personas localeCompare s)) as Hsorted.
  { unfold Kv.list_personas. by apply sort_StronglySorted. }
  split_and!; [|done|].
  - unfold Kv.list_personas. rewrite sort_Permutation.
    by apply kv_personas_listed.
  - intros l1 a l2 Hl. rewrite Hl in Hsorted. apply sorted_tail in Hsorted.
    split.
    + intros Ha. eapply Forall_impl; [exact Hsorted|].
      intros b. unfold Kv.personas_le, Kv.personas_cmp.
      destruct (persona.deleted_at a), (persona.deleted_at b); simpl;
        try done; lia.
    + eapply Forall_impl; [exact Hsorted|].
      intros b. unfold Kv.personas_le, Kv.personas_cmp.
      destruct (persona.deleted_at a), (persona.deleted_at b); simpl;
        intros H [H1 H2]; try done; try lia; by specialize (H1 eq_refl).
Qed.

Lemma kv_list_personas_order_witness :
  let s := (Kv.run scheme_of
     [(CreatePersona (persona_req.mk (Some "Bob") None None None), Clock 1 1);
      (CreatePersona (persona_req.mk (Some "Ann") None None None), Clock 2 2);
      (CreatePersona (persona_req.mk (Some "Cid") None None None), Clock 3 3);
      (CreatePersona (persona_req.mk (Some "Abe") None None None), Clock 4 4);
      (DeletePersona (Some 4), Clock 5 5);
      (DeletePersona (Some 1), Clock 6 6)] ∅).2 in
  Kv.list_personas byte_compare s ≡ₚ Kv.personas s ∧
  StronglySorted (Kv.personas_le byte_compare)
                 (Kv.list_personas byte_compare s) ∧
  (λ p, (persona.name p, persona.deleted_at p))
    <$> Kv.list_personas byte_compare s
  = [("Ann", None); ("Cid", None); ("Abe", Some 5); ("Bob", Some 6)].
Proof.
  intros s.
  assert (∀ a b, byte_compare a b ≤ 0 ∨ byte_compare b a ≤ 0) as Htotal.
  { intros a b. unfold byte_compare.
    destruct (decide (a = b)) as [->|Hne]; [rewrite decide_True by done; lia|].
    rewrite (decide_False (P := b = a)) by congruence.
    destruct (total String.le a b).
    - rewrite (decide_True (P := String.le a b)) by done. lia.
    - rewrite (decide_True (P := String.le b a)) by done. lia. }
  assert (∀ a b c, byte_compare a b ≤ 0 → byte_compare b c ≤ 0 →
                   byte_compare a c ≤ 0) as Htrans.
  { intros a b c. unfold byte_compare. intros Hab Hbc.
    assert (String.le a b) as Hle1.
    { destruct (decide (a = b)) as [->|]; [done|].
      destruct (decide (String.le a b)); [done|lia]. }
    assert (String.le b c) as Hle2.
    { destruct (decide (b = c)) as [->|]; [done|].
      destruct (decide (String.le b c)); [done|lia]. }
    destruct (decide (a = c)); [lia|].
    rewrite decide_True; [lia|by etrans]. }
  destruct (kv_list_personas_order scheme_of byte_compare s
              (reachable_run scheme_of _ _ (Kv.reachable_empty _))
              Htotal Htrans) as (Hperm & Hsorted & _).
  split; [exact Hperm|]. split; [exact Hsorted|].
  vm_compute. reflexivity.
Defined.

(** ** A new comment *)

Lemma sql_create_comment_ok r now d id d' :
  Sql.create_comment r now d = (Ok id, d') →
  ∃ postId p per,
    comment_req.post_id r = Some postId ∧
    p ∈ Sql.posts d ∧ post.id p = postId ∧ post.deleted_at p = None ∧
    per ∈ Sql.personas d ∧ persona.deleted_at per = None ∧
    id = Sql.autoincrement (Sql.comments_seq d) (comment.id <$> Sql.comments d) ∧
    d' = Sql.mk_db (Sql.personas d) (Sql.personas_seq d)
           (Sql.posts d) (Sql.posts_seq d)
           (Sql.comments d ++
              [comment.mk id postId (Some (persona.id per))
                 (Js.field (comment_req.content r))
                 (mjoin (comment_req.reply_to_comment_id r))
                 (nowIso now) None])
           id.
Proof.
  unfold Sql.create_comment.
  destruct (comment_req.post_id r) as [postId|]; [|done].
  destruct (decide (Js.field (comment_req.persona_name r) = "")); [done|].
  destruct (decide (Js.field (comment_req.content r) = "")); [done|].
  destruct (decide (comment_req.reply_to_comment_id r = Some None)); [done|].
  destruct (Sql.post_by_id d postId) as [p|] eqn:Hp; [|done].
  destruct (decide (is_Some (post.deleted_at p))) as [|Hdel]; [done|].
  destruct (Sql.persona_by_name d _) as [per|] eqn:Hper; [|done].
  destruct (decide (is_Some (persona.deleted_at per))) as [|Hdel']; [done|].
  destruct (negb _); [done|]. intros [= <- <-].
  apply find_key_Some in Hp as [Hp Hid].
  apply persona_by_name_Some in Hper as [Hper _].
  exists postId, p, per. split_and!; try done.
  - destruct (post.deleted_at p); [by destruct Hdel|done].
  - destruct (persona.deleted_at per); [by destruct Hdel'|done].
Qed.

Lemma kv_create_comment_ok r now (s : Kv.store) id s' :
  Kv.wf s →
  Kv.create_comment r now s = (Ok id, s') →
  ∃ postId p n,
    comment_req.post_id r = Some postId ∧
    s !! Kv.post_key postId = Some (Kv.VPost p) ∧ post.id p = postId ∧
    post.deleted_at p = None ∧
    n ≠ 0 ∧ id = Date_now now ∧
    s' = <[Kv.comment_key postId id :=
             Kv.VComment
               (comment.mk id postId (Some n)
                  (Js.field (comment_req.content r))
                  (mjoin (comment_req.reply_to_comment_id r))
                  (nowIso now) None)]> s.
Proof.
  intros Hwf. unfold Kv.create_comment.
  destruct (comment_req.post_id r) as [postId|]; [|done].
  destruct (bool_decide _ || bool_decide _ || bool_decide _); [done|].
  destruct (Kv.get_post_at _ s) as [p|] eqn:Hp; [|done].
  destruct (decide (is_Some (post.deleted_at p))) as [|Hdel]; [done|].
  destruct (negb (Js.truthy_num _)) eqn:Hper; [done|].
  apply negb_false_iff, truthy_num_Some in Hper as (n & Hn & Hn0).
  rewrite Hn. intros [= <- <-].
  apply wf_get_post in Hp as (Hp & Hk%post_key_inj & _); [|done].
  exists postId, p, n. split_and!; try done.
  destruct (post.deleted_at p); [by destruct Hdel|done].
Qed.

Lemma db_list_insert_fresh pre k v (s : Kv.store) :
  s !! k = None →
  length (Kv.db_list pre (<[k := v]> s))
  = if String.prefix pre k then S (length (Kv.db_list pre s))
    else length (Kv.db_list pre s).
Proof.
  intros Hk. rewrite !db_list_Permutation, !length_fmap.
  rewrite (map_to_list_insert s k v Hk), filter_cons. simpl.
  destruct (String.prefix pre k); [by rewrite decide_True|].
  by rewrite decide_False.
Qed.

Lemma db_list_insert_present pre k v (s : Kv.store) :
  is_Some (s !! k) →
  length (Kv.db_list pre (<[k := v]> s)) = length (Kv.db_list pre s).
Proof.
  intros [w Hw]. pose proof (insert_delete_id s k w Hw) as Hs.
  rewrite <-(insert_delete_eq s k v).
  rewrite db_list_insert_fresh by apply lookup_delete_eq.
  rewrite <-(db_list_insert_fresh pre k w (delete k s))
    by apply lookup_delete_eq.
  by rewrite Hs.
Qed.

(** X15.  A comment that has been accepted is there to be read: in every
    state the server can reach, after [POST /api/comments] has answered ok
    with an id, the detail read of the post returns a comment with that
    id, the trimmed content, the reply target and the time of the request,
    and the listing counts it.  In the SQLite variant the reply count of
    the post goes up by one and no other count changes; in the key-value
    variant it goes up by one unless the id, which is the clock reading,
    is already the id of a comment of the post, which is then
    overwritten. *)
Theorem created_comment_is_read (url_protocol : string → option string) :
  (∀ d r now id d',
     Sql.reachable url_protocol d →
     Sql.create_comment r now d = (Ok id, d') →
     ∃ postId, comment_req.post_id r = Some postId ∧
       (∃ a cs c, Sql.get_post (Some postId) d' = Ok (a, cs) ∧ c ∈ cs ∧
          comment.id (entity c) = id ∧
          comment.content (entity c) = Js.field (comment_req.content r) ∧
          comment.reply_to_comment_id (entity c)
            = mjoin (comment_req.reply_to_comment_id r) ∧
          comment.created_at (entity c) = nowIso now) ∧
       (∀ sort row', row' ∈ Sql.list_posts sort d' →
          reply_count row'
          = if decide (row_id row' = postId)
            then S (Sql.count_replies d postId)
            else Sql.count_replies d (row_id row'))) ∧
  (∀ s r now id s',
     Kv.reachable url_protocol s →
     Kv.create_comment r now s = (Ok id, s') →
     ∃ postId, comment_req.post_id r = Some postId ∧
       (∃ a cs c, Kv.get_post (Some postId) s' = Ok (a, cs) ∧ c ∈ cs ∧
          comment.id (entity c) = id ∧
          comment.content (entity c) = Js.field (comment_req.content r) ∧
          comment.reply_to_comment_id (entity c)
            = mjoin (comment_req.reply_to_comment_id r) ∧
          comment.created_at (entity c) = nowIso now) ∧
       (∀ sort row', row' ∈ Kv.list_posts sort s' →
          reply_count row'
          = if decide (row_id row' = postId ∧
                       s !! Kv.comment_key postId id = None)
            then S (length (Kv.db_list (Kv.comment_prefix postId) s))
            else length (Kv.db_list (Kv.comment_prefix (row_id row')) s))).
Proof.
  split.
  - intros d r now id d' Hd%(sql_reachable_inv url_protocol) Hok.
    pose proof (inv_create_comment r now d Hd) as Hinv'.
    rewrite Hok in Hinv'. simpl in Hinv'.
    apply sql_create_comment_ok in Hok
      as (postId & p & per & Hr & Hp & Hpid & Hlive & _ & _ & _ & ->).
    exists postId. split; [done|]. split.
    + set (c := comment.mk id postId (Some (persona.id per))
                  (Js.field (comment_req.content r))
                  (mjoin (comment_req.reply_to_comment_id r)) (nowIso now) None).
      destruct (proj2 (sql_detail_ok _ postId Hinv') p Hp Hpid Hlive)
        as (a & cs & Hget & _ & _ & Hcs).
      assert (c ∈ entity <$> cs) as (c' & Hc' & ?)%list_elem_of_fmap.
      { rewrite Hcs. apply list_elem_of_filter. split; [done|].
        simpl. apply elem_of_app. right. by apply list_elem_of_singleton. }
      exists a, cs, c'. rewrite <-Hc'. by split_and!.
    + intros sort row' (q & _ & _ & ->)%sql_list_posts_row. simpl.
      unfold row_id, Sql.count_replies. simpl.
      rewrite filter_app, length_app, filter_cons, filter_nil. simpl.
      destruct (decide (post.id q = postId)) as [->|Hne].
      * rewrite decide_True by done. simpl. lia.
      * rewrite decide_False by (intros [? ?]; congruence). simpl. lia.
  - intros s r now id s' Hs%(reachable_wf url_protocol) Hok.
    pose proof (wf_create_comment r now s Hs) as Hwf'.
    rewrite Hok in Hwf'. simpl in Hwf'.
    apply kv_create_comment_ok in Hok
      as (postId & p & n & Hr & Hp & Hpid & Hlive & _ & _ & ->); [|done].
    exists postId. split; [done|]. split.
    + set (c := comment.mk id postId (Some n)
                  (Js.field (comment_req.content r))
                  (mjoin (comment_req.reply_to_comment_id r)) (nowIso now) None).
      assert (p ∈ Kv.posts (<[Kv.comment_key postId id := Kv.VComment c]> s))
        as Hp'.
      { apply elem_of_kv_posts; [done|]. rewrite Hpid.
        rewrite lookup_insert_ne; [done|].
        intros Heq. by destruct (post_key_not_comment postId postId id). }
      destruct (proj2 (kv_detail_ok _ postId Hwf') p Hp' Hpid Hlive)
        as (a & cs & Hget & _ & _ & Hcs).
      assert (c ∈ entity <$> cs) as (c' & Hc' & ?)%list_elem_of_fmap.
      { rewrite Hcs. apply list_elem_of_filter. split; [done|].
        apply elem_of_kv_comments; [done|]. simpl.
        by rewrite lookup_insert_eq. }
      exists a, cs, c'. rewrite <-Hc'. by split_and!.
    + intros sort row' (q & _ & _ & ->)%kv_list_posts_row; [|done]. simpl.
      unfold row_id. simpl.
      destruct (s !! Kv.comment_key postId id) as [w|] eqn:Hw.
      * rewrite db_list_insert_present by (by rewrite Hw).
        rewrite decide_False; [done|]. by intros [_ ?].
      * rewrite db_list_insert_fresh by done.
        destruct (decide (post.id q = postId)) as [->|Hne].
        -- rewrite (proj2 (comment_prefix_key _ _ _) eq_refl).
           by rewrite decide_True.
        -- rewrite decide_False by (by intros [? _]).
           destruct (String.prefix _ _) eqn:Hpre; [|done].
           by apply comment_prefix_key in Hpre.
Qed.

Lemma created_comment_is_read_witness :
  let rqs :=
    [(CreatePersona (persona_req.mk (Some "Ann") None None None), Clock 1 1);
     (CreatePost (post_req.mk (Some "ann") (Some "first") None), Clock 2 2)] in
  let d := (Sql.run scheme_of rqs Sql.empty).2 in
  let s := (Kv.run scheme_of rqs ∅).2 in
  let d' := (Sql.create_comment
               (comment_req.mk (Some 1) (Some "ann") (Some " re ") None)
               (Clock 3 3) d).2 in
  let s' := (Kv.create_comment
               (comment_req.mk (Some 2) (Some "ann") (Some " re ") None)
               (Clock 3 3) s).2 in
  (∀ row', row' ∈ Sql.list_posts None d' →
     reply_count row'
     = if decide (row_id row' = 1) then S (Sql.count_replies d 1)
       else Sql.count_replies d (row_id row')) ∧
  (∀ row', row' ∈ Kv.list_posts None s' →
     reply_count row'
     = if decide (row_id row' = 2 ∧ s !! Kv.comment_key 2 3 = None)
       then S (length (Kv.db_list (Kv.comment_prefix 2) s))
       else length (Kv.db_list (Kv.comment_prefix (row_id row')) s)) ∧
  reply_count <$> Sql.list_posts None d' = [1%nat] ∧
  reply_count <$> Kv.list_posts None s' = [1%nat].
Proof.
  intros rqs d s d' s'. split; [|split; [|split]].
  - destruct (proj1 (created_comment_is_read scheme_of) d
                (comment_req.mk (Some 1) (Some "ann") (Some " re ") None)
                (Clock 3 3) 1 d'
                (sql_reachable_run scheme_of _ _ (Sql.reachable_empty _))
                eq_refl) as (postId & [= <-] & _ & Hcount).
    apply Hcount.
  - destruct (proj2 (created_comment_is_read scheme_of) s
                (comment_req.mk (Some 2) (Some "ann") (Some " re ") None)
                (Clock 3 3) 3 s'
                (reachable_run scheme_of _ _ (Kv.reachable_empty _))
                eq_refl) as (postId & [= <-] & _ & Hcount).
    apply Hcount.
  - reflexivity.
  - vm_compute. reflexivity.
Defined.

(** ** A new post *)

Lemma filter_none {A} (P : A → Prop) `{∀ x, Decision (P x)} (l : list A) :
  Forall (λ x, ¬ P x) l → filter P l = [].
Proof.
  induction 1 as [|x l ? _ IH]; [done|]. by rewrite filter_cons_False.
Qed.

Lemma sql_create_post_ok (url_protocol : string → option string)
    r now d id d' :
  Sql.create_post url_protocol r now d = (Ok id, d') →
  ∃ per,
    Sql.persona_by_name d (Js.field (post_req.persona_name r)) = Some per ∧
    persona.deleted_at per = None ∧
    id = Sql.autoincrement (Sql.posts_seq d) (post.id <$> Sql.posts d) ∧
    d' = Sql.mk_db (Sql.personas d) (Sql.personas_seq d)
           (Sql.posts d ++
              [post.mk id (Some (persona.id per))
                 (Js.field (post_req.content r))
                 (Js.or_null (Js.field (post_req.image_url r)))
                 (nowIso now) None])
           id (Sql.comments d) (Sql.comments_seq d).
Proof.
  unfold Sql.create_post.
  destruct (decide (Js.field (post_req.persona_name r) = "")); [done|].
  destruct (decide (Js.field (post_req.content r) = "")); [done|].
  destruct (bool_decide _ && negb _); [done|].
  destruct (Sql.persona_by_name d _) as [per|] eqn:Hper; [|done].
  destruct (decide (is_Some (persona.deleted_at per))) as [|Hdel]; [done|].
  intros [= <- <-]. exists per. split_and!; try done.
  destruct (persona.deleted_at per); [by destruct Hdel|done].
Qed.

Lemma kv_create_post_ok (url_protocol : string → option string)
    r now (s : Kv.store) id s' :
  Kv.create_post url_protocol r now s = (Ok id, s') →
  ∃ n,
    Kv.get_id (Kv.name_key (Js.field (post_req.persona_name r))) s = Some n ∧
    n ≠ 0 ∧ id = Date_now now ∧
    s' = <[Kv.post_key id :=
             Kv.VPost (post.mk id (Some n) (Js.field (post_req.content r))
                         (Js.or_null (Js.field (post_req.image_url r)))
                         (nowIso now) None)]> s.
Proof.
  unfold Kv.create_post.
  destruct (bool_decide _ || bool_decide _); [done|].
  destruct (bool_decide _ && negb _); [done|].
  destruct (negb (Js.truthy_num _)) eqn:Hper; [done|].
  apply negb_false_iff, truthy_num_Some in Hper as (n & Hn & Hn0).
  rewrite Hn. intros [= <- <-]. by exists n.
Qed.

(** X16.  A post that has been accepted is there to be read: in every
    state the server can reach, after [POST /api/posts] has answered ok
    with an id, the detail read of that id returns the post with the
    trimmed content, the image URL (null when blank) and the time of the
    request, and every listing has a row for it.  In the SQLite variant
    the post has no comments yet, is counted with no replies, and is shown
    under the stored name of the live persona that the name resolved to. *)
Theorem created_post_is_read (url_protocol : string → option string) :
  (∀ d r now id d',
     Sql.reachable url_protocol d →
     Sql.create_post url_protocol r now d = (Ok id, d') →
     ∃ a per,
       Sql.get_post (Some id) d' = Ok (a, []) ∧
       Sql.persona_by_name d (Js.field (post_req.persona_name r)) = Some per ∧
       entity a = post.mk id (Some (persona.id per))
                    (Js.field (post_req.content r))
                    (Js.or_null (Js.field (post_req.image_url r)))
                    (nowIso now) None ∧
       persona_name a = persona.name per ∧
       persona_avatar_url a = Js.of_nullable (persona.avatar_url per) ∧
       persona_deleted a = false ∧
       ∀ sort, PostRow a 0 ∈ Sql.list_posts sort d') ∧
  (∀ s r now id s',
     Kv.reachable url_protocol s →
     Kv.create_post url_protocol r now s = (Ok id, s') →
     ∃ a cs n,
       Kv.get_post (Some id) s' = Ok (a, cs) ∧
       entity a = post.mk id (Some n)
                    (Js.field (post_req.content r))
                    (Js.or_null (Js.field (post_req.image_url r)))
                    (nowIso now) None ∧
       ∀ sort, id ∈ row_id <$> Kv.list_posts sort s').
Proof.
  split.
  - intros d r now id d' Hd Hok.
    pose proof (sql_reachable_inv _ _ Hd) as Hinv.
    pose proof (inv_create_post url_protocol r now d Hinv) as Hinv'.
    rewrite Hok in Hinv'. simpl in Hinv'.
    destruct (sql_refs_reachable _ _ Hd) as [_ Hrefs].
    apply sql_create_post_ok in Hok as (per & Hper & Hlive & Hid & ->).
    set (p := post.mk id (Some (persona.id per)) (Js.field (post_req.content r))
                (Js.or_null (Js.field (post_req.image_url r)))
                (nowIso now) None) in *.
    set (d' := Sql.mk_db _ _ _ _ _ _) in *.
    assert (Sql.post_by_id d' id = Some p) as Hfind.
    { apply (find_key_unique post.id); [apply Hinv'| |done].
      apply elem_of_app. right. by apply list_elem_of_singleton. }
    assert (Sql.persona_by_id d' (persona.id per) = Some per) as Hfind'.
    { apply persona_by_name_Some in Hper as [Hin _].
      apply (find_key_unique persona.id); [apply Hinv'|done..]. }
    assert (filter (λ c, comment.post_id c = id ∧ comment.deleted_at c = None)
              (Sql.comments d') = []) as Hnone.
    { apply filter_none, Forall_forall. intros c Hc [Hpost _].
      destruct (Hrefs c Hc) as (_ & (q & Hq & Hqid & _) & _).
      destruct (autoincrement_above (Sql.posts_seq d) (post.id <$> Sql.posts d))
        as [_ Habove].
      assert (post.id q < id); [|lia]. rewrite Hid.
      apply (proj1 (Forall_forall _ _) Habove), list_elem_of_fmap. by exists q. }
    assert (Sql.annotate d' (Some (persona.id per)) p
            = Annotated p (persona.name per)
                (Js.of_nullable (persona.avatar_url per)) false) as Hann.
    { unfold Sql.annotate. simpl. rewrite Hfind'. simpl. by rewrite Hlive. }
    exists (Annotated p (persona.name per)
              (Js.of_nullable (persona.avatar_url per)) false), per.
    split_and!; try done.
    + unfold Sql.get_post. rewrite Hfind. simpl. simpl in Hnone.
      rewrite Hnone. simpl. by rewrite Hann.
    + intros sort. unfold Sql.list_posts.
      assert (PostRow (Annotated p (persona.name per)
                         (Js.of_nullable (persona.avatar_url per)) false) 0
              ∈ (λ q, PostRow (Sql.annotate d' (post.persona_id q) q)
                        (Sql.count_replies d' (post.id q)))
                  <$> filter (λ q, post.deleted_at q = None) (Sql.posts d')).
      { apply list_elem_of_fmap. exists p. split.
        - simpl. rewrite Hann. f_equal. unfold Sql.count_replies.
          simpl in Hnone. simpl. by rewrite Hnone.
        - apply list_elem_of_filter. split; [done|].
          apply elem_of_app. right. by apply list_elem_of_singleton. }
      case_decide; by apply elem_of_sort.
  - intros s r now id s' Hs%(reachable_wf url_protocol) Hok.
    pose proof (wf_create_post url_protocol r now s Hs) as Hwf'.
    rewrite Hok in Hwf'. simpl in Hwf'.
    apply kv_create_post_ok in Hok as (n & _ & _ & _ & ->).
    set (p := post.mk id (Some n) (Js.field (post_req.content r))
                (Js.or_null (Js.field (post_req.image_url r)))
                (nowIso now) None) in *.
    assert (p ∈ Kv.posts (<[Kv.post_key id := Kv.VPost p]> s)) as Hp.
    { apply elem_of_kv_posts; [done|]. simpl. by rewrite lookup_insert_eq. }
    destruct (proj2 (kv_detail_ok _ id Hwf') p Hp eq_refl eq_refl)
      as (a & cs & Hget & Ha & _).
    exists a, cs, n. split_and!; try done.
    intros sort. apply kv_listed_ids; [done|]. exists p.
    by rewrite lookup_insert_eq.
Qed.

Lemma created_post_is_read_witness :
  let rqs :=
    [(CreatePersona (persona_req.mk (Some "Ann") (Some "http://a/b.png")
                                    None None), Clock 1 1)] in
  let d := (Sql.run scheme_of rqs Sql.empty).2 in
  let s := (Kv.run scheme_of rqs ∅).2 in
  let r := post_req.mk (Some "ANN") (Some " hello ") (Some " ") in
  let d' := (Sql.create_post scheme_of r (Clock 2 2) d).2 in
  let s' := (Kv.create_post scheme_of r (Clock 2 2) s).2 in
  (∃ a per,
     Sql.get_post (Some 1) d' = Ok (a, []) ∧
     Sql.persona_by_name d "ANN" = Some per ∧
     entity a = post.mk 1 (Some (persona.id per)) "hello" None 2 None ∧
     persona_name a = persona.name per ∧
     persona_avatar_url a = Js.of_nullable (persona.avatar_url per) ∧
     persona_deleted a = false ∧
     ∀ sort, PostRow a 0 ∈ Sql.list_posts sort d') ∧
  (∃ a cs n,
     Kv.get_post (Some 2) s' = Ok (a, cs) ∧
     entity a = post.mk 2 (Some n) "hello" None 2 None ∧
     ∀ sort, 2 ∈ row_id <$> Kv.list_posts sort s').
Proof.
  intros rqs d s r d' s'. split.
  - apply (proj1 (created_post_is_read scheme_of) d r (Clock 2 2) 1 d').
    + apply sql_reachable_run, Sql.reachable_empty.
    + reflexivity.
  - apply (proj2 (created_post_is_read scheme_of) s r (Clock 2 2) 2 s').
    + apply reachable_run, Kv.reachable_empty.
    + reflexivity.
Defined.

(** ** Deleting a persona keeps its posts and comments *)

Lemma insert_sorted_fmap {A B} (leA : relation A) (leB : relation B)
    `{!RelDecision leA, !RelDecision leB} (f : A → B) x l :
  (∀ a b, leB (f a) (f b) ↔ leA a b) →
  Js.insert_sorted leB (f x) (f <$> l) = f <$> Js.insert_sorted leA x l.
Proof.
  intros Hf. induction l as [|y l IH]; [done|]. csimpl.
  destruct (decide (leA x y)) as [Hxy|Hxy].
  - by rewrite decide_True by (by apply Hf).
  - rewrite decide_False by (by rewrite Hf). csimpl. by rewrite IH.
Qed.

Lemma sort_fmap {A B} (leA : relation A) (leB : relation B)
    `{!RelDecision leA, !RelDecision leB} (f : A → B) l :
  (∀ a b, leB (f a) (f b) ↔ leA a b) →
  Js.sort leB (f <$> l) = f <$> Js.sort leA l.
Proof.
  intros Hf. unfold Js.sort. induction l as [|x l IH]; [done|]. csimpl.
  rewrite IH. by apply insert_sorted_fmap.
Qed.

Lemma flag_deleted_entity {A} i (f : A → option Z) a :
  entity (flag_deleted i f a) = entity a.
Proof. unfold flag_deleted. by case_decide. Qed.

Lemma by_hot_flag i a b : by_hot (flag_row i a) (flag_row i b) ↔ by_hot a b.
Proof.
  unfold by_hot, row_created_at, flag_row. simpl.
  by rewrite !flag_deleted_entity.
Qed.

Lemma by_new_flag i a b : by_new (flag_row i a) (flag_row i b) ↔ by_new a b.
Proof.
  unfold by_new, row_created_at, flag_row. simpl.
  by rewrite !flag_deleted_entity.
Qed.

Lemma sql_annotate_flag {A} d i now p (f : A → option Z) (x : A) :
  Sql.persona_by_id d i = Some p →
  Sql.annotate (Sql.delete_persona (Some i) now d).2 (f x) x
  = flag_deleted i f (Sql.annotate d (f x) x).
Proof.
  intros Hp. unfold Sql.delete_persona. rewrite Hp.
  pose proof (find_key_Some persona.id i _ p Hp) as [_ Hi].
  unfold flag_deleted. simpl.
  destruct (decide (is_Some (persona.deleted_at p))) as [[ts Hdel]|Hdel]; simpl.
  - case_decide as Hf; [|done]. unfold Sql.annotate. rewrite Hf. simpl.
    rewrite Hp. simpl. by rewrite Hdel.
  - unfold Sql.annotate, Sql.persona_by_id in *. simpl.
    destruct (f x) as [j|]; simpl; [|done].
    rewrite (find_update persona.id
               (λ q, if decide (persona.id q = i)
                     then persona.with_deleted_at (Some (nowIso now)) q else q))
      by (intros q; by destruct (decide (persona.id q = i))).
    destruct (decide (Some j = Some i)) as [[= ->]|Hne].
    + rewrite Hp. simpl. by rewrite decide_True by done.
    + destruct (find (λ y, bool_decide (persona.id y = j)) (Sql.personas d))
        as [q|] eqn:Hq; [|done]. simpl.
      apply find_key_Some in Hq as [_ Hj].
      rewrite decide_False; [done|]. congruence.
Qed.

Lemma sql_delete_persona_keeps d i now :
  (Sql.delete_persona (Some i) now d).1 = Ok () →
  let d' := (Sql.delete_persona (Some i) now d).2 in
  Sql.posts d' = Sql.posts d ∧ Sql.comments d' = Sql.comments d ∧
  (∀ sort, Sql.list_posts sort d' = flag_row i <$> Sql.list_posts sort d) ∧
  (∀ j, Sql.get_post j d' = flag_detail i (Sql.get_post j d)).
Proof.
  intros Hok d'.
  destruct (Sql.persona_by_id d i) as [p|] eqn:Hp;
    [|by unfold Sql.delete_persona in Hok; rewrite Hp in Hok].
  assert (Sql.posts d' = Sql.posts d ∧ Sql.comments d' = Sql.comments d)
    as [Hposts Hcomments].
  { unfold d', Sql.delete_persona. rewrite Hp. by case_decide. }
  assert (∀ j, Sql.count_replies d' j = Sql.count_replies d j) as Hcount.
  { intros j. unfold Sql.count_replies. by rewrite Hcomments. }
  split_and!; [done|done|..].
  - intros sort. unfold Sql.list_posts. rewrite Hposts.
    assert ((λ q, PostRow (Sql.annotate d' (post.persona_id q) q)
                          (Sql.count_replies d' (post.id q)))
              <$> filter (λ q, post.deleted_at q = None) (Sql.posts d)
            = flag_row i <$>
                ((λ q, PostRow (Sql.annotate d (post.persona_id q) q)
                               (Sql.count_replies d (post.id q)))
                   <$> filter (λ q, post.deleted_at q = None) (Sql.posts d)))
      as ->.
    { rewrite <-list_fmap_compose. apply list_fmap_ext. intros _ q _. simpl.
      unfold flag_row. simpl. rewrite Hcount. f_equal.
      apply (sql_annotate_flag d i now p post.persona_id q Hp). }
    case_decide.
    + apply sort_fmap, by_hot_flag.
    + apply sort_fmap, by_new_flag.
  - intros [j|]; [|done]. unfold Sql.get_post, Sql.post_by_id.
    rewrite Hposts, Hcomments.
    destruct (find _ (Sql.posts d)) as [q|]; [|done].
    case_decide; [done|]. simpl. f_equal. f_equal.
    + apply (sql_annotate_flag d i now p post.persona_id q Hp).
    + rewrite <-(sort_fmap by_created_at_id by_created_at_id).
      * f_equal. rewrite <-list_fmap_compose. apply list_fmap_ext.
        intros _ c _. simpl.
        apply (sql_annotate_flag d i now p comment.persona_id c Hp).
      * intros a b. unfold by_created_at_id.
        by rewrite !flag_deleted_entity.
Qed.

Lemma StronglySorted_filter {A} (R : relation A) (P : A → Prop)
    `{∀ x, Decision (P x)} l :
  StronglySorted R l → StronglySorted R (filter P l).
Proof.
  induction 1 as [|x l Hl IH Hx]; [constructor|].
  rewrite filter_cons. case_decide; [|done].
  constructor; [done|]. apply Forall_forall.
  intros y [_ Hy]%list_elem_of_filter. by apply (proj1 (Forall_forall _ _) Hx).
Qed.

Lemma db_list_ext pre (s s' : Kv.store) :
  (∀ k, String.prefix pre k = true → is_Some (s !! k) ↔ is_Some (s' !! k)) →
  Kv.db_list pre s = Kv.db_list pre s'.
Proof.
  intros Hkeys. apply (StronglySorted_unique String.le).
  - apply StronglySorted_filter, StronglySorted_merge_sort; apply _.
  - apply StronglySorted_filter, StronglySorted_merge_sort; apply _.
  - apply NoDup_Permutation; [apply NoDup_db_list..|].
    intros k. rewrite !elem_of_db_list.
    split; intros [Hk Hpre]; (split; [by apply (Hkeys k Hpre)|done]).
Qed.

Lemma omap_ext_elem {A B} (f g : A → option B) (l : list A) :
  (∀ x, x ∈ l → f x = g x) → omap f l = omap g l.
Proof.
  induction l as [|x l IH]; [done|]. intros Hfg. csimpl.
  rewrite (Hfg x) by (by left). rewrite IH; [done|].
  intros y Hy. apply Hfg. by right.
Qed.

Lemma kv_delete_persona_lookup (s : Kv.store) i now p k :
  Kv.get_persona (Kv.persona_key i) s = Some p →
  (Kv.delete_persona (Some i) now s).2 !! k
  = if decide (k = Kv.name_key (persona.name p)) then None
    else if decide (k = Kv.persona_key i)
    then Some (Kv.VPersona (persona.with_deleted_at (Some (nowIso now)) p))
    else s !! k.
Proof.
  intros Hp. unfold Kv.delete_persona. simpl.
  change ("persona:" +:+ pretty i) with (Kv.persona_key i). rewrite Hp. simpl.
  unfold Kv.db_delete, Kv.db_set.
  destruct (decide (k = Kv.name_key (persona.name p))) as [->|Hk].
  - by rewrite lookup_delete_eq.
  - rewrite lookup_delete_ne by done.
    destruct (decide (k = Kv.persona_key i)) as [->|Hk'].
    + by rewrite lookup_insert_eq.
    + by rewrite lookup_insert_ne.
Qed.

Lemma post_family_key k n i :
  String.prefix "post:" k = true ∨ String.prefix "comment_post:" k = true →
  k ≠ Kv.name_key n ∧ k ≠ Kv.persona_key i.
Proof.
  unfold Kv.name_key, Kv.persona_key.
  intros [[x ->]%prefix_inv|[x ->]%prefix_inv]; rewrite !app_cons;
    split; intros [=].
Qed.

Lemma kv_delete_persona_other (s : Kv.store) i now p k :
  Kv.get_persona (Kv.persona_key i) s = Some p →
  String.prefix "post:" k = true ∨ String.prefix "comment_post:" k = true →
  (Kv.delete_persona (Some i) now s).2 !! k = s !! k.
Proof.
  intros Hp Hk. rewrite (kv_delete_persona_lookup s i now p k Hp).
  destruct (post_family_key k (persona.name p) i Hk).
  by rewrite !decide_False.
Qed.

Lemma comment_scan_family pre k :
  String.prefix ("comment_post:" +:+ pre) k = true →
  String.prefix "comment_post:" k = true.
Proof.
  intros [x ->]%prefix_inv. rewrite app_assoc_string. apply prefix_app_l.
Qed.

Lemma kv_annotate_flag {A} (s : Kv.store) i now p (f : A → option Z) (x : A) j :
  Kv.get_persona (Kv.persona_key i) s = Some p →
  f x = Some j →
  Kv.annotate
    (Kv.get_persona (Kv.persona_key j) (Kv.delete_persona (Some i) now s).2) x
  = flag_deleted i f (Kv.annotate (Kv.get_persona (Kv.persona_key j) s) x).
Proof.
  intros Hp Hf. unfold Kv.get_persona at 1, Kv.db_get.
  rewrite (kv_delete_persona_lookup s i now p _ Hp).
  rewrite decide_False
    by (intros Heq; by destruct (name_key_not_persona (persona.name p) j)).
  unfold flag_deleted. simpl. rewrite Hf.
  destruct (decide (j = i)) as [->|Hne].
  - rewrite !decide_True by done. rewrite Hp. simpl. done.
  - rewrite decide_False by (by intros ?%persona_key_inj).
    rewrite decide_False by congruence. done.
Qed.

Lemma kv_getPersona_flag {A} (s : Kv.store) i now p (f : A → option Z) (x : A) :
  Kv.get_persona (Kv.persona_key i) s = Some p →
  Js.truthy_num (f x) = true →
  Kv.annotate (Kv.getPersona (f x) (Kv.delete_persona (Some i) now s).2) x
  = flag_deleted i f (Kv.annotate (Kv.getPersona (f x) s) x) ∧
  Kv.annotate
    (Kv.get_persona ("persona:" +:+ from_option pretty "null" (f x))
       (Kv.delete_persona (Some i) now s).2) x
  = flag_deleted i f
      (Kv.annotate
         (Kv.get_persona ("persona:" +:+ from_option pretty "null" (f x)) s) x).
Proof.
  intros Hp Htruthy. unfold Kv.getPersona. rewrite Htruthy. simpl.
  destruct (f x) as [j|] eqn:Hf; [|done]. simpl.
  change ("persona:" +:+ pretty j) with (Kv.persona_key j).
  by rewrite (kv_annotate_flag s i now p f x j Hp Hf).
Qed.

Lemma by_created_at_flag i a b :
  by_created_at (flag_deleted i comment.persona_id a)
                (flag_deleted i comment.persona_id b) ↔ by_created_at a b.
Proof. unfold by_created_at. by rewrite !flag_deleted_entity. Qed.

Lemma kv_delete_persona_keeps (s : Kv.store) i now :
  Kv.wf s →
  (Kv.delete_persona (Some i) now s).1 = Ok () →
  let s' := (Kv.delete_persona (Some i) now s).2 in
  (∀ q, q ∈ Kv.posts s' ↔ q ∈ Kv.posts s) ∧
  (∀ c, c ∈ Kv.comments s' ↔ c ∈ Kv.comments s) ∧
  (∀ sort, Kv.list_posts sort s' = flag_row i <$> Kv.list_posts sort s) ∧
  (∀ j, Kv.get_post j s' = flag_detail i (Kv.get_post j s)).
Proof.
  intros Hwf Hok s'.
  pose proof (wf_delete_persona (Some i) now s Hwf) as Hwf'. fold s' in Hwf'.
  assert (∃ p, Kv.get_persona (Kv.persona_key i) s = Some p) as [p Hp].
  { revert Hok. unfold Kv.delete_persona. simpl.
    change ("persona:" +:+ pretty i) with (Kv.persona_key i).
    destruct (Kv.get_persona _ s); [by eauto|done]. }
  assert (∀ k, String.prefix "post:" k = true ∨
               String.prefix "comment_post:" k = true →
               s' !! k = s !! k) as Hother.
  { intros k Hk. by apply (kv_delete_persona_other s i now p k). }
  assert (Kv.db_list "post:" s' = Kv.db_list "post:" s) as Hkeys.
  { apply db_list_ext. intros k Hk. rewrite Hother; [done|by left]. }
  assert (∀ pre, Kv.db_list ("comment_post:" +:+ pre) s'
                 = Kv.db_list ("comment_post:" +:+ pre) s) as Hckeys.
  { intros pre. apply db_list_ext. intros k Hk%comment_scan_family.
    rewrite Hother; [done|by right]. }
  assert (omap (λ k, Kv.get_post_at k s') (Kv.db_list "post:" s)
          = omap (λ k, Kv.get_post_at k s) (Kv.db_list "post:" s)) as Hposts.
  { apply omap_ext_elem. intros k [_ Hk]%elem_of_db_list.
    unfold Kv.get_post_at, Kv.db_get. rewrite Hother; [done|by left]. }
  assert (∀ pre, omap (λ k, Kv.get_comment k s')
                      (Kv.db_list ("comment_post:" +:+ pre) s)
                 = omap (λ k, Kv.get_comment k s)
                      (Kv.db_list ("comment_post:" +:+ pre) s)) as Hcomments.
  { intros pre. apply omap_ext_elem.
    intros k [_ Hk%comment_scan_family]%elem_of_db_list.
    unfold Kv.get_comment, Kv.db_get. rewrite Hother; [done|by right]. }
  split_and!.
  - intros q. rewrite !elem_of_kv_posts by done. rewrite Hother; [done|].
    left. apply (prefix_app_l "post:").
  - intros c. rewrite !elem_of_kv_comments by done. rewrite Hother; [done|].
    right. apply (prefix_app_l "comment_post:").
  - intros sort. unfold Kv.list_posts. rewrite Hkeys, Hposts.
    assert ((λ q, PostRow (Kv.annotate (Kv.getPersona (post.persona_id q) s') q)
                    (length (Kv.db_list (Kv.comment_prefix (post.id q)) s')))
              <$> filter (λ q, post.deleted_at q = None)
                    (omap (λ k, Kv.get_post_at k s) (Kv.db_list "post:" s))
            = flag_row i <$>
                ((λ q, PostRow
                         (Kv.annotate (Kv.getPersona (post.persona_id q) s) q)
                         (length (Kv.db_list (Kv.comment_prefix (post.id q)) s)))
                   <$> filter (λ q, post.deleted_at q = None)
                         (omap (λ k, Kv.get_post_at k s)
                               (Kv.db_list "post:" s)))) as ->.
    { rewrite <-list_fmap_compose. apply list_fmap_ext.
      intros idx q [_ (k & _ & Hq)%list_elem_of_omap]%list_elem_of_lookup_2
        %list_elem_of_filter.
      apply wf_get_post in Hq as (_ & _ & Htruthy); [|done].
      simpl. unfold flag_row. simpl.
      unfold Kv.comment_prefix. rewrite Hckeys. f_equal.
      apply (kv_getPersona_flag s i now p post.persona_id q Hp Htruthy). }
    case_decide.
    + apply sort_fmap, by_hot_flag.
    + apply sort_fmap, by_new_flag.
  - intros j. unfold Kv.get_post.
    assert (Kv.get_post_at ("post:" +:+ Kv.num j) s'
            = Kv.get_post_at ("post:" +:+ Kv.num j) s) as ->.
    { unfold Kv.get_post_at, Kv.db_get. rewrite Hother; [done|].
      left. apply (prefix_app_l "post:"). }
    destruct (Kv.get_post_at _ s) as [q|] eqn:Hq; [|done].
    case_decide; [done|]. simpl.
    apply wf_get_post in Hq as (_ & _ & Htruthy); [|done].
    rewrite Hckeys, Hcomments. f_equal. f_equal.
    + apply (kv_getPersona_flag s i now p post.persona_id q Hp Htruthy).
    + rewrite <-(sort_fmap by_created_at by_created_at)
        by apply by_created_at_flag.
      f_equal. rewrite <-list_fmap_compose. apply list_fmap_ext.
      intros idx c [_ (k & _ & Hc)%list_elem_of_omap]%list_elem_of_lookup_2
        %list_elem_of_filter.
      apply wf_get_comment in Hc as (_ & _ & _ & Htruthy'); [|done].
      apply (kv_getPersona_flag s i now p comment.persona_id c Hp Htruthy').
Qed.

(** X17.  Deleting a persona keeps its posts and comments, in both
    variants: once [DELETE /api/personas/:id] has answered ok, storage
    holds the same posts and comments, and the listing and the detail read
    return the same posts and comments in the same order with the same
    reply counts.  Only the display changes: a row of the deleted persona
    keeps the name it showed, has no avatar and is flagged
    [persona_deleted]; every other row is as it was. *)
Theorem delete_persona_keeps_posts (url_protocol : string → option string) :
  (∀ d i now,
     (Sql.delete_persona (Some i) now d).1 = Ok () →
     let d' := (Sql.delete_persona (Some i) now d).2 in
     Sql.posts d' = Sql.posts d ∧ Sql.comments d' = Sql.comments d ∧
     (∀ sort, Sql.list_posts sort d' = flag_row i <$> Sql.list_posts sort d) ∧
     (∀ j, Sql.get_post j d' = flag_detail i (Sql.get_post j d))) ∧
  (∀ s i now,
     Kv.reachable url_protocol s →
     (Kv.delete_persona (Some i) now s).1 = Ok () →
     let s' := (Kv.delete_persona (Some i) now s).2 in
     (∀ q, q ∈ Kv.posts s' ↔ q ∈ Kv.posts s) ∧
     (∀ c, c ∈ Kv.comments s' ↔ c ∈ Kv.comments s) ∧
     (∀ sort, Kv.list_posts sort s' = flag_row i <$> Kv.list_posts sort s) ∧
     (∀ j, Kv.get_post j s' = flag_detail i (Kv.get_post j s))).
Proof.
  split.
  - apply sql_delete_persona_keeps.
  - intros s i now Hs%reachable_wf. by apply kv_delete_persona_keeps.
Qed.

Lemma delete_persona_keeps_posts_witness :
  let rqs :=
    [(CreatePersona (persona_req.mk (Some "Ann") (Some "http://a/b.png")
                                    None None), Clock 1 1);
     (CreatePersona (persona_req.mk (Some "Bob") None None None), Clock 2 2);
     (CreatePost (post_req.mk (Some "ann") (Some "first") None), Clock 3 3);
     (CreatePost (post_req.mk (Some "bob") (Some "second") None), Clock 4 4)] in
  let d := (Sql.run scheme_of rqs Sql.empty).2 in
  let s := (Kv.run scheme_of rqs ∅).2 in
  let d' := (Sql.delete_persona (Some 1) (Clock 5 5) d).2 in
  let s' := (Kv.delete_persona (Some 1) (Clock 5 5) s).2 in
  (∀ sort, Sql.list_posts sort d' = flag_row 1 <$> Sql.list_posts sort d) ∧
  (∀ sort, Kv.list_posts sort s' = flag_row 1 <$> Kv.list_posts sort s) ∧
  (λ r, (row_id r, persona_name (row r), persona_avatar_url (row r),
         persona_deleted (row r))) <$> Kv.list_posts None s'
  = [(4, "Bob", Js.null, false); (3, "Ann", Js.null, true)].
Proof.
  intros rqs d s d' s'. split; [|split].
  - apply (proj1 (delete_persona_keeps_posts scheme_of) d 1 (Clock 5 5)).
    reflexivity.
  - apply (proj2 (delete_persona_keeps_posts scheme_of) s 1 (Clock 5 5)).
    + apply reachable_run, Kv.reachable_empty.
    + vm_compute. reflexivity.
  - vm_compute. reflexivity.
Defined.

(** ** Names are resolved without regard to case *)

Lemma toLowerCase_empty s : Js.toLowerCase s = "" ↔ s = "".
Proof. by destruct s. Qed.

Lemma lower_eq_empty m n :
  Js.toLowerCase m = Js.toLowerCase n → m = "" ↔ n = "".
Proof.
  intros H. by rewrite <-(toLowerCase_empty m), <-(toLowerCase_empty n), H.
Qed.

(** X18.  The persona a post or a comment is written under is found by its
    name without regard to the case of the ASCII letters, in both variants:
    two requests whose persona names differ in case only, and that are
    otherwise the same, get the same answer and leave the same state. *)
Theorem writer_name_ignores_case (url_protocol : string → option string)
    m n now :
  Js.toLowerCase (Js.field m) = Js.toLowerCase (Js.field n) →
  (∀ content image d,
     Sql.create_post url_protocol (post_req.mk m content image) now d
     = Sql.create_post url_protocol (post_req.mk n content image) now d) ∧
  (∀ post_id content reply d,
     Sql.create_comment (comment_req.mk post_id m content reply) now d
     = Sql.create_comment (comment_req.mk post_id n content reply) now d) ∧
  (∀ content image (s : Kv.store),
     Kv.create_post url_protocol (post_req.mk m content image) now s
     = Kv.create_post url_protocol (post_req.mk n content image) now s) ∧
  (∀ post_id content reply (s : Kv.store),
     Kv.create_comment (comment_req.mk post_id m content reply) now s
     = Kv.create_comment (comment_req.mk post_id n content reply) now s).
Proof.
  intros Hmn. pose proof (lower_eq_empty _ _ Hmn) as Hempty.
  assert (∀ d, Sql.persona_by_name d (Js.field m)
               = Sql.persona_by_name d (Js.field n)) as Hsql.
  { intros d. unfold Sql.persona_by_name. by rewrite Hmn. }
  assert (Kv.name_key (Js.field m) = Kv.name_key (Js.field n)) as Hkv.
  { unfold Kv.name_key. by rewrite Hmn. }
  split_and!.
  - intros content image d. unfold Sql.create_post.
    cbn [post_req.persona_name post_req.content post_req.image_url].
    rewrite Hsql.
    destruct (decide (Js.field m = "")) as [Hm|Hm].
    + by rewrite (decide_True (P := Js.field n = "")) by tauto.
    + by rewrite (decide_False (P := Js.field n = "")) by tauto.
  - intros post_id content reply d. unfold Sql.create_comment.
    cbn [comment_req.persona_name comment_req.content comment_req.post_id
         comment_req.reply_to_comment_id].
    destruct post_id as [postId|]; [|done]. rewrite Hsql.
    destruct (decide (Js.field m = "")) as [Hm|Hm].
    + by rewrite (decide_True (P := Js.field n = "")) by tauto.
    + by rewrite (decide_False (P := Js.field n = "")) by tauto.
  - intros content image s. unfold Kv.create_post.
    cbn [post_req.persona_name post_req.content post_req.image_url].
    rewrite Hkv.
    destruct (decide (Js.field m = "")) as [Hm|Hm].
    + rewrite (bool_decide_eq_true_2 (Js.field m = "")) by done.
      by rewrite (bool_decide_eq_true_2 (Js.field n = "")) by tauto.
    + rewrite (bool_decide_eq_false_2 (Js.field m = "")) by done.
      by rewrite (bool_decide_eq_false_2 (Js.field n = "")) by tauto.
  - intros post_id content reply s. unfold Kv.create_comment.
    cbn [comment_req.persona_name comment_req.content comment_req.post_id
         comment_req.reply_to_comment_id].
    destruct post_id as [postId|]; [|done]. rewrite Hkv.
    destruct (decide (Js.field m = "")) as [Hm|Hm].
    + rewrite (bool_decide_eq_true_2 (Js.field m = "")) by done.
      by rewrite (bool_decide_eq_true_2 (Js.field n = "")) by tauto.
    + rewrite (bool_decide_eq_false_2 (Js.field m = "")) by done.
      by rewrite (bool_decide_eq_false_2 (Js.field n = "")) by tauto.
Qed.
Lemma writer_name_ignores_case_witness :
  let d := (Sql.run scheme_of
     [(CreatePersona (persona_req.mk (Some "Ann") None None None), Clock 1 1)]
     Sql.empty).2 in
  Sql.create_post scheme_of (post_req.mk (Some " ANN") (Some "hi") None)
                  (Clock 2 2) d
  = Sql.create_post scheme_of (post_req.mk (Some "ann ") (Some "hi") None)
                    (Clock 2 2) d ∧
  (Sql.create_post scheme_of (post_req.mk (Some " ANN") (Some "hi") None)
                   (Clock 2 2) d).1 = Ok 1.
Proof.
  intros d. split; [|reflexivity].
  apply (proj1 (writer_name_ignores_case scheme_of (Some " ANN") (Some "ann ")
                  (Clock 2 2) eq_refl)).
Defined.

(** ** Rows are never edited or removed *)

Lemma sql_comments_of_live_post (url_protocol : string → option string) d :
  Sql.reachable url_protocol d →
  ∀ c p, c ∈ Sql.comments d → p ∈ Sql.posts d →
    post.id p = comment.post_id c → post.deleted_at p = None →
    comment.deleted_at c = None.
Proof.
  induction 1 as [|rq now d Hd IH]; [by intros c p ?%elem_of_nil|].
  pose proof (sql_refs_reachable _ _ Hd) as [_ Hrefs].
  destruct (sql_handle_cases url_protocol rq now d)
    as [->|[(p & -> & _)|[(i & p & _ & _ & ->)|
        [(p & per & -> & Hid & _)|
         [(i & p & _ & _ & ->)|
          (c & p & per & -> & _ & _ & _ & _ & _ & _ & _ & _ & Hlive & _)]]]]];
    simpl; try done.
  - intros c q Hc [Hq| ->%list_elem_of_singleton]%elem_of_app; [by eauto|].
    intros Hpost _. exfalso.
    destruct (Hrefs c Hc) as (_ & (q & Hq & Hqid & _) & _).
    apply (autoincrement_fresh (Sql.posts_seq d) (post.id <$> Sql.posts d)).
    rewrite <-Hid, Hpost, <-Hqid. apply list_elem_of_fmap. by exists q.
  - intros c' q' (c & -> & Hc)%list_elem_of_fmap (q & -> & Hq)%list_elem_of_fmap.
    destruct (decide (post.id q = i)) as [Hi|Hi]; [done|].
    destruct (decide (comment.post_id c = i)) as [Hi'|Hi']; simpl.
    + intros Heq. congruence.
    + by apply IH.
  - intros c' q [Hc'| ->%list_elem_of_singleton]%elem_of_app Hq; [by eauto|done].
Qed.

(** X19.  No request of the SQLite variant edits or removes a stored row:
    in every state the server can reach, after any request, every persona,
    post and comment that was stored is still stored, either exactly as it
    was or, if it was not deleted, with [deleted_at] set to the time of the
    request.  So the contents never change, and a [deleted_at] that is set
    is never changed or cleared. *)
Theorem sql_rows_persist (url_protocol : string → option string) d rq now :
  Sql.reachable url_protocol d →
  let d' := (Sql.handle url_protocol rq now d).2 in
  persists (persona.with_deleted_at (Some (nowIso now))) persona.deleted_at
           (Sql.personas d) (Sql.personas d') ∧
  persists (post.with_deleted_at (Some (nowIso now))) post.deleted_at
           (Sql.posts d) (Sql.posts d') ∧
  persists (comment.with_deleted_at (Some (nowIso now))) comment.deleted_at
           (Sql.comments d) (Sql.comments d').
Proof.
  intros Hd d'.
  pose proof (sql_reachable_inv _ _ Hd) as (Hpids & Hqids & _).
  pose proof (sql_comments_of_live_post _ _ Hd) as Hlive.
  assert (∀ {A} (mark : A → A) (del : A → option Z) (l : list A),
            persists mark del l l) as Hrefl.
  { intros A mark del l x Hx. by left. }
  assert (∀ {A} (mark : A → A) (del : A → option Z) (l k : list A),
            persists mark del l (l ++ k)) as Happ.
  { intros A mark del l k x Hx. left. apply elem_of_app. by left. }
  unfold d'. clear d'.
  destruct (sql_handle_cases url_protocol rq now d)
    as [->|[(p & -> & _)|[(i & p & Hp & Hplive & ->)|
        [(p & per & -> & _)|
         [(i & p & Hp & Hplive & ->)|(c & p & per & -> & _)]]]]];
    simpl; try by split_and!.
  - (* a persona is marked *)
    split_and!; [|done..]. intros q Hq.
    destruct (decide (persona.id q = i)) as [Hi|Hi].
    + right. unfold Sql.persona_by_id in Hp.
      rewrite (find_key_unique persona.id i _ q Hpids Hq Hi) in Hp.
      simplify_eq. split; [done|]. apply list_elem_of_fmap. exists p.
      by rewrite decide_True.
    + left. apply list_elem_of_fmap. exists q. by rewrite decide_False.
  - (* a post and its comments are marked *)
    split_and!; [done|..].
    + intros q Hq. destruct (decide (post.id q = i)) as [Hi|Hi].
      * right. unfold Sql.post_by_id in Hp.
        rewrite (find_key_unique post.id i _ q Hqids Hq Hi) in Hp.
        simplify_eq. split; [done|]. apply list_elem_of_fmap. exists p.
        by rewrite decide_True.
      * left. apply list_elem_of_fmap. exists q. by rewrite decide_False.
    + intros c Hc. apply find_key_Some in Hp as [Hp Hi].
      destruct (decide (comment.post_id c = i)) as [Hi'|Hi'].
      * right. split; [by apply (Hlive c p Hc Hp); congruence|].
        apply list_elem_of_fmap. exists c. by rewrite decide_True.
      * left. apply list_elem_of_fmap. exists c. by rewrite decide_False.
Qed.

Lemma sql_rows_persist_witness :
  let d := (Sql.run scheme_of
     [(CreatePersona (persona_req.mk (Some "Ann") None None None), Clock 1 1);
      (CreatePost (post_req.mk (Some "ann") (Some "first") None), Clock 2 2);
      (CreateComment (comment_req.mk (Some 1) (Some "ann") (Some "a") None),
       Clock 3 3);
      (DeletePost (Some 1), Clock 4 4)] Sql.empty).2 in
  let d' := (Sql.handle scheme_of (DeletePost (Some 1)) (Clock 9 9) d).2 in
  persists (comment.with_deleted_at (Some 9)) comment.deleted_at
           (Sql.comments d) (Sql.comments d') ∧
  comment.deleted_at <$> Sql.comments d' = [Some 4].
Proof.
  intros d d'. split; [|reflexivity].
  apply (sql_rows_persist scheme_of d (DeletePost (Some 1)) (Clock 9 9)).
  apply sql_reachable_run, Sql.reachable_empty.
Defined.

(** ** An id that is not a number *)

Lemma all_digits_pretty_N_go x s :
  all_digits s = true → all_digits (pretty_N_go x s) = true.
Proof.
  revert s. induction (N.lt_wf_0 x) as [x _ IH]; intros s Hs.
  assert (x = 0 ∨ 0 < x)%N as [->|?] by lia.
  - by rewrite pretty_N_go_0.
  - rewrite pretty_N_go_step by done. apply IH.
    { by apply N.div_lt. }
    simpl. rewrite Hs. unfold pretty_N_char. repeat case_match; reflexivity.
Qed.

Lemma pretty_not_NaN (z : Z) : pretty z ≠ "NaN".
Proof.
  assert (∀ x : N, pretty x ≠ "NaN") as HN.
  { intros x Hx. assert (all_digits (pretty x) = true) as Hd.
    { unfold pretty, pretty_N. case_decide; [done|].
      by apply all_digits_pretty_N_go. }
    by rewrite Hx in Hd. }
  destruct z as [|p|p]; [done|apply (HN (Npos p))|].
  change (pretty (Z.neg p)) with (String "-" (pretty (Npos p))). by intros [=].
Qed.

(** X20.  An id that is not a number never reaches a stored object.  The
    SQLite variant answers [BAD_ID] before it looks anything up; the
    key-value variant builds the key from the text [NaN], which is the key
    of no object in any store the server can reach, so that it answers
    [NOT_FOUND]; in both variants nothing is changed. *)
Theorem malformed_id_finds_nothing (url_protocol : string → option string) :
  (∀ d now,
     Sql.get_post None d = Err 400 "BAD_ID" ∧
     Sql.delete_post None now d = (Err 400 "BAD_ID", d) ∧
     Sql.delete_persona None now d = (Err 400 "BAD_ID", d)) ∧
  (∀ s now,
     Kv.reachable url_protocol s →
     Kv.get_post None s = Err 404 "NOT_FOUND" ∧
     Kv.delete_post None now s = (Err 404 "NOT_FOUND", s) ∧
     Kv.delete_persona None now s = (Err 404 "NOT_FOUND", s)).
Proof.
  split; [done|].
  intros s now Hs%reachable_wf.
  assert (Kv.get_post_at ("post:" +:+ Kv.num None) s = None) as Hpost.
  { destruct (Kv.get_post_at _ s) as [p|] eqn:Hp; [|done].
    apply wf_get_post in Hp as (_ & Hk & _); [|done].
    apply num_pretty in Hk. by destruct (pretty_not_NaN (post.id p)). }
  assert (Kv.get_persona ("persona:" +:+ Kv.num None) s = None) as Hpersona.
  { destruct (Kv.get_persona _ s) as [p|] eqn:Hp; [|done].
    apply wf_get_persona in Hp as (_ & Hk & _); [|done].
    unfold Kv.persona_key in Hk. rewrite !app_cons in Hk.
    injection Hk as Hk. by destruct (pretty_not_NaN (persona.id p)). }
  split_and!.
  - unfold Kv.get_post. by rewrite Hpost.
  - rewrite delete_post_final. by rewrite Hpost.
  - unfold Kv.delete_persona. by rewrite Hpersona.
Qed.

Lemma malformed_id_finds_nothing_witness :
  let s := (Kv.run scheme_of
     [(CreatePersona (persona_req.mk (Some "Ann") None None None), Clock 1 1);
      (CreatePost (post_req.mk (Some "ann") (Some "first") None), Clock 2 2)]
     ∅).2 in
  Kv.get_post None s = Err 404 "NOT_FOUND" ∧
  Kv.delete_post None (Clock 3 3) s = (Err 404 "NOT_FOUND", s) ∧
  Kv.delete_persona None (Clock 3 3) s = (Err 404 "NOT_FOUND", s).
Proof.
  intros s.
  apply (proj2 (malformed_id_finds_nothing scheme_of) s (Clock 3 3)).
  apply reachable_run, Kv.reachable_empty.
Defined.
